(** * gbmtsplits: globally balanced multi-task splits

    A shallow embedding of [src/gbmtsplits/split.py] (class
    [GloballyBalancedSplit]) and the properties of it that the
    specification states.

    Numbers.  The program computes with NumPy doubles; the embedding uses
    exact rationals ([Q], compared with [==]).  Missing values ([NaN] in a
    pandas column) are the cell [NaN].  Division by zero, which NumPy
    turns into [inf]/[nan], is [Qdiv]'s [0]; every statement below that
    depends on a quotient carries the hypothesis that makes the divisor
    non-zero.

    Rows.  A data frame has an index of row labels beside the positions
    [0 .. nrows-1] of its rows; labels are non-negative integers, as in a
    [RangeIndex] or in what is left of one after rows were filtered or
    shuffled.  [iloc] and NumPy arrays go by position, [loc] and [.index]
    by label, and the embedding keeps the two apart as the program does.

    External collaborators.  The clustering strategies, the RDKit
    fingerprints and similarities, the CBC solver and Python's [str] on a
    number are not part of the repository's sources; they are Variables of
    the sections that use them. *)

From Stdlib Require Import QArith Qround Qabs Lqa.
From stdpp Require Import base list sorting strings pretty.

Local Open Scope Q_scope.

(** ** NumPy helpers *)

(** [np.sum] of a one-dimensional array. *)
Definition np_sum (l : list Q) : Q := foldr Qplus 0 l.

(** [a / k] for an array [a] and a scalar [k].  For [k = 0] this is [0]
    where NumPy gives [inf] or [nan]: the statements about quotients
    assume the divisors non-zero. *)
Definition np_div (l : list Q) (k : Q) : list Q := map (fun a => a / k) l.

(** [k / a] for a scalar [k] and an array [a]. *)
Definition np_rdiv (k : Q) (l : list Q) : list Q := map (fun a => k / a) l.

(** An integer count as a NumPy number. *)
Definition of_nat (n : nat) : Q := inject_Z (Z.of_nat n).

(** [a[i]] for an index in range (the callers below only index in range);
    [0] stands for the [IndexError] case, which they never reach. *)
Definition at1 (l : list Q) (i : nat) : Q := nth i l 0.

(** [A[t, c]] on a two-dimensional array held as the list of its rows. *)
Definition at2 (A : list (list Q)) (t c : nat) : Q := at1 (nth t A []) c.

(** [A.shape]: the number of rows and the number of columns. *)
Definition shape (A : list (list Q)) : nat * nat :=
  (length A, match A with [] => O | r :: _ => length r end).

(** [A / A.sum(axis = 1, keepdims = True)]: every row divided by its sum. *)
Definition normalise_rows (A : list (list Q)) : list (list Q) :=
  map (fun row => np_div row (np_sum row)) A.

(** ** The PuLP model *)

Module Lp.

(** The two families of variables of the model: [x_i] (cluster in subset)
    and [X_i] (slack). *)
Inductive var : Type :=
| x_ (i : nat)
| X_ (i : nat).

#[global] Instance var_eq_dec : EqDecision var.
Proof. solve_decision. Defined.

Inductive category : Type := Integer | Continuous.

Record LpVariable : Type := mkVar {
  name : var;
  lowBound : option Q;
  upBound : option Q;
  cat : category
}.

(** [LpAffineExpression]: a list of (variable, coefficient) pairs. *)
Definition LpAffineExpression : Type := list (var * Q).

Inductive sense : Type := LE | GE | EQ.

Record LpConstraint : Type := mkCon {
  lhs : LpAffineExpression;
  rel : sense;
  rhs : Q
}.

Record LpProblem : Type := mkProb {
  variables : list LpVariable;
  objective : LpAffineExpression;
  constraints : list LpConstraint
}.

(** The value of an expression under a valuation of the variables. *)
Definition eval (v : var -> Q) (e : LpAffineExpression) : Q :=
  np_sum (map (fun p => snd p * v (fst p)) e).

Definition holds (v : var -> Q) (c : LpConstraint) : Prop :=
  match rel c with
  | LE => eval v (lhs c) <= rhs c
  | GE => rhs c <= eval v (lhs c)
  | EQ => eval v (lhs c) == rhs c
  end.

Definition integral (q : Q) : Prop := exists z : Z, q == inject_Z z.

Definition in_bounds (v : var -> Q) (d : LpVariable) : Prop :=
  match lowBound d with Some lo => lo <= v (name d) | None => True end /\
  match upBound d with Some hi => v (name d) <= hi | None => True end /\
  match cat d with Integer => integral (v (name d)) | Continuous => True end.

(** A valuation is feasible when it respects every variable's bounds and
    category and every constraint. *)
Definition feasible (p : LpProblem) (v : var -> Q) : Prop :=
  Forall (in_bounds v) (variables p) /\ Forall (holds v) (constraints p).

End Lp.

Import Lp.

(** ** [_merge_clusters_with_balancing_mapping]: building the model *)

Section Model.

Variable tasks_vs_clusters_array : list (list Q).
Variable sizes : list Q.
Variable equal_weight_perc_compounds_as_tasks : bool.

Definition fractional_sizes : list Q := np_div sizes (np_sum sizes).

Definition S_ : nat := length sizes.

(** The normalised table, called [A] in the source. *)
Definition A_ : list (list Q) := normalise_rows tasks_vs_clusters_array.

Definition M_ : nat := fst (shape A_).
Definition N_ : nat := snd (shape A_).

(** [WT], before and after normalisation. *)
Definition obj_weights_raw : list Q :=
  if (1 <? M_)%nat && negb equal_weight_perc_compounds_as_tasks
  then of_nat (M_ - 1) :: repeat 1 (M_ - 1)
  else repeat 1 M_.

Definition obj_weights : list Q := np_div obj_weights_raw (np_sum obj_weights_raw).

(** [WML]. *)
Definition sk_harmonic : list Q :=
  np_div (np_rdiv 1 fractional_sizes) (np_sum (np_rdiv 1 fractional_sizes)).

Definition x_vars : list LpVariable :=
  map (fun i => mkVar (x_ i) (Some 0) (Some 1) Integer) (seq 0 (N_ * S_)).

Definition X_vars : list LpVariable :=
  map (fun i => mkVar (X_ i) (Some 0) None Continuous) (seq 0 (M_ * S_)).

(** The objective: the loop over [m] and [t] that fills [obj] and
    [coeff], zipped. *)
Definition objective_expr : LpAffineExpression :=
  flat_map (fun m =>
    map (fun t => (X_ (m * M_ + t), at1 sk_harmonic m * at1 obj_weights t))
        (seq 0 M_))
    (seq 0 S_).

(** Each cluster in one and only one subset. *)
Definition assignment_constraints : list LpConstraint :=
  map (fun c => mkCon (map (fun m => (x_ (c + m * N_), 1)) (seq 0 S_)) EQ 1)
      (seq 0 N_).

(** [cs = [c for c in range(N) if A[t,c] != 0]]. *)
Definition cs_ (t : nat) : list nat :=
  List.filter (fun c => negb (Qeq_bool (at2 A_ t c) 0)) (seq 0 N_).

(** The two constraints added for a pair [(m, t)].  The slack they
    mention is [X[t]], as the source has it. *)
Definition abs_constraints_at (m t : nat) : list LpConstraint :=
  [ mkCon (map (fun c => (x_ (c + m * N_), at2 A_ t c)) (cs_ t) ++ [(X_ t, - (1))])
          LE (at1 fractional_sizes m);
    mkCon (map (fun c => (x_ (c + m * N_), at2 A_ t c)) (cs_ t) ++ [(X_ t, 1)])
          GE (at1 fractional_sizes m) ].

Definition abs_constraints : list LpConstraint :=
  flat_map (fun m => flat_map (fun t => abs_constraints_at m t) (seq 0 M_))
           (seq 0 S_).

Definition prob : LpProblem :=
  mkProb (x_vars ++ X_vars) objective_expr
         (assignment_constraints ++ abs_constraints).

End Model.

(** ** Exceptions *)

Inductive exn : Type :=
| ValueError (msg : string)
| KeyError (key : string)
| IndexError
| TypeError.

(** ** pandas: cells, series and data frames *)

(** A cell of a column: missing ([NaN]), a number, or a string (the
    structural identifiers are strings). *)
Inductive cell : Type :=
| NaN
| Num (q : Q)
| Str (s : string).

Definition Series : Type := list cell.

(** A data frame: its index, which holds the label of the row at each
    position, and its columns in order.  [RangeIndex(n)] is [seq 0 n]. *)
Record DataFrame : Type := mkDF {
  index : list nat;
  columns : list (string * Series)
}.

(** [df.shape[0]]: the number of rows. *)
Definition nrows (d : DataFrame) : nat := length (index d).

(** [df.columns.tolist()]. *)
Definition columns_tolist (d : DataFrame) : list string := map fst (columns d).

(** [df[name]]: the first column of that name, [KeyError] without one. *)
Fixpoint lookup_col (cols : list (string * Series)) (name : string) : option Series :=
  match cols with
  | [] => None
  | (n, s) :: rest => if String.eqb n name then Some s else lookup_col rest name
  end.

Definition getitem (d : DataFrame) (name : string) : exn + Series :=
  match lookup_col (columns d) name with
  | Some s => inr s
  | None => inl (KeyError name)
  end.

(** [df[name] = s]: replaces the column of that name, or appends one. *)
Fixpoint assign_col (cols : list (string * Series)) (name : string) (s : Series)
  : list (string * Series) :=
  match cols with
  | [] => [(name, s)]
  | (n, old) :: rest =>
      if String.eqb n name then (n, s) :: rest
      else (n, old) :: assign_col rest name s
  end.

Definition setitem (d : DataFrame) (name : string) (s : Series) : DataFrame :=
  mkDF (index d) (assign_col (columns d) name s).

Definition mem_str (x : string) (l : list string) : bool := existsb (String.eqb x) l.

(** [df.drop(labels, axis=1)]: [KeyError] when a label is no column. *)
Definition drop (d : DataFrame) (labels : list string) : exn + DataFrame :=
  match List.find (fun l => negb (mem_str l (columns_tolist d))) labels with
  | Some l => inl (KeyError l)
  | None =>
      inr (mkDF (index d)
             (List.filter (fun c => negb (mem_str (fst c) labels)) (columns d)))
  end.

(** [s.dropna()]. *)
Definition dropna (s : Series) : Series :=
  List.filter (fun c => match c with NaN => false | _ => true end) s.

(** Element-wise [==] of a cell with a value: [NaN] equals nothing. *)
Definition cell_eqb (a b : cell) : bool :=
  match a, b with
  | Num p, Num q => Qeq_bool p q
  | Str s, Str t => String.eqb s t
  | _, _ => false
  end.

(** Identity of values for [unique()], which keeps one [NaN]. *)
Definition cell_same (a b : cell) : bool :=
  match a, b with
  | NaN, NaN => true
  | _, _ => cell_eqb a b
  end.

(** [s.unique()]: the distinct values in order of first appearance. *)
Definition unique_step (seen : Series) (c : cell) : Series :=
  if existsb (cell_same c) seen then seen else seen ++ [c].

Definition unique (s : Series) : Series := fold_left unique_step s [].

(** [x % 1 == 0].  On a string Python's [%] is formatting; the embedding
    reports the [TypeError] it raises for a string without a directive. *)
Definition mod1_is_0 (c : cell) : exn + bool :=
  match c with
  | Num q => inr (Qeq_bool (inject_Z (Qfloor q)) q)
  | NaN => inr false
  | Str _ => inl TypeError
  end.

(** [all(x % 1 == 0 for x in s)], stopping at the first [False]. *)
Fixpoint all_integral (s : Series) : exn + bool :=
  match s with
  | [] => inr true
  | c :: rest =>
      match mod1_is_0 c with
      | inl e => inl e
      | inr false => inr false
      | inr true => all_integral rest
      end
  end.

(** [(s == cls).map({True: 1, False: np.nan})]. *)
Definition one_hot (s : Series) (cls : cell) : Series :=
  map (fun c => if cell_eqb c cls then Num 1 else NaN) s.

Definition mem_nat (i : nat) (l : list nat) : bool := existsb (Nat.eqb i) l.

(** [df.loc[idx, name] = v]: [idx] is a list of labels; every row whose
    label is in [idx] gets [v] in column [name]; a column that does not
    exist yet is created full of [NaN]; a label that is not in the index
    raises [KeyError]. *)
Definition column_or_nan (d : DataFrame) (name : string) : Series :=
  match lookup_col (columns d) name with
  | Some s => s
  | None => replicate (nrows d) NaN
  end.

Definition loc_setitem (d : DataFrame) (idx : list nat) (name : string) (v : Q)
  : exn + DataFrame :=
  match List.find (fun i => negb (mem_nat i (index d))) idx with
  | Some i => inl (KeyError (pretty i))
  | None =>
      inr (setitem d name
             (zip_with (fun label old => if mem_nat label idx then Num v else old)
                       (index d) (column_or_nan d name)))
  end.

(** ** Clustering strategies *)

(** Modelled from the spec: the classes of [clustering.py], which is not
    among the sources; the tests construct the four of them, and only
    [MaxMinClustering] and [RandomClustering] take a [seed]. *)
Inductive method_kind : Type :=
| MaxMinClustering
| LeaderPickerClustering
| MurckoScaffoldClustering
| RandomClustering.

(** [GetMorganGenerator(radius, fpSize)]. *)
Record FpCalculator : Type := GetMorganGenerator { radius : nat; fpSize : nat }.

Record ClusteringMethod : Type := mkMethod {
  kind : method_kind;
  seed : Z;
  fp_calculator : option FpCalculator
}.

(** A clustering: a [dict] from cluster id to the row positions of its
    members, in insertion order. *)
Definition Clusters : Type := list (nat * list nat).

(** ** The splitter object and the store *)

Definition loc : Type := nat.

(** The attributes of the splitter that the program reads: the arguments
    of the constructor and what [__call__] stores.  The scratch attribute
    [df_per_cluster], which [_compute_tasks_per_cluster] assigns at every
    turn of its loop and nothing reads, is not among them; that a
    computation leaves [self] as it was is said of these attributes. *)
Record Splitter : Type := mkSplitter {
  sizes : list Q;
  clusters : option Clusters;
  clustering_method : option ClusteringMethod;
  n_splits : nat;
  equal_weight_perc_compounds_as_tasks : bool;
  relative_gap : Q;
  time_limit_seconds : Q;
  n_jobs : nat;
  min_distance : bool;
  df : option loc;
  smiles_column : string;
  ignore_columns : option (list string);
  original_tasks : list string;
  tasks_for_balancing : list string
}.

(** What the external collaborators were asked to do, in order. *)
Inductive event : Type :=
| EvCluster (method : ClusteringMethod)
| EvTabulate
| EvSolve (p : LpProblem)
| EvFingerprints.

(** The store: the data frames that exist, the splitter, and the log of
    external work. *)
Record World : Type := mkWorld {
  heap : list DataFrame;
  self : Splitter;
  trace : list event
}.

(** Computations: they read and write the store and end in a value or in
    an exception; the store survives an exception. *)
Definition Py (A : Type) : Type := World -> World * (exn + A).

#[global] Instance Py_ret : MRet Py := fun A a w => (w, inr a).

#[global] Instance Py_bind : MBind Py := fun A B f m w =>
  match m w with
  | (w', inr a) => f a w'
  | (w', inl e) => (w', inl e)
  end.

Definition raise {A : Type} (e : exn) : Py A := fun w => (w, inl e).

Definition lift {A : Type} (r : exn + A) : Py A := fun w => (w, r).

Definition get_self : Py Splitter := fun w => (w, inr (self w)).

Definition set_self (f : Splitter -> Splitter) : Py unit :=
  fun w => (mkWorld (heap w) (f (self w)) (trace w), inr tt).

Definition emit (e : event) : Py unit :=
  fun w => (mkWorld (heap w) (self w) (trace w ++ [e]), inr tt).

(** [data.copy()]: a new data frame with the same content. *)
Definition copy (data : loc) : Py loc := fun w =>
  match heap w !! data with
  | Some d => (mkWorld (heap w ++ [d]) (self w) (trace w), inr (length (heap w)))
  | None => (w, inl TypeError)
  end.

(** Reading and writing the data frame [self.df] refers to. *)
Definition read_df : Py DataFrame := fun w =>
  match df (self w) with
  | Some l => match heap w !! l with
              | Some d => (w, inr d)
              | None => (w, inl TypeError)
              end
  | None => (w, inl TypeError)
  end.

Definition write_df (d : DataFrame) : Py unit := fun w =>
  match df (self w) with
  | Some l => (mkWorld (<[l := d]> (heap w)) (self w) (trace w), inr tt)
  | None => (w, inl TypeError)
  end.

(** [for a in l: body a]. *)
Fixpoint for_ {A : Type} (l : list A) (body : A -> Py unit) : Py unit :=
  match l with
  | [] => mret tt
  | a :: rest => body a ;; for_ rest body
  end.

(** Field updates of the splitter. *)
Definition with_df (l : loc) (s : Splitter) : Splitter :=
  mkSplitter (sizes s) (clusters s) (clustering_method s) (n_splits s)
    (equal_weight_perc_compounds_as_tasks s) (relative_gap s)
    (time_limit_seconds s) (n_jobs s) (min_distance s)
    (Some l) (smiles_column s) (ignore_columns s)
    (original_tasks s) (tasks_for_balancing s).

Definition with_call_args (smi : string) (ign : option (list string)) (s : Splitter)
  : Splitter :=
  mkSplitter (sizes s) (clusters s) (clustering_method s) (n_splits s)
    (equal_weight_perc_compounds_as_tasks s) (relative_gap s)
    (time_limit_seconds s) (n_jobs s) (min_distance s)
    (df s) smi ign (original_tasks s) (tasks_for_balancing s).

Definition with_original_tasks (t : list string) (s : Splitter) : Splitter :=
  mkSplitter (sizes s) (clusters s) (clustering_method s) (n_splits s)
    (equal_weight_perc_compounds_as_tasks s) (relative_gap s)
    (time_limit_seconds s) (n_jobs s) (min_distance s)
    (df s) (smiles_column s) (ignore_columns s) t (tasks_for_balancing s).

Definition with_tasks_for_balancing (t : list string) (s : Splitter) : Splitter :=
  mkSplitter (sizes s) (clusters s) (clustering_method s) (n_splits s)
    (equal_weight_perc_compounds_as_tasks s) (relative_gap s)
    (time_limit_seconds s) (n_jobs s) (min_distance s)
    (df s) (smiles_column s) (ignore_columns s) (original_tasks s) t.

Definition with_clustering_method (m : option ClusteringMethod) (s : Splitter)
  : Splitter :=
  mkSplitter (sizes s) (clusters s) m (n_splits s)
    (equal_weight_perc_compounds_as_tasks s) (relative_gap s)
    (time_limit_seconds s) (n_jobs s) (min_distance s)
    (df s) (smiles_column s) (ignore_columns s)
    (original_tasks s) (tasks_for_balancing s).

(** ** The program *)

(** [__init__]: exactly one of [clusters] and [clustering_method]. *)
Definition init (sizes : list Q) (clusters : option Clusters)
    (clustering_method : option ClusteringMethod) (n_splits : nat)
    (equal_weight : bool) (relative_gap time_limit_seconds : Q)
    (n_jobs : nat) (min_distance : bool) : exn + Splitter :=
  match clusters, clustering_method with
  | None, None =>
      inl (ValueError "Either clusters or clustering_method must be provided.")
  | Some _, Some _ =>
      inl (ValueError "Only one of clusters or clustering_method must be provided.")
  | _, _ =>
      inr (mkSplitter sizes clusters clustering_method n_splits equal_weight
             relative_gap time_limit_seconds n_jobs min_distance
             None "" None [] [])
  end.

(** [list.remove(x)]: removes the first occurrence, [ValueError] without one. *)
Fixpoint list_remove (x : string) (l : list string) : exn + list string :=
  match l with
  | [] => inl (ValueError "list.remove(x): x not in list")
  | y :: rest =>
      if String.eqb y x then inr rest
      else match list_remove x rest with
           | inl e => inl e
           | inr rest' => inr (y :: rest')
           end
  end.

(** The task columns inferred when [tasks is None] (the first branch of
    [_set_original_tasks]). *)
Definition default_tasks (columns : list string) (smiles_column : string)
    (ignore_columns : option (list string)) : exn + list string :=
  match list_remove smiles_column columns with
  | inl e => inl e
  | inr columns =>
      let columns :=
        match ignore_columns with
        | Some ign => List.filter (fun column => negb (mem_str column ign)) columns
        | None => columns
        end in
      let columns :=
        List.filter (fun column => negb (String.prefix "Split" column)) columns in
      let columns :=
        List.filter (fun column => negb (String.prefix "MinIntersetDistance" column))
                    columns in
      inr columns
  end.

(** The names of the two columns an iteration writes (lines 119-124 of
    [__call__]). *)
Definition split_name (n_splits split : nat) : string :=
  if (n_splits =? 1)%nat then "Split" else "Split_" +:+ pretty split.

Definition mintd_name (n_splits split : nat) : string :=
  if (n_splits =? 1)%nat then "minInterSetTd" else "minInterSetTd_" +:+ pretty split.

(** The test of lines 102-103: [isinstance] of [MaxMinClustering] or of
    [RandomClustering]. *)
Definition is_MaxMin_or_Random (m : option ClusteringMethod) : bool :=
  match m with
  | Some c => match kind c with
              | MaxMinClustering | RandomClustering => true
              | _ => false
              end
  | None => false
  end.

(** Python's [max] of a list of numbers: the first greatest one.
    [None] stands for the [ValueError] on an empty list. *)
Definition py_max (l : list Q) : option Q :=
  match l with
  | [] => None
  | a :: rest => Some (fold_left (fun m b => if Qlt_le_dec m b then b else m) rest a)
  end.

(** [enumerate(l)]. *)
Definition enumerate {A : Type} (l : list A) : list (nat * A) :=
  combine (seq 0 (length l)) l.

(** Python's order on pairs of integers, the one [sorted] uses on the
    zipped lists. *)
Definition tuple_le (p q : nat * nat) : Prop :=
  (fst p < fst q)%nat \/ (fst p = fst q /\ (snd p <= snd q)%nat).

#[global] Instance tuple_le_dec : RelDecision tuple_le :=
  fun p q => or_dec (decide (fst p < fst q)%nat)
                    (and_dec (decide (fst p = fst q)) (decide (snd p <= snd q)%nat)).

(** [l == 1] on a value read back from the solver. *)
Definition is_one (l : option Q) : bool :=
  match l with
  | Some q => Qeq_bool q 1
  | None => false
  end.

(** "Extract the solution" (lines 391-394). *)
Definition extract_mapping (N S : nat) (value : var -> option Q) : list nat :=
  let list_binary_solution := map (fun i => value (x_ i)) (seq 0 (N * S)) in
  let hits := List.filter (fun p => is_one (snd p)) (enumerate list_binary_solution) in
  let list_initial_cluster_indices :=
    map (fun p => nth (fst p) (concat (replicate S (seq 0 N))) O) hits in
  let list_final_ML_subsets :=
    map (fun p => nth (fst p)
                    (map (fun r => (1 + r)%nat)
                         (flat_map (fun s => replicate N s) (seq 0 S))) O) hits in
  map snd (merge_sort tuple_le
             (combine list_initial_cluster_indices list_final_ML_subsets)).

(** The labels of the rows whose split value equals [j]
    ([df[df[split_col] == j].index.tolist()]). *)
Definition ref_idx_of (labels : list nat) (split : Series) (j : cell) : list nat :=
  map fst (List.filter (fun p => cell_eqb (snd p) j) (combine labels split)).

(** [[fp for i, fp in enumerate(fps) if i not in ref_idx]]. *)
Definition other_fps_of {A : Type} (fps : list A) (ref_idx : list nat) : list A :=
  map snd (List.filter (fun p => negb (mem_nat (fst p) ref_idx)) (enumerate fps)).

(** The message of the [ValueError] of line 323. *)
Definition errormessage (S N : nat) : string :=
  "The requested number of new clusters to make (" +:+ pretty S +:+
  ") cannot be larger than the initial number of clusters (" +:+
  pretty N +:+ "). Please review.".

Section Program.

(** Python's [str] of a number. *)
Variable py_str : Q -> string.

(** Calling a clustering strategy on the list of structural strings. *)
Variable run_clustering : ClusteringMethod -> list cell -> Clusters.

(** [prob.solve(PULP_CBC_CMD(gapRel, timeLimit, threads))], then
    [value(v)] for a variable [v]; [None] when the solver set no value. *)
Variable PULP_CBC_CMD : Q -> Q -> nat -> LpProblem -> var -> option Q.

(** RDKit: the fingerprint of a structure, and the similarity of two
    fingerprints. *)
Variable GetFingerprint : FpCalculator -> cell -> list bool.
Variable TanimotoSimilarity : list bool -> list bool -> Q.

Definition str_cell (c : cell) : string :=
  match c with
  | Num q => py_str q
  | Str s => s
  | NaN => "nan"
  end.

(** [_set_original_tasks]. *)
Definition set_original_tasks (tasks : option (list string)) : Py unit :=
  match tasks with
  | None =>
      d ← read_df;
      s ← get_self;
      columns ← lift (default_tasks (columns_tolist d) (smiles_column s)
                                    (ignore_columns s));
      set_self (with_original_tasks columns)
  | Some tasks => set_self (with_original_tasks tasks)
  end.

(** [task + '_' + str(cls)]. *)
Definition class_column (task : string) (cls : cell) : string :=
  task +:+ "_" +:+ str_cell cls.

(** The body of the loop over classes (lines 255-256). *)
Definition add_class_column (task : string) (cls : cell) : Py unit :=
  d ← read_df;
  col ← lift (getitem d task);
  write_df (setitem d (class_column task cls) (one_hot col cls));;
  set_self (fun s => with_tasks_for_balancing
                       (tasks_for_balancing s ++ [class_column task cls]) s).

(** The class columns a task gives rise to in a data frame, and the
    balancing tasks it contributes: its class columns when its values are
    all integral, itself otherwise. *)
Definition derived_columns (d : DataFrame) (task : string) : list string :=
  match lookup_col (columns d) task with
  | Some col =>
      match all_integral (dropna col) with
      | inr true => map (class_column task) (unique (dropna col))
      | _ => []
      end
  | None => []
  end.

Definition balancing_columns (d : DataFrame) (task : string) : list string :=
  match lookup_col (columns d) task with
  | Some col =>
      match all_integral (dropna col) with
      | inr true => map (class_column task) (unique (dropna col))
      | _ => [task]
      end
  | None => []
  end.

(** The body of the loop over tasks (lines 253-258). *)
Definition balance_task (task : string) : Py unit :=
  d ← read_df;
  col ← lift (getitem d task);
  classification ← lift (all_integral (dropna col));
  if (classification : bool)
  then for_ (unique (dropna col)) (add_class_column task)
  else set_self (fun s => with_tasks_for_balancing (tasks_for_balancing s ++ [task]) s).

(** [_set_tasks_for_balancing]. *)
Definition set_tasks_for_balancing : Py unit :=
  set_self (with_tasks_for_balancing []);;
  s ← get_self;
  for_ (original_tasks s) balance_task.

(** The count written at [task_vs_clusters[i+1, j]]: the rows of the
    cluster that hold a value for the task. *)
Definition count_in_cluster (d : DataFrame) (task : string) (indices : list nat)
  : exn + Q :=
  match List.find (fun i => negb (i <? nrows d)%nat) indices with
  | Some _ => inl IndexError
  | None =>
      match getitem d task with
      | inl e => inl e
      | inr col =>
          inr (of_nat (length (dropna (omap (fun i => col !! i) indices))))
      end
  end.

(** One row of the table: the loop over [clusters.items()] for a task. *)
Fixpoint tabulate_row (d : DataFrame) (task : string) (N : nat)
    (items : Clusters) (row : list Q) : exn + list Q :=
  match items with
  | [] => inr row
  | (j, indices) :: rest =>
      match count_in_cluster d task indices with
      | inl e => inl e
      | inr n =>
          if (j <? N)%nat then tabulate_row d task N rest (<[j := n]> row)
          else inl IndexError
      end
  end.

Fixpoint tabulate_rows (d : DataFrame) (tasks : list string) (clusters : Clusters)
  : exn + list (list Q) :=
  match tasks with
  | [] => inr []
  | task :: rest =>
      match tabulate_row d task (length clusters) clusters
                         (replicate (length clusters) 0) with
      | inl e => inl e
      | inr row =>
          match tabulate_rows d rest clusters with
          | inl e => inl e
          | inr rows => inr (row :: rows)
          end
      end
  end.

(** [_compute_tasks_per_cluster].  The frame [self.df.iloc[indices]] that
    line 208 keeps in the scratch attribute [df_per_cluster] is used on the
    next line and nowhere else; it is the [omap] of [count_in_cluster],
    and the attribute is no field of [Splitter]. *)
Definition compute_tasks_per_cluster (tasks : list string) (clusters : Clusters)
  : Py (list (list Q)) :=
  emit EvTabulate;;
  d ← read_df;
  rows ← lift (tabulate_rows d tasks clusters);
  mret (map (fun cluster => of_nat (length (snd cluster))) clusters :: rows).

(** [_merge_clusters_with_balancing_mapping]. *)
Definition merge_clusters_with_balancing_mapping
    (tasks_vs_clusters_array : list (list Q)) (sizes : list Q)
    (equal_weight : bool) (relative_gap time_limit_seconds : Q)
    (max_N_threads : nat) : Py (list nat) :=
  let S := S_ sizes in
  let N := N_ tasks_vs_clusters_array in
  if (N <? S)%nat
  then raise (ValueError (errormessage S N))
  else
    let p := prob tasks_vs_clusters_array sizes equal_weight in
    emit (EvSolve p);;
    mret (extract_mapping N S
            (PULP_CBC_CMD relative_gap time_limit_seconds max_N_threads p)).

(** The loop over the members of one subset (lines 432-434). *)
Fixpoint distances_of_subset (fps : list (list bool)) (other_fps : list (list bool))
    (ref_idx : list nat) (min_distances : list Q) : exn + list Q :=
  match ref_idx with
  | [] => inr min_distances
  | i :: rest =>
      match fps !! i with
      | None => inl IndexError
      | Some fp =>
          match py_max (map (TanimotoSimilarity fp) other_fps) with
          | None => inl (ValueError "max() arg is an empty sequence")
          | Some m =>
              distances_of_subset fps other_fps rest (<[i := 1 - m]> min_distances)
          end
      end
  end.

(** The loop over the subsets (lines 429-434): [ref_idx] holds the labels
    of the rows of the subset, and the two lines after it use them as
    positions in [fps] and in [min_distances]. *)
Fixpoint distances_of_subsets (fps : list (list bool)) (labels : list nat)
    (split : Series) (subsets : list cell) (min_distances : list Q) : exn + list Q :=
  match subsets with
  | [] => inr min_distances
  | j :: rest =>
      let ref_idx := ref_idx_of labels split j in
      let other_fps := other_fps_of fps ref_idx in
      match distances_of_subset fps other_fps ref_idx min_distances with
      | inl e => inl e
      | inr min_distances => distances_of_subsets fps labels split rest min_distances
      end
  end.

Definition min_interset_distances (fps : list (list bool)) (labels : list nat)
    (split : Series) : exn + list Q :=
  distances_of_subsets fps labels split (unique split) (replicate (length fps) 0).

Definition has_nan (s : Series) : bool :=
  existsb (fun c => match c with NaN => true | _ => false end) s.

(** [_compute_min_interset_Tanimoto_distances].  Of the report printed
    at its end only the exception is kept: [int(subset)] on a missing
    subset value. *)
Definition compute_min_interset_Tanimoto_distances (split_col mTd_col : string)
    (calc : FpCalculator) : Py unit :=
  d ← read_df;
  s ← get_self;
  smiles ← lift (getitem d (smiles_column s));
  emit EvFingerprints;;
  split ← lift (getitem d split_col);
  min_distances ← lift (min_interset_distances (map (GetFingerprint calc) smiles)
                                                (index d) split);
  write_df (setitem d mTd_col (map Num min_distances));;
  if has_nan split
  then raise (ValueError "cannot convert float NaN to integer")
  else mret tt.

(** [_compute_task_balace].  It only prints; kept are the exceptions of
    [max] on an empty task list, of a task that is no column, and of
    [counts.loc] on a missing subset value. *)
Definition compute_task_balace (split_col : string) : Py unit :=
  d ← read_df;
  s ← get_self;
  match tasks_for_balancing s with
  | [] => raise (ValueError "max() arg is an empty sequence")
  | _ =>
      for_ (tasks_for_balancing s) (fun task => lift (getitem d task);; mret tt);;
      split ← lift (getitem d split_col);
      if has_nan split then raise (KeyError "nan") else mret tt
  end.

(** The statement of lines 151-152 for one cluster. *)
Definition write_subset (split_name : string) (mapping : list nat)
    (item : nat * list nat) : Py unit :=
  match mapping !! fst item with
  | None => raise IndexError
  | Some m =>
      d ← read_df;
      d' ← lift (loc_setitem d (snd item) split_name (inject_Z (Z.of_nat m - 1)));
      write_df d'
  end.

Definition default_fp_calculator : FpCalculator := GetMorganGenerator 3 2048.

Definition bump_seed (m : option ClusteringMethod) : option ClusteringMethod :=
  match m with
  | Some c => Some (mkMethod (kind c) (seed c + 1)%Z (fp_calculator c))
  | None => None
  end.

(** "Cluster molecules" (lines 135-138): the precomputed clusters when
    there are some, else the strategy is called. *)
Definition get_clusters (smiles_list : Series) : Py Clusters :=
  s ← get_self;
  match clusters s with
  | Some (c :: cs) => mret (c :: cs)
  | _ =>
      match clustering_method s with
      | Some m => emit (EvCluster m);; mret (run_clustering m smiles_list)
      | None => raise TypeError
      end
  end.

(** The body of the loop of [__call__] (lines 119-170). *)
Definition iteration (smiles_list : Series) (split : nat) : Py unit :=
  s ← get_self;
  clusters ← get_clusters smiles_list;
  tasks_per_cluster ← compute_tasks_per_cluster (tasks_for_balancing s) clusters;
  merged_clusters_mapping ←
    merge_clusters_with_balancing_mapping tasks_per_cluster (sizes s)
      (equal_weight_perc_compounds_as_tasks s) (relative_gap s)
      (time_limit_seconds s) (n_jobs s);
  for_ clusters (write_subset (split_name (n_splits s) split) merged_clusters_mapping);;
  compute_task_balace (split_name (n_splits s) split);;
  (if min_distance s
   then compute_min_interset_Tanimoto_distances
          (split_name (n_splits s) split) (mintd_name (n_splits s) split)
          (match clustering_method s with
           | Some (mkMethod _ _ (Some calc)) => calc
           | _ => default_fp_calculator
           end)
   else mret tt);;
  if (1 <? n_splits s)%nat
  then set_self (fun s => with_clustering_method (bump_seed (clustering_method s)) s)
  else mret tt.

(** [__call__]. *)
Definition call (data : loc) (smiles_column : string)
    (tasks ignore_columns : option (list string)) : Py loc :=
  s ← get_self;
  (if (1 <? n_splits s)%nat
   then match clusters s with
        | Some _ =>
            raise (ValueError "n_splits > 1 does not work with precomputed clusters.")
        | None =>
            if is_MaxMin_or_Random (clustering_method s) then mret tt
            else raise (ValueError "n_splits > 1 does not work with type.")
        end
   else mret tt);;
  l ← copy data;
  set_self (with_df l);;
  set_self (with_call_args smiles_column ignore_columns);;
  set_original_tasks tasks;;
  set_tasks_for_balancing;;
  d ← read_df;
  smiles_list ← lift (getitem d smiles_column);
  for_ (seq 0 (n_splits s)) (iteration smiles_list);;
  s ← get_self;
  d ← read_df;
  d' ← lift (drop d (List.filter (fun col => negb (mem_str col (original_tasks s)))
                                 (tasks_for_balancing s)));
  write_df d';;
  mret l.

End Program.

(** ** The objective as the specification words it *)

Module Spec.

(** The sum of [f i] for [i] from [0] to [n - 1]. *)
Definition sum_upto (n : nat) (f : nat -> Q) : Q := np_sum (map f (seq 0 n)).

(** [weight[s] = (1/fractional_sizes[s]) / sum(1/fractional_sizes)]. *)
Definition subset_weight (fs : list Q) (s : nat) : Q :=
  (1 / at1 fs s) / sum_upto (length fs) (fun s' => 1 / at1 fs s').

(** Flag true: [1/M] for every row.  Flag false: [M-1] for the row-count
    row and [1] for every other row, normalised to sum to [1]. *)
Definition task_weight (equal : bool) (M t : nat) : Q :=
  if equal then 1 / of_nat M
  else (if (t =? 0)%nat then of_nat (M - 1) else 1) /
       sum_upto M (fun t' => if (t' =? 0)%nat then of_nat (M - 1) else 1).

(** The sum over subsets and task rows of
    [subset_weight s * task_weight t * X t s]. *)
Definition objective (fs : list Q) (equal : bool) (M S : nat)
    (X : nat -> nat -> Q) : Q :=
  sum_upto S (fun s =>
    sum_upto M (fun t => subset_weight fs s * task_weight equal M t * X t s)).

(** The absolute deviation of the fraction of task [t] that lands in
    subset [s] from the target fraction of [s]. *)
Definition deviation (A : list (list Q)) (fs : list Q) (N : nat)
    (x : nat -> nat -> Q) (t s : nat) : Q :=
  Qabs (sum_upto N (fun c => at2 A t c * x c s) - at1 fs s).

End Spec.

(** ** Frames *)

(** [keeps m]: [m] leaves [self.df] pointing where it did and writes to
    no data frame but that one. *)
Definition keeps {A : Type} (m : Py A) : Prop :=
  forall w w' r, m w = (w', r) ->
    df (self w') = df (self w) /\
    forall l, df (self w) <> Some l -> heap w' !! l = heap w !! l.

(** [quiet m]: [m] leaves the splitter and the log as they are. *)
Definition quiet {A : Type} (m : Py A) : Prop :=
  forall w w' r, m w = (w', r) -> self w' = self w /\ trace w' = trace w.

(** The events of one iteration of [__call__] that returns: the strategy
    is called unless there are precomputed clusters, the clusters are
    tabulated, the model of the table is solved, and the fingerprints are
    computed when the distances are asked for. *)
Definition iteration_events (s : Splitter) (table : list (list Q)) : list event :=
  match clusters s with
  | Some (_ :: _) => []
  | _ => match clustering_method s with
         | Some m => [EvCluster m]
         | None => []
         end
  end
  ++ [EvTabulate;
      EvSolve (prob table (sizes s) (equal_weight_perc_compounds_as_tasks s))]
  ++ (if min_distance s then [EvFingerprints] else []).

(** What an iteration that returns does to the splitter (lines 169-170). *)
Definition advance_seed (s : Splitter) : Splitter :=
  if (1 <? n_splits s)%nat
  then with_clustering_method (bump_seed (clustering_method s)) s
  else s.

(** Two states of the splitter with the same constructor arguments. *)
Definition same_config (s s' : Splitter) : Prop :=
  sizes s' = sizes s /\ clusters s' = clusters s /\
  clustering_method s' = clustering_method s /\ n_splits s' = n_splits s /\
  equal_weight_perc_compounds_as_tasks s' = equal_weight_perc_compounds_as_tasks s /\
  relative_gap s' = relative_gap s /\
  time_limit_seconds s' = time_limit_seconds s /\
  n_jobs s' = n_jobs s /\ min_distance s' = min_distance s.

(** [settles m]: [m] logs nothing and leaves the constructor arguments of
    the splitter as they are. *)
Definition settles {A : Type} (m : Py A) : Prop :=
  forall w w' r, m w = (w', r) ->
    trace w' = trace w /\ same_config (self w) (self w').

(** The strategies called and the number of solves in a log. *)
Definition strategies_called (t : list event) : list ClusteringMethod :=
  flat_map (fun e => match e with EvCluster m => [m] | _ => [] end) t.

Definition solves (t : list event) : nat :=
  length (List.filter (fun e => match e with EvSolve _ => true | _ => false end) t).

(** The events of the successive iterations of a call that returns, for
    the tables of these iterations. *)
Fixpoint call_events (s : Splitter) (tables : list (list (list Q))) : list event :=
  match tables with
  | [] => []
  | table :: rest => iteration_events s table ++ call_events (advance_seed s) rest
  end.

(** [preserves f m]: [m] leaves the part [f] of the splitter as it is. *)
Definition preserves {X A : Type} (f : Splitter -> X) (m : Py A) : Prop :=
  forall w w' r, m w = (w', r) -> f (self w') = f (self w).

(** The number of values a column holds on the rows of a cluster. *)
Definition values_in_cluster (col : Series) (indices : list nat) : Q :=
  of_nat (length (dropna (omap (fun i => col !! i) indices))).

(** The clusters an iteration works with: the precomputed ones when there
    are some, else those of the strategy. *)
Definition clusters_used (run_clustering : ClusteringMethod -> list cell -> Clusters)
    (s : Splitter) (smiles_list : Series) : Clusters :=
  match clusters s with
  | Some (c :: cs) => c :: cs
  | _ => match clustering_method s with
         | Some m => run_clustering m smiles_list
         | None => []
         end
  end.

(** The column names after [df[name] = ...]: a new name goes last. *)
Definition add_name (names : list string) (name : string) : list string :=
  if mem_str name names then names else names ++ [name].

(** The columns the iterations of a call write, in the order they are
    written. *)
Definition written_columns (s : Splitter) : list string :=
  flat_map (fun split => split_name (n_splits s) split ::
                         (if min_distance s then [mintd_name (n_splits s) split] else []))
           (seq 0 (n_splits s)).

(** ** The valuation of an assignment *)

(** The indicators of an assignment [a] of the clusters to the subsets:
    [x[c + m*N]] is [1] when [m] is [a c] and [0] otherwise. *)
Definition assignment_indicator (N : nat) (a : nat -> nat) (i : nat) : Q :=
  if (i / N =? a (i mod N))%nat then 1 else 0.

(** The fraction of row [t] that the indicators [x] put in subset [m], as
    the constraints of the model sum it. *)
Definition achieved (A : list (list Q)) (x : nat -> Q) (m t : nat) : Q :=
  np_sum (map (fun c => at2 (A_ A) t c * x (c + m * N_ A)%nat) (cs_ A t)).

(** The indicators of [a], and for the slack of row [t] the sum over the
    subsets of the deviations of that row. *)
Definition assignment_valuation (A : list (list Q)) (sizes : list Q)
    (a : nat -> nat) (x : var) : Q :=
  match x with
  | x_ i => assignment_indicator (N_ A) a i
  | X_ t =>
      np_sum (map (fun m =>
                     Qabs (achieved A (assignment_indicator (N_ A) a) m t
                           - at1 (fractional_sizes sizes) m))
                  (seq 0 (S_ sizes)))
  end.

(** ** A small run *)

Module Example.

(** [str] of an integral float, as in ['1.0']. *)
Definition py_str (q : Q) : string := pretty (Qfloor q) +:+ ".0".

(** A strategy that puts the rows two by two into clusters. *)
Definition run_clustering (m : ClusteringMethod) (smiles : list cell) : Clusters :=
  [(0%nat, [0%nat; 1%nat]); (1%nat, [2%nat; 3%nat])].

(** A valuation that puts cluster [0] in the first subset and cluster [1]
    in the second one, with slacks large enough. *)
Definition v (x : var) : Q :=
  match x with
  | x_ 0 | x_ 3 => 1
  | x_ _ => 0
  | X_ _ => 1
  end.

Definition PULP_CBC_CMD (gapRel timeLimit : Q) (threads : nat) (p : LpProblem)
    (x : var) : option Q := Some (v x).

Definition GetFingerprint (calc : FpCalculator) (smi : cell) : list bool :=
  match smi with
  | Str s => map (fun n => (n <? String.length s)%nat) (seq 0 8)
  | _ => []
  end.

(** The Tanimoto similarity of two bit vectors. *)
Definition TanimotoSimilarity (a b : list bool) : Q :=
  let both := length (List.filter (fun p => fst p && snd p) (combine a b)) in
  let any := length (List.filter (fun p => fst p || snd p) (combine a b)) in
  of_nat both / of_nat any.

Definition data : DataFrame :=
  mkDF (seq 0 4) [ ("SMILES", [Str "C"; Str "CC"; Str "CCC"; Str "CCCC"]);
           ("y", [Num 1; Num 0; NaN; Num 1]);
           ("z", [Num (1 # 2); Num (3 # 2); Num (5 # 2); NaN]) ].

Definition splitter : Splitter :=
  mkSplitter [1; 1] None (Some (mkMethod RandomClustering 2022 None)) 1 true
    (1 # 10) 60 1 true None "" None [] [].

Definition w0 : World := mkWorld [data] splitter [].

Definition run : World * (exn + loc) :=
  call py_str run_clustering PULP_CBC_CMD GetFingerprint TanimotoSimilarity
       0%nat "SMILES" None None w0.

(** The same splitter asked for three splits, and its run. *)
Definition splitter3 : Splitter :=
  mkSplitter [1; 1] None (Some (mkMethod RandomClustering 2022 None)) 3 true
    (1 # 10) 60 1 true None "" None [] [].

Definition run3 : World * (exn + loc) :=
  call py_str run_clustering PULP_CBC_CMD GetFingerprint TanimotoSimilarity
       0%nat "SMILES" None None (mkWorld [data] splitter3 []).

(** A frame whose only task holds no value, and a run over it. *)
Definition data_without_values : DataFrame :=
  mkDF (seq 0 4) [ ("SMILES", [Str "C"; Str "CC"; Str "CCC"; Str "CCCC"]);
           ("y", [NaN; NaN; NaN; NaN]) ].

Definition run_without_values : World * (exn + loc) :=
  call py_str run_clustering PULP_CBC_CMD GetFingerprint TanimotoSimilarity
       0%nat "SMILES" None None (mkWorld [data_without_values] splitter []).

(** The splitter once it refers to the frame, and clusters listed in the
    reverse order of their keys. *)
Definition w_df : World := mkWorld [data] (with_df 0%nat splitter) [].

Definition reversed_clusters : Clusters :=
  [(1%nat, [0%nat; 1%nat; 2%nat]); (0%nat, [3%nat])].

(** The splitter after the preprocessing of a call with the task ["z"],
    and one iteration from there. *)
Definition w_ready : World :=
  mkWorld [data]
    (with_tasks_for_balancing ["z"]
       (with_original_tasks ["z"] (with_call_args "SMILES" None (with_df 0%nat splitter))))
    [].

Definition iterate : World * (exn + unit) :=
  iteration run_clustering PULP_CBC_CMD GetFingerprint TanimotoSimilarity
            [Str "C"; Str "CC"; Str "CCC"; Str "CCCC"] 0%nat w_ready.

(** A splitter built with an empty dictionary of clusters, and its run. *)
Definition splitter_empty_clusters : Splitter :=
  mkSplitter [1; 1] (Some []) None 1 true (1 # 10) 60 1 true None "" None [] [].

Definition run_empty_clusters : World * (exn + loc) :=
  call py_str run_clustering PULP_CBC_CMD GetFingerprint TanimotoSimilarity
       0%nat "SMILES" None None (mkWorld [data] splitter_empty_clusters []).

(** A second call of the splitter, after [run]. *)
Definition run_again : World * (exn + loc) :=
  call py_str run_clustering PULP_CBC_CMD GetFingerprint TanimotoSimilarity
       0%nat "SMILES" None None (fst run).

(** The fingerprints of the four structures, and a split column in which
    the second row has no subset. *)
Definition fps4 : list (list bool) :=
  map (GetFingerprint default_fp_calculator) [Str "C"; Str "CC"; Str "CCC"; Str "CCCC"].

Definition split_with_gap : Series := [Num 0; NaN; Num 1; Num 1].



End Example.

(** * Properties *)

(** ** Sums *)

Lemma np_sum_app (l1 l2 : list Q) : np_sum (l1 ++ l2) == np_sum l1 + np_sum l2.
Proof.
  induction l1 as [|a l1 IH]; simpl.
  - lra.
  - rewrite IH. lra.
Qed.

Lemma np_sum_map_ext {A : Type} (f g : A -> Q) (l : list A) :
  (forall a, In a l -> f a == g a) ->
  np_sum (map f l) == np_sum (map g l).
Proof.
  induction l as [|a l IH]; intros H; simpl.
  - reflexivity.
  - rewrite (H a) by (left; reflexivity).
    rewrite IH; [reflexivity|]. intros b Hb. apply H. right. exact Hb.
Qed.

Lemma np_sum_flat_map {A B : Type} (f : A -> list B) (g : B -> Q) (l : list A) :
  np_sum (map g (flat_map f l)) == np_sum (map (fun a => np_sum (map g (f a))) l).
Proof.
  induction l as [|a l IH]; simpl.
  - reflexivity.
  - rewrite map_app, np_sum_app, IH. reflexivity.
Qed.

Lemma np_sum_repeat_1 (n : nat) : np_sum (repeat 1 n) == of_nat n.
Proof.
  induction n as [|n IH].
  - reflexivity.
  - cbn [repeat np_sum foldr]. fold (np_sum (repeat 1 n)). rewrite IH.
    unfold of_nat. rewrite Nat2Z.inj_succ, <- Z.add_1_l, inject_Z_plus. reflexivity.
Qed.

Lemma at1_np_div (l : list Q) (k : Q) (i : nat) : at1 (np_div l k) i == at1 l i / k.
Proof.
  unfold at1, np_div.
  destruct (Nat.lt_ge_cases i (length l)) as [Hlt|Hge].
  - rewrite (nth_indep _ 0 (0 / k)) by (rewrite length_map; exact Hlt).
    rewrite (map_nth (fun a => a / k)). reflexivity.
  - rewrite !nth_overflow by (rewrite ?length_map; exact Hge).
    unfold Qdiv. lra.
Qed.

Lemma at1_repeat_1 (n i : nat) : (i < n)%nat -> at1 (repeat 1 n) i = 1.
Proof.
  unfold at1. revert i. induction n as [|n IH]; intros [|i] Hi; simpl; try lia; auto.
  apply IH. lia.
Qed.

Lemma map_as_seq {A B : Type} (f : A -> B) (l : list A) (d : A) :
  map f l = map (fun i => f (nth i l d)) (seq 0 (length l)).
Proof.
  induction l as [|a l IH]; simpl.
  - reflexivity.
  - f_equal. rewrite <- seq_shift, map_map. exact IH.
Qed.

Lemma at1_np_rdiv (l : list Q) (i : nat) : at1 (np_rdiv 1 l) i == 1 / at1 l i.
Proof.
  unfold at1, np_rdiv.
  destruct (Nat.lt_ge_cases i (length l)) as [Hlt|Hge].
  - rewrite (nth_indep _ 0 (1 / 0)) by (rewrite length_map; exact Hlt).
    rewrite (map_nth (fun a => 1 / a)). reflexivity.
  - rewrite !nth_overflow by (rewrite ?length_map; exact Hge).
    reflexivity.
Qed.

(** ** The objective (C2) *)

Section Objective.

Variable A : list (list Q).
Variable sizes : list Q.
Variable equal : bool.

Lemma sk_harmonic_spec (s : nat) :
  at1 (sk_harmonic sizes) s == Spec.subset_weight (fractional_sizes sizes) s.
Proof.
  unfold sk_harmonic, Spec.subset_weight, Spec.sum_upto.
  rewrite at1_np_div, at1_np_rdiv.
  unfold np_rdiv at 1. rewrite (map_as_seq _ (fractional_sizes sizes) 0).
  reflexivity.
Qed.

Lemma obj_weights_raw_spec :
  (1 < M_ A)%nat ->
  obj_weights_raw A false =
  map (fun t => if (t =? 0)%nat then of_nat (M_ A - 1) else 1) (seq 0 (M_ A)).
Proof.
  intros HM. unfold obj_weights_raw.
  replace (1 <? M_ A)%nat with true by (symmetry; apply Nat.ltb_lt; exact HM).
  cbn [andb negb].
  destruct (M_ A) as [|n]; [lia|].
  cbn [seq map Nat.eqb]. f_equal.
  replace (S n - 1)%nat with n by lia.
  assert (Hgen : forall (q : Q) (k : nat), (0 < k)%nat ->
            repeat 1 n = map (fun t => if (t =? 0)%nat then q else 1) (seq k n)).
  { clear. induction n as [|n IH]; intros q k Hk; cbn [repeat seq map].
    - reflexivity.
    - destruct k as [|k]; [lia|]. cbn [Nat.eqb]. f_equal. apply IH. lia. }
  apply Hgen. lia.
Qed.

Lemma obj_weights_spec (t : nat) :
  (equal = false -> (1 < M_ A)%nat) -> (t < M_ A)%nat ->
  at1 (obj_weights A equal) t == Spec.task_weight equal (M_ A) t.
Proof.
  intros HM Ht. unfold obj_weights, Spec.task_weight. rewrite at1_np_div.
  destruct equal eqn:E.
  - unfold obj_weights_raw. cbn [negb]. rewrite andb_false_r.
    rewrite np_sum_repeat_1, at1_repeat_1 by exact Ht. reflexivity.
  - rewrite obj_weights_raw_spec by auto.
    unfold Spec.sum_upto, at1.
    rewrite (nth_indep _ 0 ((fun t => if (t =? 0)%nat then of_nat (M_ A - 1) else 1) O))
      by (rewrite length_map, length_seq; exact Ht).
    rewrite (map_nth (fun t => if (t =? 0)%nat then of_nat (M_ A - 1) else 1)).
    rewrite seq_nth by exact Ht. reflexivity.
Qed.

Lemma np_sum_obj_weights :
  (0 < M_ A)%nat -> (equal = false -> (1 < M_ A)%nat) ->
  np_sum (obj_weights A equal) == 1.
Proof.
  intros H0 HM. unfold obj_weights.
  assert (Hdiv : forall l k, np_sum (np_div l k) == np_sum l / k).
  { intros l k. induction l as [|a l IH]; simpl.
    - unfold Qdiv. lra.
    - unfold np_div in IH. rewrite IH. unfold Qdiv. lra. }
  rewrite Hdiv.
  assert (Hpos : 0 < np_sum (obj_weights_raw A equal)).
  { destruct equal eqn:E.
    - unfold obj_weights_raw. cbn [negb]. rewrite andb_false_r, np_sum_repeat_1.
      unfold of_nat. change 0 with (inject_Z 0). rewrite <- Zlt_Qlt. lia.
    - specialize (HM eq_refl). unfold obj_weights_raw.
      replace (1 <? M_ A)%nat with true by (symmetry; apply Nat.ltb_lt; exact HM).
      cbn [andb negb np_sum foldr]. fold (np_sum (repeat 1 (M_ A - 1))).
      rewrite np_sum_repeat_1.
      assert (0 < of_nat (M_ A - 1)).
      { unfold of_nat. change 0 with (inject_Z 0). rewrite <- Zlt_Qlt. lia. }
      lra. }
  field. lra.
Qed.

(** C2.  The objective of the model, under any valuation of the slack
    variables, is the sum over subsets [s] and task rows [t] of
    [subset_weight s * task_weight t * X[t,s]], where [X[t,s]] is the
    variable [X_(s*M+t)], the subset weight is
    [(1/fractional_sizes[s]) / sum(1/fractional_sizes)], and the task
    weight is [1/M] when the flag is true and, when it is false and there
    is a task row besides the row-count row, [M-1] for the row-count row
    and [1] for the others, normalised; the task weights sum to [1]. *)
Theorem objective_is_weighted_deviation_sum (v : var -> Q) :
  (0 < M_ A)%nat ->
  (equal = false -> (1 < M_ A)%nat) ->
  eval v (objective (prob A sizes equal)) ==
    Spec.objective (fractional_sizes sizes) equal (M_ A) (S_ sizes)
      (fun t s => v (X_ (s * M_ A + t)))
  /\ np_sum (obj_weights A equal) == 1.
Proof.
  intros H0 HM. split; [|apply np_sum_obj_weights; assumption].
  cbn [prob objective]. unfold eval, objective_expr, Spec.objective, Spec.sum_upto.
  rewrite np_sum_flat_map.
  apply np_sum_map_ext. intros s _.
  rewrite map_map. apply np_sum_map_ext. intros t Ht.
  apply in_seq in Ht. cbn [fst snd].
  rewrite sk_harmonic_spec, obj_weights_spec by (auto; lia).
  reflexivity.
Qed.

End Objective.

(** ** The slack variables of the absolute-value constraints (C1) *)

Lemma integral_unit_interval (q : Q) :
  integral q -> 0 <= q -> q <= 1 -> q == 0 \/ q == 1.
Proof.
  intros [z Hz] H0 H1. rewrite Hz in H0, H1.
  change 0 with (inject_Z 0) in H0. change 1 with (inject_Z 1) in H1.
  rewrite <- Zle_Qle in H0, H1.
  assert (z = 0 \/ z = 1)%Z as [->| ->] by lia; [left|right]; exact Hz.
Qed.

(** Every constraint of the absolute-value part names the slack [X_t],
    whatever the subset [m] it is added for. *)
Lemma abs_constraints_slack (A : list (list Q)) (sizes : list Q) (m t : nat) :
  Forall (fun c => exists k, last (lhs c) = Some (X_ t, k))
         (abs_constraints_at A sizes m t).
Proof.
  unfold abs_constraints_at.
  repeat constructor; cbn [lhs]; rewrite last_snoc; eauto.
Qed.

Ltac forall_inv H :=
  repeat match type of H with
         | Forall _ (_ :: _) =>
             let H1 := fresh "C" in
             apply Forall_cons_iff in H; destruct H as [H1 H]
         end.

(** C1, at the table [[1, 1]] (one row, two clusters) with sizes
    [3, 1].  The model has an optimum, and at every optimum the slack
    [X[t=0, s=1]], which the objective names [X_(1*M+0)], is [0], while
    the deviation of row [0] in subset [1] from its target is at least
    [1/4]: the constraints of subset [1] bound [X_0], not [X_1]. *)
Theorem slack_of_second_subset_is_not_the_deviation :
  let A := [[1; 1]] in
  let sizes := [3; 1] in
  let p := prob A sizes true in
  (exists v0, feasible p v0 /\
     forall v, feasible p v -> eval v0 (objective p) <= eval v (objective p)) /\
  forall v, feasible p v ->
    (forall v', feasible p v' -> eval v (objective p) <= eval v' (objective p)) ->
    v (X_ (1 * M_ A + 0)) == 0 /\
    1 # 4 <= Spec.deviation (A_ A) (fractional_sizes sizes) (N_ A)
               (fun c s => v (x_ (c + s * N_ A))) 0 1.
Proof.
  intros A sizes p.
  set (v0 := fun x => match x with
                      | x_ 0 => 1 | x_ 3 => 1 | X_ 0 => 1 # 4 | _ => 0
                      end).
  assert (Hlow : forall v, feasible p v ->
            1 # 16 <= eval v (objective p) /\ 0 <= v (X_ 1) /\
            eval v (objective p) == (1 # 4) * v (X_ 0) + (3 # 4) * v (X_ 1) /\
            1 # 4 <= v (X_ 0) /\
            1 # 4 <= Qabs ((1 # 2) * v (x_ 2) + (1 # 2) * v (x_ 3) - (1 # 4))).
  { intros v [Hb Hc].
    set (vs := variables p) in Hb. vm_compute in vs. subst vs.
    set (cs := constraints p) in Hc. vm_compute in cs. subst cs.
    set (o := objective p). vm_compute in o. subst o.
    forall_inv Hb. forall_inv Hc.
    unfold in_bounds in *. cbn [lowBound upBound cat name] in *.
    unfold holds in *. cbn [rel lhs rhs] in *.
    unfold eval in *. cbn [map np_sum foldr fst snd] in *.
    destruct C as (L0 & U0 & I0), C0 as (L1 & U1 & I1),
             C1 as (L2 & U2 & I2), C2 as (L3 & U3 & I3),
             C3 as (L4 & _ & _), C4 as (L5 & _ & _).
    destruct (integral_unit_interval _ I0 L0 U0) as [E0|E0],
             (integral_unit_interval _ I1 L1 U1) as [E1|E1],
             (integral_unit_interval _ I2 L2 U2) as [E2|E2],
             (integral_unit_interval _ I3 L3 U3) as [E3|E3];
      rewrite ?E0, ?E1, ?E2, ?E3 in *;
      try (exfalso; lra);
      (repeat split; [lra | lra | lra | lra |
         apply Qabs_case; intros; lra]). }
  split.
  - exists v0. split.
    + split.
      * set (vs := variables p). vm_compute in vs. subst vs.
        repeat constructor; cbn; try discriminate; try (exists 0%Z; reflexivity);
          try (exists 1%Z; reflexivity).
      * set (cs := constraints p). vm_compute in cs. subst cs.
        repeat constructor; cbn; discriminate.
    + intros v Hv. destruct (Hlow v Hv) as (H & _).
      assert (E : eval v0 (objective p) == 1 # 16) by (vm_compute; reflexivity).
      rewrite E. exact H.
  - intros v Hv Hopt.
    destruct (Hlow v Hv) as (H16 & HX1 & Hobj & HX0 & Hdev).
    split.
    + set (v1 := fun x => match x with X_ 1 => 0 | _ => v x end).
      assert (Hv1 : feasible p v1).
      { destruct Hv as [Hb Hc]. split.
        - set (vs := variables p) in *. vm_compute in vs. subst vs.
          forall_inv Hb. repeat constructor; cbn; first [assumption | discriminate | idtac];
            unfold in_bounds in *; cbn [lowBound upBound cat name] in *; tauto.
        - set (cs := constraints p) in *. vm_compute in cs. subst cs.
          forall_inv Hc. repeat constructor; assumption. }
      specialize (Hopt v1 Hv1).
      destruct (Hlow v1 Hv1) as (_ & _ & Hobj1 & _).
      rewrite Hobj, Hobj1 in Hopt. cbn in Hopt.
      change (1 * M_ A + 0)%nat with 1%nat. lra.
    + unfold Spec.deviation, Spec.sum_upto.
      change (N_ A) with 2%nat. cbn [seq map np_sum foldr Nat.add Nat.mul].
      assert (E1 : at2 (A_ A) 0 0 == 1 # 2) by (vm_compute; reflexivity).
      assert (E2 : at2 (A_ A) 0 1 == 1 # 2) by (vm_compute; reflexivity).
      assert (E3 : at1 (fractional_sizes sizes) 1 == 1 # 4) by (vm_compute; reflexivity).
      rewrite E1, E2, E3.
      assert (E : (1 # 2) * v (x_ 2) + ((1 # 2) * v (x_ 3) + 0) - (1 # 4) ==
                  (1 # 2) * v (x_ 2) + (1 # 2) * v (x_ 3) - (1 # 4)) by lra.
      rewrite E. exact Hdev.
Qed.

(** ** Decoding the solution (C4) *)

#[local] Instance tuple_le_trans : Transitive tuple_le.
Proof. intros [a b] [c d] [e f]; unfold tuple_le; cbn; lia. Qed.

#[local] Instance tuple_le_antisym : AntiSymm (=) tuple_le.
Proof.
  intros [a b] [c d]; unfold tuple_le; cbn; intros H1 H2.
  f_equal; lia.
Qed.

#[local] Instance tuple_le_total : Total tuple_le.
Proof. intros [a b] [c d]; unfold tuple_le; cbn; lia. Qed.

Lemma nth_tiled_range (N S i : nat) :
  (i < N * S)%nat -> nth i (concat (replicate S (seq 0 N))) O = (i mod N)%nat.
Proof.
  revert i. induction S as [|S IH]; intros i Hi; [lia|].
  cbn [replicate concat].
  destruct (Nat.lt_ge_cases i N) as [Hlt|Hge].
  - rewrite app_nth1 by (rewrite length_seq; exact Hlt).
    rewrite seq_nth by exact Hlt. rewrite Nat.mod_small by exact Hlt. reflexivity.
  - rewrite app_nth2 by (rewrite length_seq; exact Hge).
    rewrite length_seq, IH by nia.
    replace i with ((i - N) + 1 * N)%nat at 2 by lia.
    rewrite Nat.Div0.mod_add. reflexivity.
Qed.

Lemma nth_repeated_range (N S k i : nat) :
  (i < N * S)%nat ->
  nth i (flat_map (fun s => replicate N s) (seq k S)) O = (k + i / N)%nat.
Proof.
  revert k i. induction S as [|S IH]; intros k i Hi; [lia|].
  cbn [seq flat_map].
  destruct (Nat.lt_ge_cases i N) as [Hlt|Hge].
  - rewrite app_nth1 by (rewrite length_replicate; exact Hlt).
    rewrite Nat.div_small by exact Hlt.
    rewrite Nat.add_0_r. clear -Hlt. revert i Hlt.
    induction N as [|N IHN]; intros [|i] Hi; cbn; try lia; auto.
    apply IHN. lia.
  - rewrite app_nth2 by (rewrite length_replicate; exact Hge).
    rewrite length_replicate, IH by nia.
    replace i with ((i - N) + 1 * N)%nat at 2 by lia.
    rewrite Nat.div_add by lia. lia.
Qed.

Lemma length_repeated_range (N S k : nat) :
  length (flat_map (fun s => replicate N s) (seq k S)) = (N * S)%nat.
Proof.
  revert k. induction S as [|S IH]; intros k; cbn [seq flat_map].
  - cbn. lia.
  - rewrite length_app, length_replicate, IH. lia.
Qed.

Lemma enumerate_map_filter {A B : Type} (f : nat -> A) (g : nat -> B)
    (P : A -> bool) (n : nat) :
  map (fun p : nat * A => g (fst p))
      (List.filter (fun p => P (snd p)) (enumerate (map f (seq 0 n)))) =
  map g (List.filter (fun i => P (f i)) (seq 0 n)).
Proof.
  unfold enumerate. rewrite length_map, length_seq.
  generalize 0%nat as k. induction n as [|n IH]; intros k; cbn [seq map combine List.filter].
  - reflexivity.
  - cbn [snd]. destruct (P (f k)); cbn [map fst]; rewrite IH; reflexivity.
Qed.

Section Decode.

Variables N S : nat.
Variable value : var -> option Q.

(** The subset [a c] is the one whose indicator is [1] for cluster [c]. *)
Variable a : nat -> nat.
Hypothesis a_lt : forall c, (c < N)%nat -> (a c < S)%nat.
Hypothesis a_one : forall c m, (c < N)%nat -> (m < S)%nat ->
  is_one (value (x_ (c + m * N))) = true <-> m = a c.




End Decode.





(** ** Computations on the store *)

Lemma bind_inr {A B : Type} (m : Py A) (f : A -> Py B) (w w' : World) (b : B) :
  (m ≫= f) w = (w', inr b) ->
  exists a w1, m w = (w1, inr a) /\ f a w1 = (w', inr b).
Proof.
  unfold mbind, Py_bind. destruct (m w) as [w1 [e|a]]; intros H.
  - discriminate.
  - eauto.
Qed.

Lemma bind_inv {A B : Type} (m : Py A) (f : A -> Py B) (w w' : World) (r : exn + B) :
  (m ≫= f) w = (w', r) ->
  (exists e, m w = (w', inl e) /\ r = inl e) \/
  (exists a w1, m w = (w1, inr a) /\ f a w1 = (w', r)).
Proof.
  unfold mbind, Py_bind. destruct (m w) as [w1 [e|a]]; intros H.
  - left. inversion H; subst. eauto.
  - right. eauto.
Qed.

Lemma lift_inr {A : Type} (r : exn + A) (w w' : World) (a : A) :
  lift r w = (w', inr a) -> w' = w /\ r = inr a.
Proof. unfold lift. intros H. inversion H; subst. auto. Qed.

Lemma read_df_inr (w w' : World) (d : DataFrame) :
  read_df w = (w', inr d) ->
  w' = w /\ exists l, df (self w) = Some l /\ heap w !! l = Some d.
Proof.
  unfold read_df. destruct (df (self w)) as [l|]; [|discriminate].
  destruct (heap w !! l) as [d0|] eqn:E; [|discriminate].
  intros H. inversion H; subst. eauto.
Qed.

Lemma write_df_inr (d : DataFrame) (w w' : World) (u : unit) :
  write_df d w = (w', inr u) ->
  exists l, df (self w) = Some l /\
            w' = mkWorld (<[l := d]> (heap w)) (self w) (trace w).
Proof.
  unfold write_df. destruct (df (self w)) as [l|]; [|discriminate].
  intros H. inversion H; subst. eauto.
Qed.

(** ** Columns *)

Lemma lookup_assign_col (cols : list (string * Series)) (name : string) (s : Series) :
  lookup_col (assign_col cols name s) name = Some s.
Proof.
  induction cols as [|[n old] cols IH]; cbn.
  - rewrite String.eqb_refl. reflexivity.
  - destruct (String.eqb n name) eqn:E; cbn; rewrite E; auto.
Qed.

Lemma lookup_assign_col_ne (cols : list (string * Series)) (name other : string)
    (s : Series) :
  other <> name ->
  lookup_col (assign_col cols name s) other = lookup_col cols other.
Proof.
  intros Hne. induction cols as [|[n old] cols IH]; cbn.
  - destruct (String.eqb_spec name other); [congruence|reflexivity].
  - destruct (String.eqb_spec n name) as [->|Hn]; cbn.
    + destruct (String.eqb_spec name other); [congruence|reflexivity].
    + rewrite IH. reflexivity.
Qed.

(** ** Writing the split column (C4) *)

Lemma mem_nat_In (i : nat) (l : list nat) : mem_nat i l = true <-> In i l.
Proof.
  unfold mem_nat. rewrite existsb_exists. split.
  - intros (k & Hk & E). apply Nat.eqb_eq in E. subst. exact Hk.
  - intros H. exists i. split; [exact H|apply Nat.eqb_refl].
Qed.

Lemma bind_Some_fmap {A B : Type} (f : A -> B) (o : option A) :
  (o ≫= fun y => Some (f y)) = f <$> o.
Proof. destruct o; reflexivity. Qed.

Lemma write_subset_inr (name : string) (mapping : list nat) (item : nat * list nat)
    (w w' : World) (l : loc) (d : DataFrame) :
  write_subset name mapping item w = (w', inr tt) ->
  df (self w) = Some l -> heap w !! l = Some d ->
  exists m d',
    mapping !! fst item = Some m /\
    df (self w') = Some l /\ heap w' !! l = Some d' /\
    index d' = index d /\
    (forall i, In i (snd item) -> In i (index d)) /\
    column_or_nan d' name =
      zip_with (fun label old =>
                  if mem_nat label (snd item)
                  then Num (inject_Z (Z.of_nat m - 1)) else old)
               (index d) (column_or_nan d name).
Proof.
  unfold write_subset. intros H Hl Hd.
  destruct (mapping !! fst item) as [m|]; [|discriminate].
  apply bind_inr in H as (d0 & w1 & Hr & H).
  apply read_df_inr in Hr as (-> & l0 & Hl0 & Hd0).
  assert (l0 = l) as -> by congruence.
  assert (d0 = d) as -> by congruence.
  apply bind_inr in H as (d1 & w2 & Hs & H).
  apply lift_inr in Hs as (-> & Hs).
  apply write_df_inr in H as (l1 & Hl1 & ->).
  assert (l1 = l) as -> by congruence.
  unfold loc_setitem in Hs.
  destruct (List.find _ (snd item)) eqn:Efind; [discriminate|].
  inversion Hs; subst d1; clear Hs.
  exists m. eexists. split; [reflexivity|]. cbn [self heap].
  split; [exact Hl|]. split.
  { apply list_lookup_insert_eq. apply lookup_lt_Some in Hd. exact Hd. }
  split; [reflexivity|]. split.
  { intros i Hi. apply (find_none _ _ Efind) in Hi.
    apply negb_false_iff in Hi. apply mem_nat_In. exact Hi. }
  unfold column_or_nan at 1, setitem. cbn [columns].
  rewrite lookup_assign_col. reflexivity.
Qed.

(** The loop of lines 151-152.  [loc] goes by label: a row is written
    when its label is a member of a cluster. *)
Lemma write_loop_inr (name : string) (mapping : list nat) (clusters : Clusters) :
  forall (w w' : World) (l : loc) (d : DataFrame),
  for_ clusters (write_subset name mapping) w = (w', inr tt) ->
  df (self w) = Some l -> heap w !! l = Some d ->
  exists d',
    df (self w') = Some l /\ heap w' !! l = Some d' /\ index d' = index d /\
    (forall item i, In item clusters -> In i (snd item) -> In i (index d)) /\
    forall r label, index d !! r = Some label ->
      ((forall item, In item clusters -> ~ In label (snd item)) ->
       column_or_nan d' name !! r = column_or_nan d name !! r) /\
      ((exists item, In item clusters /\ In label (snd item)) ->
       forall c, column_or_nan d' name !! r = Some c ->
       exists item m, In item clusters /\ In label (snd item) /\
                      mapping !! fst item = Some m /\
                      c = Num (inject_Z (Z.of_nat m - 1))).
Proof.
  induction clusters as [|item rest IH]; intros w w' l d H Hl Hd.
  - cbn in H. inversion H; subst. exists d. repeat split; auto.
    + intros item i [].
    + intros (item & [] & _).
  - cbn [for_] in H. apply bind_inr in H as ([] & w1 & Hstep & H).
    destruct (write_subset_inr _ _ _ _ _ _ _ Hstep Hl Hd)
      as (m & d1 & Hm & Hl1 & Hd1 & Hn1 & Hmem1 & Hcol1).
    destruct (IH _ _ _ _ H Hl1 Hd1) as (d' & Hl' & Hd' & Hn' & Hmem' & Hrows).
    exists d'. split; [exact Hl'|]. split; [exact Hd'|]. split; [congruence|].
    split.
    { intros it i [<-|Hit] Hi; [exact (Hmem1 i Hi)|].
      rewrite <- Hn1. exact (Hmem' it i Hit Hi). }
    intros r label Hlabel.
    assert (Hlabel1 : index d1 !! r = Some label) by (rewrite Hn1; exact Hlabel).
    destruct (Hrows r label Hlabel1) as [Hout Hin].
    assert (Hstep1 : column_or_nan d1 name !! r
                     = (fun old => if mem_nat label (snd item)
                                   then Num (inject_Z (Z.of_nat m - 1)) else old)
                         <$> column_or_nan d name !! r).
    { rewrite Hcol1. etransitivity; [apply lookup_zip_with|].
      rewrite Hlabel. cbn. apply bind_Some_fmap. }
    split.
    + intros Hnone. rewrite Hout by (intros it Hit; apply Hnone; right; exact Hit).
      rewrite Hstep1.
      destruct (mem_nat label (snd item)) eqn:E.
      * apply mem_nat_In in E. destruct (Hnone item (or_introl eq_refl) E).
      * destruct (column_or_nan d name !! r); reflexivity.
    + intros Hsome c Hc.
      destruct (existsb (fun it : nat * list nat => mem_nat label (snd it)) rest) eqn:E.
      * apply existsb_exists in E as (it & Hit & Hmem). apply mem_nat_In in Hmem.
        destruct (Hin (ex_intro _ it (conj Hit Hmem)) c Hc)
          as (it' & m' & Hit' & Hr'' & Hm' & ->).
        exists it', m'. repeat split; auto. right. exact Hit'.
      * assert (Hnone : forall it, In it rest -> ~ In label (snd it)).
        { intros it Hit Hr.
          assert (existsb (fun it : nat * list nat => mem_nat label (snd it)) rest = true);
            [|congruence].
          apply existsb_exists. exists it. split; [exact Hit|].
          apply mem_nat_In. exact Hr. }
        rewrite (Hout Hnone), Hstep1 in Hc.
        destruct Hsome as (it & [<-|Hit] & Hr); [|exfalso; exact (Hnone it Hit Hr)].
        apply mem_nat_In in Hr. rewrite Hr in Hc.
        destruct (column_or_nan d name !! r); [|discriminate].
        inversion Hc; subst c.
        exists item, m. repeat split; auto; [left; reflexivity|].
        apply mem_nat_In. exact Hr.
Qed.

Section Balancer.

Variable PULP_CBC_CMD : Q -> Q -> nat -> LpProblem -> var -> option Q.

Variable tasks_vs_clusters_array : list (list Q).
Variable sizes : list Q.
Variable equal_weight : bool.
Variables relative_gap time_limit_seconds : Q.
Variable max_N_threads : nat.

Let N := N_ tasks_vs_clusters_array.
Let S := S_ sizes.
Let p := prob tasks_vs_clusters_array sizes equal_weight.


End Balancer.

(** ** What a computation may change in the store *)


Lemma keeps_ret {A : Type} (a : A) : keeps (mret a).
Proof. intros w w' r H. inversion H; subst. auto. Qed.

Lemma keeps_raise {A : Type} (e : exn) : keeps (@raise A e).
Proof. intros w w' r H. inversion H; subst. auto. Qed.

Lemma keeps_lift {A : Type} (x : exn + A) : keeps (lift x).
Proof. intros w w' r H. inversion H; subst. auto. Qed.

Lemma keeps_get_self : keeps get_self.
Proof. intros w w' r H. inversion H; subst. auto. Qed.

Lemma keeps_emit (e : event) : keeps (emit e).
Proof. intros w w' r H. inversion H; subst. auto. Qed.

Lemma keeps_set_self (f : Splitter -> Splitter) :
  (forall s, df (f s) = df s) -> keeps (set_self f).
Proof. intros Hf w w' r H. inversion H; subst. cbn. auto. Qed.

Lemma keeps_read_df : keeps read_df.
Proof.
  intros w w' r H. unfold read_df in H.
  destruct (df (self w)) as [l|] eqn:E; [destruct (heap w !! l)|];
    inversion H; subst; rewrite ?E; auto.
Qed.

Lemma keeps_write_df (d : DataFrame) : keeps (write_df d).
Proof.
  intros w w' r H. unfold write_df in H.
  destruct (df (self w)) as [l|] eqn:E; inversion H; subst; cbn; [|auto].
  split; [exact E|]. intros l' Hl'.
  apply list_lookup_insert_ne. congruence.
Qed.

Lemma keeps_bind {A B : Type} (m : Py A) (f : A -> Py B) :
  keeps m -> (forall a, keeps (f a)) -> keeps (m ≫= f).
Proof.
  intros Hm Hf w w' r H.
  apply bind_inv in H as [(e & H & ->)|(a & w1 & H1 & H2)].
  - exact (Hm _ _ _ H).
  - destruct (Hm _ _ _ H1) as [E1 F1], (Hf a _ _ _ H2) as [E2 F2].
    split; [congruence|].
    intros l Hl. rewrite F2 by congruence. apply F1. exact Hl.
Qed.

Lemma keeps_for {A : Type} (l : list A) (body : A -> Py unit) :
  (forall a, keeps (body a)) -> keeps (for_ l body).
Proof.
  intros Hb. induction l as [|a l IH]; cbn [for_].
  - apply keeps_ret.
  - apply keeps_bind; auto.
Qed.

Create HintDb keeps.

#[local] Hint Resolve keeps_ret keeps_raise keeps_lift keeps_get_self keeps_emit
  keeps_read_df keeps_write_df : keeps.

Ltac keeps_step :=
  match goal with
  | |- keeps (_ ≫= _) => apply keeps_bind; [|intros ?]
  | |- keeps (for_ _ _) => apply keeps_for; intros ?
  | |- keeps (set_self _) => apply keeps_set_self; intros ?; reflexivity
  | |- keeps (match ?x with _ => _ end) => destruct x
  | |- keeps _ => solve [auto with keeps]
  end.

Ltac keeps_tac := repeat keeps_step.

Section Frame.

Variable py_str : Q -> string.
Variable run_clustering : ClusteringMethod -> list cell -> Clusters.
Variable PULP_CBC_CMD : Q -> Q -> nat -> LpProblem -> var -> option Q.
Variable GetFingerprint : FpCalculator -> cell -> list bool.
Variable TanimotoSimilarity : list bool -> list bool -> Q.

Lemma keeps_set_original_tasks tasks : keeps (set_original_tasks tasks).
Proof. unfold set_original_tasks. keeps_tac. Qed.

Lemma keeps_set_tasks_for_balancing : keeps (set_tasks_for_balancing py_str).
Proof.
  unfold set_tasks_for_balancing, balance_task, add_class_column. keeps_tac.
Qed.

Lemma keeps_iteration smiles_list split :
  keeps (iteration run_clustering PULP_CBC_CMD GetFingerprint TanimotoSimilarity
                   smiles_list split).
Proof.
  unfold iteration, get_clusters, compute_tasks_per_cluster,
    merge_clusters_with_balancing_mapping,
    write_subset, compute_task_balace, compute_min_interset_Tanimoto_distances.
  keeps_tac.
Qed.

End Frame.

(** ** The orchestrator (C3, C6, C8) *)

Lemma mem_str_In (x : string) (l : list string) : mem_str x l = true <-> In x l.
Proof.
  unfold mem_str. rewrite existsb_exists. split.
  - intros (y & Hy & E). apply String.eqb_eq in E. subst. exact Hy.
  - intros H. exists x. split; [exact H|apply String.eqb_refl].
Qed.

Lemma drop_removes (d d' : DataFrame) (labels : list string) :
  drop d labels = inr d' ->
  forall col, In col labels -> ~ In col (columns_tolist d').
Proof.
  unfold drop. destruct (List.find _ labels); [discriminate|].
  intros H col Hcol Hin. inversion H; subst d'; clear H.
  unfold columns_tolist in Hin. cbn [columns] in Hin.
  apply in_map_iff in Hin as (c & <- & Hc).
  apply filter_In in Hc as [_ Hc].
  apply mem_str_In in Hcol. rewrite Hcol in Hc. discriminate.
Qed.

Section Orchestrator.

Variable py_str : Q -> string.
Variable run_clustering : ClusteringMethod -> list cell -> Clusters.
Variable PULP_CBC_CMD : Q -> Q -> nat -> LpProblem -> var -> option Q.
Variable GetFingerprint : FpCalculator -> cell -> list bool.
Variable TanimotoSimilarity : list bool -> list bool -> Q.

Abbreviation call_ :=
  (call py_str run_clustering PULP_CBC_CMD GetFingerprint TanimotoSimilarity).
Abbreviation iteration_ :=
  (iteration run_clustering PULP_CBC_CMD GetFingerprint TanimotoSimilarity).

#[local] Hint Resolve keeps_set_original_tasks keeps_set_tasks_for_balancing
  keeps_iteration : keeps.

(** C6.  With [n_splits > 1], precomputed clusters, or a strategy that is
    neither [MaxMinClustering] nor [RandomClustering] (the two that can
    be re-seeded), make [__call__] raise [ValueError] at once: the store
    is as it was, so nothing was copied, clustered or solved. *)
Theorem multi_split_needs_reseedable_strategy (w : World) (data : loc)
    (smiles_column : string) (tasks ignore_columns : option (list string)) :
  (1 < n_splits (self w))%nat ->
  clusters (self w) <> None \/
    is_MaxMin_or_Random (clustering_method (self w)) = false ->
  exists msg,
    call_ data smiles_column tasks ignore_columns w = (w, inl (ValueError msg)).
Proof.
  intros Hn Hbad. unfold call.
  unfold mbind at 1, Py_bind at 1, get_self at 1. cbv beta iota.
  unfold mbind at 1, Py_bind at 1.
  replace (1 <? n_splits (self w))%nat with true
    by (symmetry; apply Nat.ltb_lt; exact Hn).
  destruct (clusters (self w)) as [c|] eqn:Ec.
  - eexists. reflexivity.
  - destruct Hbad as [Hc|Hm]; [congruence|]. rewrite Hm. eexists. reflexivity.
Qed.

(** C8.  Whatever [__call__] does, the data frame passed in is afterwards
    what it was; and when it returns, the data frame it returns is
    another one, in which no balancing column is left that is not an
    original task. *)
Theorem input_kept_and_balancing_columns_dropped (w w' : World) (data : loc)
    (smiles_column : string) (tasks ignore_columns : option (list string))
    (r : exn + loc) :
  call_ data smiles_column tasks ignore_columns w = (w', r) ->
  heap w' !! data = heap w !! data /\
  forall l, r = inr l ->
    l <> data /\
    exists d',
      heap w' !! l = Some d' /\
      forall col, In col (tasks_for_balancing (self w')) ->
                  ~ In col (original_tasks (self w')) ->
                  ~ In col (columns_tolist d').
Proof.
  unfold call. intros H.
  apply bind_inv in H as [(e & H & ->)|(s & w0 & Hs & H)]; [inversion H|].
  inversion Hs; subst w0 s; clear Hs.
  apply bind_inv in H as [(e & H & ->)|([] & w0 & Hc & H)].
  { assert (w' = w) as ->; [|split; [reflexivity|discriminate]].
    destruct (1 <? n_splits (self w))%nat; [|inversion H].
    destruct (clusters (self w)); [inversion H; reflexivity|].
    destruct (is_MaxMin_or_Random _); inversion H; reflexivity. }
  assert (w0 = w) as ->.
  { destruct (1 <? n_splits (self w))%nat; [|inversion Hc; reflexivity].
    destruct (clusters (self w)); [inversion Hc|].
    destruct (is_MaxMin_or_Random _); inversion Hc; reflexivity. }
  clear Hc.
  apply bind_inv in H as [(e & H & ->)|(l & w1 & Hcopy & H)].
  { unfold copy in H. destruct (heap w !! data) eqn:E; inversion H; subst.
    split; [auto|discriminate]. }
  unfold copy in Hcopy. destruct (heap w !! data) as [d|] eqn:Hdata; [|discriminate].
  inversion Hcopy; subst w1 l; clear Hcopy.
  assert (Hlt : (data < length (heap w))%nat) by (apply lookup_lt_Some in Hdata; exact Hdata).
  apply bind_inv in H as [(e & H & ->)|([] & w2 & Hset & H)]; [inversion H|].
  inversion Hset; subst w2; clear Hset. cbn [heap self trace] in H.
  set (l := length (heap w)) in *.
  set (w2 := mkWorld _ _ _) in H.
  assert (Hdf2 : df (self w2) = Some l) by reflexivity.
  assert (Hheap2 : heap w2 !! data = heap w !! data).
  { unfold w2. cbn [heap]. apply lookup_app_l. exact Hlt. }
  split.
  - assert (K : keeps (A:=loc)
              (set_self (with_call_args smiles_column ignore_columns);;
               set_original_tasks tasks;;
               set_tasks_for_balancing py_str;;
               d0 ← read_df;
               smiles_list ← lift (getitem d0 smiles_column);
               for_ (seq 0 (n_splits (self w))) (iteration_ smiles_list);;
               s ← get_self;
               d1 ← read_df;
               d' ← lift (drop d1 (List.filter
                                     (fun col => negb (mem_str col (original_tasks s)))
                                     (tasks_for_balancing s)));
               write_df d';;
               mret l)) by keeps_tac.
    destruct (K _ _ _ H) as [_ F]. rewrite F; [rewrite Hheap2; exact Hdata|].
    rewrite Hdf2. intros E. inversion E. lia.
  - intros l' ->.
    apply bind_inr in H as ([] & w3 & H3 & H).
    apply bind_inr in H as ([] & w4 & H4 & H).
    apply bind_inr in H as ([] & w5 & H5 & H).
    apply bind_inr in H as (d0 & w6 & H6 & H).
    apply bind_inr in H as (smiles_list & w7 & H7 & H).
    apply bind_inr in H as ([] & w8 & H8 & H).
    apply bind_inr in H as (s & w9 & H9 & H).
    apply bind_inr in H as (d1 & w10 & H10 & H).
    apply bind_inr in H as (d' & w11 & H11 & H).
    apply bind_inr in H as ([] & w12 & H12 & H).
    inversion H; subst w12 l'; clear H.
    assert (E3 : df (self w3) = Some l).
    { assert (K : keeps (set_self (with_call_args smiles_column ignore_columns)))
        by keeps_tac.
      destruct (K _ _ _ H3) as [E _]. congruence. }
    assert (E4 : df (self w4) = Some l).
    { destruct (keeps_set_original_tasks tasks _ _ _ H4) as [E _]. congruence. }
    assert (E5 : df (self w5) = Some l).
    { destruct (keeps_set_tasks_for_balancing py_str _ _ _ H5) as [E _]. congruence. }
    apply read_df_inr in H6 as (-> & _).
    apply lift_inr in H7 as (-> & _).
    assert (E8 : df (self w8) = Some l).
    { assert (K : keeps (for_ (seq 0 (n_splits (self w))) (iteration_ smiles_list)))
        by keeps_tac.
      destruct (K _ _ _ H8) as [E _]. congruence. }
    inversion H9; subst w9 s; clear H9.
    apply read_df_inr in H10 as (-> & l1 & Hl1 & Hd1).
    assert (l1 = l) as -> by congruence.
    apply lift_inr in H11 as (-> & Hdrop).
    apply write_df_inr in H12 as (l2 & Hl2 & ->).
    assert (l2 = l) as -> by congruence.
    cbn [heap self].
    split; [lia|].
    exists d'. split.
    + apply list_lookup_insert_eq. apply lookup_lt_Some in Hd1. exact Hd1.
    + intros col Hin Hnot.
      apply (drop_removes _ _ _ Hdrop).
      apply filter_In. split; [exact Hin|].
      destruct (mem_str col (original_tasks (self w8))) eqn:E; [|reflexivity].
      apply mem_str_In in E. contradiction.
Qed.

End Orchestrator.

(** ** Too many subsets (C3) *)

Lemma N_of_table (row0 : list Q) (rows : list (list Q)) :
  N_ (row0 :: rows) = length row0.
Proof. unfold N_, A_, normalise_rows, shape, np_div. cbn. apply length_map. Qed.

Section TooManySubsets.

Variable run_clustering : ClusteringMethod -> list cell -> Clusters.
Variable PULP_CBC_CMD : Q -> Q -> nat -> LpProblem -> var -> option Q.
Variable GetFingerprint : FpCalculator -> cell -> list bool.
Variable TanimotoSimilarity : list bool -> list bool -> Q.

Lemma merge_rejects (arr : list (list Q)) (sizes : list Q) (equal : bool)
    (gap tl : Q) (thr : nat) (w : World) :
  (N_ arr < S_ sizes)%nat ->
  merge_clusters_with_balancing_mapping PULP_CBC_CMD arr sizes equal gap tl thr w
  = (w, inl (ValueError (errormessage (S_ sizes) (N_ arr)))).
Proof.
  intros H. unfold merge_clusters_with_balancing_mapping.
  replace (N_ arr <? S_ sizes)%nat with true by (symmetry; apply Nat.ltb_lt; exact H).
  reflexivity.
Qed.

Lemma get_clusters_store (smiles : Series) (w w1 : World) (r : exn + Clusters) :
  get_clusters run_clustering smiles w = (w1, r) ->
  heap w1 = heap w /\ self w1 = self w.
Proof.
  unfold get_clusters. intros H.
  apply bind_inv in H as [(e & H & ->)|(s & w0 & Hs & H)]; [inversion H|].
  inversion Hs; subst w0 s; clear Hs.
  destruct (clusters (self w)) as [[|c cs]|].
  2:{ inversion H; subst; auto. }
  all: destruct (clustering_method (self w)) as [m|]; [|inversion H; subst; auto].
  all: apply bind_inv in H as [(e & H & ->)|([] & w0 & He & H)]; [inversion H|].
  all: inversion He; subst w0; inversion H; subst; auto.
Qed.

(** C3, as the code has it.  The balancer raises the [ValueError] for
    [S > N] before it builds or solves anything: the store is left as it
    was.  In an iteration of [__call__] whose clusters are fewer than the
    sizes, that check is reached once the clusters have been obtained and
    tabulated: the iteration ends in an exception, the log has grown by
    what obtaining the clusters logged and by the tabulation, nothing was
    solved, and the exception is that [ValueError] unless the tabulation
    itself raised. *)
Theorem too_many_subsets_rejected_before_solving :
  (forall arr sizes equal gap tl thr w,
     (N_ arr < S_ sizes)%nat ->
     merge_clusters_with_balancing_mapping PULP_CBC_CMD arr sizes equal gap tl thr w
     = (w, inl (ValueError (errormessage (S_ sizes) (N_ arr))))) /\
  (forall smiles split w w1 cl w' r,
     get_clusters run_clustering smiles w = (w1, inr cl) ->
     (length cl < length (sizes (self w)))%nat ->
     iteration run_clustering PULP_CBC_CMD GetFingerprint TanimotoSimilarity
               smiles split w = (w', r) ->
     heap w' = heap w /\ self w' = self w /\
     trace w' = trace w1 ++ [EvTabulate] /\
     exists e, r = inl e /\
       forall l d rows,
         df (self w) = Some l -> heap w !! l = Some d ->
         tabulate_rows d (tasks_for_balancing (self w)) cl = inr rows ->
         e = ValueError (errormessage (length (sizes (self w))) (length cl))).
Proof.
  split; [intros; apply merge_rejects; assumption|].
  intros smiles split w w1 cl w' r Hcl Hlen H.
  destruct (get_clusters_store _ _ _ _ Hcl) as [Hh1 Hs1].
  unfold iteration in H.
  apply bind_inv in H as [(e & H & ->)|(s & w0 & Hs & H)]; [inversion H|].
  inversion Hs; subst w0 s; clear Hs.
  apply bind_inv in H as [(e & H & ->)|(cl' & w0 & Hcl' & H)]; [congruence|].
  rewrite Hcl in Hcl'. inversion Hcl'; subst w0 cl'; clear Hcl'.
  apply bind_inv in H as [(e & H & ->)|(arr & w2 & Htab & H)].
  - (* the tabulation raised *)
    unfold compute_tasks_per_cluster in H.
    apply bind_inv in H as [(e' & H & E)|([] & w2 & He & H)]; [inversion H|].
    inversion He; subst w2; clear He.
    apply bind_inv in H as [(e' & H & E)|(d & w2 & Hr & H)].
    + unfold read_df in H. cbn [self heap] in H. rewrite Hs1, Hh1 in H.
      destruct (df (self w)) as [l|] eqn:El;
        [destruct (heap w !! l) as [d|] eqn:Ed|]; inversion H; subst; cbn;
        (repeat split; auto; eexists; split; [reflexivity|]);
        intros l' d' rows Hl' Hd'; congruence.
    + apply read_df_inr in Hr as (-> & l & Hl & Hd). cbn [self heap] in Hl, Hd.
      rewrite Hs1 in Hl. rewrite Hh1 in Hd.
      apply bind_inv in H as [(e' & H & E)|(rows & w2 & Hrows & H)]; [|inversion H].
      inversion H; subst w'. cbn. repeat split; auto.
      eexists. split; [reflexivity|].
      intros l' d' rows Hl' Hd' Hrows.
      assert (l' = l) as -> by congruence. assert (d' = d) as -> by congruence.
      rewrite Hrows in H2. discriminate.
  - (* the tabulation returned a table *)
    unfold compute_tasks_per_cluster in Htab.
    apply bind_inr in Htab as ([] & w3 & He & Htab).
    inversion He; subst w3; clear He.
    apply bind_inr in Htab as (d & w3 & Hr & Htab).
    apply read_df_inr in Hr as (-> & _).
    apply bind_inr in Htab as (rows & w3 & Hrows & Htab).
    apply lift_inr in Hrows as (-> & _).
    inversion Htab; subst w2 arr; clear Htab.
    apply bind_inv in H as [(e & H & ->)|(mapping & w2 & Hm & H)].
    + rewrite merge_rejects in H.
      2:{ rewrite N_of_table, length_map. unfold S_. cbn [self]. rewrite ?Hs1. exact Hlen. }
      inversion H; subst w'. cbn [heap self trace]. repeat split; auto.
      eexists. split; [reflexivity|]. intros _ _ _ _ _ _.
      rewrite N_of_table, length_map. unfold S_. cbn [self]. rewrite ?Hs1. reflexivity.
    + rewrite merge_rejects in Hm; [discriminate|].
      rewrite N_of_table, length_map. unfold S_. cbn [self]. rewrite ?Hs1. exact Hlen.
Qed.

End TooManySubsets.

(** C3, as stated, fails: with three sizes and a strategy that makes two
    clusters, [__call__] ends in the [ValueError], and by then the strategy
    has been called and its clusters tabulated. *)
Lemma too_many_subsets_found_after_clustering :
  let w := mkWorld [Example.data]
             (mkSplitter [1; 1; 1] None
                (Some (mkMethod RandomClustering 2022 None)) 1 true (1 # 10) 60 1 true
                None "" None [] []) [] in
  let out := call Example.py_str Example.run_clustering Example.PULP_CBC_CMD
               Example.GetFingerprint Example.TanimotoSimilarity
               0%nat "SMILES" None None w in
  snd out = inl (ValueError (errormessage 3 2)) /\
  trace (fst out) = [EvCluster (mkMethod RandomClustering 2022 None); EvTabulate] /\
  ~ trace (fst out) = trace w.
Proof.
  vm_compute. split; [reflexivity|]. split; [reflexivity|]. discriminate.
Qed.

(** ** Running the balancer twice (C9) *)

(** C9.  The solver being a function of its options and of the model, the
    mapping the balancer returns depends on its arguments only: it is the
    same from any two stores, and a second run, started in the store the
    first run left, returns what the first returned. *)
Theorem balancer_twice_same_mapping
    (PULP_CBC_CMD : Q -> Q -> nat -> LpProblem -> var -> option Q)
    (arr : list (list Q)) (sizes : list Q) (equal : bool) (gap tl : Q) (thr : nat)
    (w1 w2 : World) :
  let run := merge_clusters_with_balancing_mapping PULP_CBC_CMD arr sizes equal
               gap tl thr in
  snd (run w1) = snd (run w2) /\
  snd (run (fst (run w1))) = snd (run w1).
Proof.
  cbv zeta. unfold merge_clusters_with_balancing_mapping.
  destruct (N_ arr <? S_ sizes)%nat; split; reflexivity.
Qed.

(** ** Default tasks (C10) *)

Lemma list_remove_spec (x : string) (l : list string) :
  List.NoDup l -> In x l ->
  exists l', list_remove x l = inr l' /\
             forall c, In c l' <-> In c l /\ c <> x.
Proof.
  induction l as [|y l IH]; intros Hnd Hin; [destruct Hin|].
  inversion Hnd as [|? ? Hy Hnd']; subst. cbn [list_remove].
  destruct (String.eqb_spec y x) as [->|Hne].
  - exists l. split; [reflexivity|]. intros c. cbn. split.
    + intros Hc. split; [auto|]. intros ->. contradiction.
    + intros [[<-|Hc] Hne]; [congruence|exact Hc].
  - destruct Hin as [->|Hin]; [congruence|].
    destruct (IH Hnd' Hin) as (l' & -> & Hl').
    exists (y :: l'). split; [reflexivity|]. intros c. cbn. rewrite Hl'.
    split.
    + intros [<-|[Hc Hcx]]; auto.
    + intros [[<-|Hc] Hcx]; auto.
Qed.

Lemma written_names_not_reserved (n_splits split : nat) :
  String.prefix "Split" (mintd_name n_splits split) = false /\
  String.prefix "MinIntersetDistance" (mintd_name n_splits split) = false /\
  String.prefix "Split" (split_name n_splits split) = true.
Proof.
  unfold mintd_name, split_name. destruct (n_splits =? 1)%nat; repeat split; reflexivity.
Qed.

(** C10.  With [tasks] omitted, the inferred tasks are the columns other
    than the structural-identifier column, the ignored columns and the
    columns whose name starts with ['Split'] or ['MinIntersetDistance'].
    The names of the distance columns that [__call__] writes start with
    neither: such a column of the data frame, unless it is ignored, is
    among the inferred tasks, and [_set_original_tasks] stores them as the
    original tasks. *)
Theorem default_tasks_keep_written_distance_columns
    (columns : list string) (smiles : string) (ign : option (list string)) :
  List.NoDup columns -> In smiles columns ->
  exists tasks,
    default_tasks columns smiles ign = inr tasks /\
    (forall c, In c tasks <->
       In c columns /\ c <> smiles /\
       (forall l, ign = Some l -> ~ In c l) /\
       String.prefix "Split" c = false /\
       String.prefix "MinIntersetDistance" c = false) /\
    (forall n_splits split,
       String.prefix "Split" (mintd_name n_splits split) = false /\
       String.prefix "MinIntersetDistance" (mintd_name n_splits split) = false /\
       (In (mintd_name n_splits split) columns ->
        mintd_name n_splits split <> smiles ->
        (forall l, ign = Some l -> ~ In (mintd_name n_splits split) l) ->
        In (mintd_name n_splits split) tasks)) /\
    (forall w l d,
       df (self w) = Some l -> heap w !! l = Some d ->
       columns_tolist d = columns -> smiles_column (self w) = smiles ->
       ignore_columns (self w) = ign ->
       set_original_tasks None w
       = (mkWorld (heap w) (with_original_tasks tasks (self w)) (trace w), inr tt)).
Proof.
  intros Hnd Hin.
  destruct (list_remove_spec smiles columns Hnd Hin) as (l' & Hrem & Hl').
  unfold default_tasks. rewrite Hrem. eexists. split; [reflexivity|].
  assert (Hchar : forall c,
    In c (List.filter (fun column => negb (String.prefix "MinIntersetDistance" column))
            (List.filter (fun column => negb (String.prefix "Split" column))
               match ign with
               | Some ign0 => List.filter (fun column => negb (mem_str column ign0)) l'
               | None => l'
               end)) <->
    In c columns /\ c <> smiles /\ (forall l, ign = Some l -> ~ In c l) /\
    String.prefix "Split" c = false /\
    String.prefix "MinIntersetDistance" c = false).
  { intros c. rewrite !filter_In, !negb_true_iff.
    destruct ign as [ign0|].
    - rewrite filter_In, negb_true_iff, Hl'. split.
      + intros [[[[H1 H2] H3] H4] H5]. repeat split; auto.
        intros l [= <-] Hc. apply mem_str_In in Hc. congruence.
      + intros (H1 & H2 & H3 & H4 & H5). repeat split; auto.
        destruct (mem_str c ign0) eqn:E; [|reflexivity].
        apply mem_str_In in E. exfalso. exact (H3 ign0 eq_refl E).
    - rewrite Hl'. split.
      + intros [[[H1 H2] H4] H5]. repeat split; auto. discriminate.
      + intros (H1 & H2 & _ & H4 & H5). repeat split; auto. }
  split; [exact Hchar|]. split.
  - intros n_splits split.
    destruct (written_names_not_reserved n_splits split) as (P1 & P2 & _).
    split; [exact P1|]. split; [exact P2|].
    intros H1 H2 H3. apply Hchar. repeat split; auto.
  - intros w l d Hl Hd Hcols Hsmi Hign.
    unfold set_original_tasks, mbind, Py_bind, read_df, get_self, lift, set_self.
    rewrite Hl, Hd, Hcols, Hsmi, Hign.
    unfold default_tasks. rewrite Hrem. reflexivity.
Qed.

(** ** Minimum inter-subset distances (C7) *)

Lemma enumerate_lookup {A : Type} (l : list A) (i : nat) (x : A) :
  In (i, x) (enumerate l) <-> l !! i = Some x.
Proof.
  unfold enumerate.
  assert (H : forall k, In (i, x) (combine (seq k (length l)) l) <->
                        (k <= i)%nat /\ l !! (i - k)%nat = Some x).
  { induction l as [|a l IH]; intros k; cbn [length seq combine].
    - cbn. split; [tauto|]. intros [_ H]. discriminate.
    - cbn [In]. rewrite IH. split.
      + intros [E|[Hk Hl]].
        * inversion E; subst. rewrite Nat.sub_diag. split; [lia|reflexivity].
        * split; [lia|]. replace (i - k)%nat with (S (i - S k)) by lia. exact Hl.
      + intros [Hk Hl]. destruct (Nat.eq_dec k i) as [->|Hne].
        * left. rewrite Nat.sub_diag in Hl. cbn in Hl. congruence.
        * right. split; [lia|].
          replace (i - k)%nat with (S (i - S k)) in Hl by lia. exact Hl. }
  rewrite H, Nat.sub_0_r. split; [tauto|]. intros; split; [lia|assumption].
Qed.

Lemma in_combine_lookup {A B : Type} (l : list A) (k : list B) (a : A) (b : B) :
  In (a, b) (combine l k) <-> exists r, l !! r = Some a /\ k !! r = Some b.
Proof.
  revert k. induction l as [|x l IH]; intros [|y k]; cbn [combine In].
  - split; [tauto|]. intros (r & H & _). discriminate.
  - split; [tauto|]. intros (r & H & _). discriminate.
  - split; [tauto|]. intros (r & _ & H). discriminate.
  - rewrite IH. split.
    + intros [E|(r & H1 & H2)].
      * inversion E; subst. exists 0%nat. auto.
      * exists (S r). auto.
    + intros ([|r] & H1 & H2); cbn in H1, H2.
      * left. congruence.
      * right. eauto.
Qed.

(** [ref_idx] holds the labels of the rows of the subset. *)
Lemma ref_idx_of_labels (labels : list nat) (split : Series) (j : cell) (i : nat) :
  In i (ref_idx_of labels split j) <->
  exists r c, labels !! r = Some i /\ split !! r = Some c /\ cell_eqb c j = true.
Proof.
  unfold ref_idx_of. rewrite in_map_iff. split.
  - intros ([i' c] & <- & H). apply filter_In in H as [H E].
    apply in_combine_lookup in H as (r & H1 & H2). exists r, c. auto.
  - intros (r & c & H1 & H2 & E). exists (i, c). split; [reflexivity|].
    apply filter_In. split; [|exact E]. apply in_combine_lookup. eauto.
Qed.


Lemma other_fps_of_In {A : Type} (fps : list A) (ref_idx : list nat) (f : A) :
  In f (other_fps_of fps ref_idx) <->
  exists k, fps !! k = Some f /\ ~ In k ref_idx.
Proof.
  unfold other_fps_of. rewrite in_map_iff. split.
  - intros ([k f'] & <- & H). apply filter_In in H as [H E].
    apply enumerate_lookup in H. exists k. split; [exact H|].
    cbn in E. intros Hin. apply mem_nat_In in Hin. rewrite Hin in E. discriminate.
  - intros (k & H & Hout). exists (k, f). split; [reflexivity|].
    apply filter_In. split; [apply enumerate_lookup; exact H|].
    cbn. destruct (mem_nat k ref_idx) eqn:E; [|reflexivity].
    apply mem_nat_In in E. contradiction.
Qed.

Lemma py_max_spec (l : list Q) (m : Q) :
  py_max l = Some m -> In m l /\ forall x, In x l -> x <= m.
Proof.
  destruct l as [|a rest]; [discriminate|]. cbn [py_max]. intros [= <-].
  revert a. induction rest as [|b rest IH]; intros a; cbn [fold_left].
  - split; [left; reflexivity|]. intros x [<-|[]]. apply Qle_refl.
  - destruct (Qlt_le_dec a b) as [Hlt|Hle].
    + destruct (IH b) as [Hin Hmax]. split.
      * right. exact Hin.
      * intros x [<-|Hx]; [|apply Hmax; exact Hx].
        apply Qle_trans with b; [apply Qlt_le_weak; exact Hlt|].
        apply Hmax. left. reflexivity.
    + destruct (IH a) as [Hin Hmax]. split.
      * destruct Hin as [<-|Hin]; [left; reflexivity|right; right; exact Hin].
      * intros x [<-|[<-|Hx]].
        -- apply Hmax. left. reflexivity.
        -- apply Qle_trans with a; [exact Hle|]. apply Hmax. left. reflexivity.
        -- apply Hmax. right. exact Hx.
Qed.





Section Distances.

Variable TanimotoSimilarity : list bool -> list bool -> Q.
Variable fps : list (list bool).


Variable split : Series.
Hypothesis same_length : length fps = length split.



End Distances.

Lemma cell_eqb_refl (c : cell) : c <> NaN -> cell_eqb c c = true.
Proof.
  destruct c as [|q|s]; cbn; intros H.
  - congruence.
  - apply Qeq_bool_iff. reflexivity.
  - apply String.eqb_refl.
Qed.








(** The distances are written as the column [mTd_col] of [self.df]. *)
Lemma distances_written_to_column
    (GetFingerprint : FpCalculator -> cell -> list bool)
    (TanimotoSimilarity : list bool -> list bool -> Q)
    (split_col mTd_col : string) (calc : FpCalculator)
    (w w' : World) (l : loc) (d : DataFrame) :
  compute_min_interset_Tanimoto_distances GetFingerprint TanimotoSimilarity
    split_col mTd_col calc w = (w', inr tt) ->
  df (self w) = Some l -> heap w !! l = Some d ->
  exists smiles split ds,
    lookup_col (columns d) (smiles_column (self w)) = Some smiles /\
    lookup_col (columns d) split_col = Some split /\
    min_interset_distances TanimotoSimilarity (map (GetFingerprint calc) smiles)
      (index d) split
    = inr ds /\
    heap w' !! l = Some (setitem d mTd_col (map Num ds)).
Proof.
  unfold compute_min_interset_Tanimoto_distances. intros H Hl Hd.
  apply bind_inr in H as (d0 & w1 & Hr & H).
  apply read_df_inr in Hr as (-> & l0 & Hl0 & Hd0).
  assert (l0 = l) as -> by congruence. assert (d0 = d) as -> by congruence.
  apply bind_inr in H as (s & w1 & Hs & H). inversion Hs; subst w1 s; clear Hs.
  apply bind_inr in H as (smiles & w1 & Hsm & H). apply lift_inr in Hsm as (-> & Hsm).
  apply bind_inr in H as ([] & w1 & He & H). inversion He; subst w1; clear He.
  apply bind_inr in H as (split & w1 & Hsp & H). apply lift_inr in Hsp as (-> & Hsp).
  apply bind_inr in H as (ds & w1 & Hds & H). apply lift_inr in Hds as (-> & Hds).
  apply bind_inr in H as ([] & w1 & Hw & H).
  apply write_df_inr in Hw as (l1 & Hl1 & ->). cbn [self] in Hl1.
  assert (l1 = l) as -> by congruence.
  destruct (has_nan split); inversion H; subst w'; clear H.
  unfold getitem in Hsm, Hsp.
  destruct (lookup_col (columns d) (smiles_column (self w))) as [sm|]; [|discriminate].
  destruct (lookup_col (columns d) split_col) as [sp|]; [|discriminate].
  inversion Hsm; inversion Hsp; subst.
  exists smiles, split, ds. repeat split; auto.
  cbn [heap]. apply list_lookup_insert_eq.
  apply lookup_lt_Some in Hd. exact Hd.
Qed.


(** ** Balancing columns of a task (C5) *)

Lemma length_string_app (s1 s2 : string) :
  String.length (s1 +:+ s2) = (String.length s1 + String.length s2)%nat.
Proof.
  induction s1 as [|a s1 IH]; simpl.
  - reflexivity.
  - rewrite IH. reflexivity.
Qed.

Lemma one_hot_lookup (col : Series) (cls : cell) (r : nat) (c : cell) :
  col !! r = Some c ->
  one_hot col cls !! r = Some (if cell_eqb c cls then Num 1 else NaN).
Proof.
  unfold one_hot. revert r.
  induction col as [|c0 col IH]; intros [|r] H; try discriminate; cbn in *.
  - inversion H; subst. reflexivity.
  - apply IH. exact H.
Qed.

Section Preprocessing.

Variable py_str : Q -> string.

Lemma class_column_not_task (task : string) (cls : cell) :
  class_column py_str task cls <> task.
Proof.
  unfold class_column. intros E.
  assert (H : String.length (task +:+ "_" +:+ str_cell py_str cls) = String.length task)
    by (rewrite E; reflexivity).
  rewrite !length_string_app in H. simpl in H. lia.
Qed.

(** The loop over the classes of a task. *)
Lemma class_loop_spec (task : string) (col : Series) (classes : list cell) :
  forall (w : World) (l : loc) (d : DataFrame),
  df (self w) = Some l -> heap w !! l = Some d ->
  lookup_col (columns d) task = Some col ->
  List.NoDup (map (class_column py_str task) classes) ->
  exists w' d',
    for_ classes (add_class_column py_str task) w = (w', inr tt) /\
    df (self w') = Some l /\ heap w' !! l = Some d' /\ nrows d' = nrows d /\
    trace w' = trace w /\
    original_tasks (self w') = original_tasks (self w) /\
    tasks_for_balancing (self w') =
      tasks_for_balancing (self w) ++ map (class_column py_str task) classes /\
    (forall cls, In cls classes ->
       lookup_col (columns d') (class_column py_str task cls) = Some (one_hot col cls)) /\
    (forall name, ~ In name (map (class_column py_str task) classes) ->
       lookup_col (columns d') name = lookup_col (columns d) name).
Proof.
  induction classes as [|cls rest IH]; intros w l d Hl Hd Hcol Hnd.
  - exists w, d. cbn. rewrite app_nil_r. repeat split; auto. intros cls [].
  - inversion Hnd as [|? ? Hfresh Hnd']; subst.
    set (d1 := setitem d (class_column py_str task cls) (one_hot col cls)).
    set (w1 := mkWorld (<[l := d1]> (heap w))
                 (with_tasks_for_balancing
                    (tasks_for_balancing (self w) ++ [class_column py_str task cls])
                    (self w))
                 (trace w)).
    assert (Hstep : add_class_column py_str task cls w = (w1, inr tt)).
    { unfold add_class_column, mbind, Py_bind, read_df, lift, getitem, write_df, set_self.
      rewrite Hl, Hd, Hcol. cbn [self heap trace]. rewrite Hl. reflexivity. }
    destruct (IH w1 l d1) as (w' & d' & Hrun & Hl' & Hd' & Hn' & Ht' & Ho' & Htfb & Hcls & Hoth).
    + exact Hl.
    + unfold w1. cbn [heap]. apply list_lookup_insert_eq.
      apply lookup_lt_Some in Hd. exact Hd.
    + unfold d1, setitem. cbn [columns].
      rewrite lookup_assign_col_ne; [exact Hcol|].
      intros E. symmetry in E. exact (class_column_not_task _ _ E).
    + exact Hnd'.
    + exists w', d'. split.
      { cbn [for_]. unfold mbind, Py_bind. rewrite Hstep. exact Hrun. }
      split; [exact Hl'|]. split; [exact Hd'|]. split; [exact Hn'|].
      split; [exact Ht'|]. split; [exact Ho'|]. split.
      { rewrite Htfb. unfold w1. cbn [self tasks_for_balancing with_tasks_for_balancing map].
        rewrite <- app_assoc. reflexivity. }
      split.
      * intros c [<-|Hc]; [|apply Hcls; exact Hc].
        rewrite Hoth by exact Hfresh.
        unfold d1, setitem. cbn [columns]. apply lookup_assign_col.
      * intros name Hname. cbn [map In] in Hname.
        rewrite Hoth by tauto.
        unfold d1, setitem. cbn [columns]. apply lookup_assign_col_ne.
        intros E. apply Hname. left. auto.
Qed.

(** One turn of the loop over the tasks.  A task whose values are all
    integral gets, for each distinct value, a column named after the task
    and the value; the task column and every other column stay as they
    were.  Any other task is itself appended to the balancing tasks and
    the data frame is left alone. *)
Lemma balance_task_spec
    (task : string) (w : World) (l : loc) (d : DataFrame) (col : Series) :
  df (self w) = Some l -> heap w !! l = Some d ->
  lookup_col (columns d) task = Some col ->
  (all_integral (dropna col) = inr true ->
   List.NoDup (map (class_column py_str task) (unique (dropna col))) ->
   exists w' d',
     balance_task py_str task w = (w', inr tt) /\
     heap w' !! l = Some d' /\ nrows d' = nrows d /\
     tasks_for_balancing (self w') =
       tasks_for_balancing (self w)
       ++ map (class_column py_str task) (unique (dropna col)) /\
     (forall cls, In cls (unique (dropna col)) ->
        exists derived,
          lookup_col (columns d') (class_column py_str task cls) = Some derived /\
          length derived = length col /\
          forall r c, col !! r = Some c ->
            derived !! r = Some (if cell_eqb c cls then Num 1 else NaN)) /\
     (forall name, ~ In name (map (class_column py_str task) (unique (dropna col))) ->
        lookup_col (columns d') name = lookup_col (columns d) name)) /\
  (all_integral (dropna col) = inr false ->
   exists w',
     balance_task py_str task w = (w', inr tt) /\
     heap w' = heap w /\
     tasks_for_balancing (self w') = tasks_for_balancing (self w) ++ [task]).
Proof.
  intros Hl Hd Hcol. split.
  - intros Hint Hnd.
    destruct (class_loop_spec task col (unique (dropna col)) w l d Hl Hd Hcol Hnd)
      as (w' & d' & Hrun & _ & Hd' & Hn' & _ & _ & Htfb & Hcls & Hoth).
    exists w', d'. split.
    { unfold balance_task, mbind, Py_bind, read_df, lift, getitem.
      rewrite Hl, Hd, Hcol, Hint. exact Hrun. }
    split; [exact Hd'|]. split; [exact Hn'|]. split; [exact Htfb|].
    split; [|exact Hoth].
    intros cls Hc. exists (one_hot col cls). split; [apply Hcls; exact Hc|].
    split; [apply length_map|].
    intros r c Hr. apply one_hot_lookup. exact Hr.
  - intros Hint. eexists. split.
    { unfold balance_task, mbind, Py_bind, read_df, lift, getitem, set_self.
      rewrite Hl, Hd, Hcol, Hint. reflexivity. }
    split; reflexivity.
Qed.

End Preprocessing.

Lemma flat_map_ext_In {A B : Type} (f g : A -> list B) (l : list A) :
  (forall a, In a l -> f a = g a) -> flat_map f l = flat_map g l.
Proof.
  induction l as [|a l IH]; intros H; cbn; [reflexivity|].
  rewrite (H a) by (left; reflexivity). f_equal.
  apply IH. intros b Hb. apply H. right. exact Hb.
Qed.

Section PreprocessingLoop.

Variable py_str : Q -> string.

Lemma keeps_balance_task (task : string) : keeps (balance_task py_str task).
Proof. unfold balance_task, add_class_column. keeps_tac. Qed.

Lemma derived_columns_ext (d d1 : DataFrame) (task : string) :
  lookup_col (columns d1) task = lookup_col (columns d) task ->
  derived_columns py_str d1 task = derived_columns py_str d task /\
  balancing_columns py_str d1 task = balancing_columns py_str d task.
Proof. unfold derived_columns, balancing_columns. intros ->. auto. Qed.

(** The loop over the tasks, for tasks that are columns of numbers and
    whose class columns are new names. *)
Lemma tasks_loop_spec (ts : list string) :
  forall (w : World) (l : loc) (d : DataFrame),
  df (self w) = Some l -> heap w !! l = Some d ->
  (forall task, In task ts ->
     exists col b, lookup_col (columns d) task = Some col /\
                   all_integral (dropna col) = inr b) ->
  List.NoDup (ts ++ flat_map (derived_columns py_str d) ts) ->
  exists w' d',
    for_ ts (balance_task py_str) w = (w', inr tt) /\
    df (self w') = Some l /\ heap w' !! l = Some d' /\
    tasks_for_balancing (self w') =
      tasks_for_balancing (self w) ++ flat_map (balancing_columns py_str d) ts /\
    (forall name, ~ In name (flat_map (derived_columns py_str d) ts) ->
       lookup_col (columns d') name = lookup_col (columns d) name) /\
    (forall task col cls,
       In task ts -> lookup_col (columns d) task = Some col ->
       all_integral (dropna col) = inr true -> In cls (unique (dropna col)) ->
       lookup_col (columns d') (class_column py_str task cls) = Some (one_hot col cls)).
Proof.
  induction ts as [|t ts IH]; intros w l d Hl Hd Hcols Hnd.
  - exists w, d. cbn. rewrite app_nil_r. repeat split; auto. intros ? ? ? [].
  - cbn [flat_map] in Hnd.
    apply NoDup_ListNoDup in Hnd.
    change (t :: ts) with ([t] ++ ts) in Hnd.
    rewrite <- app_assoc in Hnd.
    apply NoDup_app in Hnd as (_ & Ht & Hnd).
    apply NoDup_app in Hnd as (Hts & Hdisj & Hnd).
    apply NoDup_app in Hnd as (HDt & HDdisj & HD').
    destruct (Hcols t (or_introl eq_refl)) as (col & b & Hcol & Hint).
    assert (Hstep : exists w1 d1,
      balance_task py_str t w = (w1, inr tt) /\ heap w1 !! l = Some d1 /\
      tasks_for_balancing (self w1) =
        tasks_for_balancing (self w) ++ balancing_columns py_str d t /\
      (forall name, ~ In name (derived_columns py_str d t) ->
         lookup_col (columns d1) name = lookup_col (columns d) name) /\
      (forall cls, all_integral (dropna col) = inr true ->
         In cls (unique (dropna col)) ->
         lookup_col (columns d1) (class_column py_str t cls) = Some (one_hot col cls))).
    { assert (HDt' := HDt).
      unfold derived_columns in HDt'. rewrite Hcol, Hint in HDt'.
      unfold derived_columns, balancing_columns. rewrite Hcol, Hint.
      destruct (balance_task_spec py_str t w l d col
                  Hl Hd Hcol) as [Hcls Hreg].
      destruct b.
      - destruct Hcls as (w1 & d1 & Hrun & Hd1 & _ & Htfb & Hone & Hoth);
          [exact Hint|apply NoDup_ListNoDup; exact HDt'|].
        exists w1, d1. split; [exact Hrun|]. split; [exact Hd1|].
        split; [exact Htfb|]. split; [exact Hoth|].
        intros cls _ Hc. destruct (Hone cls Hc) as (derived & Hlook & Hlen & Hrows).
        rewrite Hlook. f_equal.
        apply list_eq. intros r.
        destruct (col !! r) as [c|] eqn:Er.
        + transitivity (Some (if cell_eqb c cls then Num 1 else NaN)).
          * exact (Hrows r c Er).
          * symmetry. apply one_hot_lookup. exact Er.
        + apply lookup_ge_None in Er.
          transitivity (@None cell).
          * apply lookup_ge_None. lia.
          * symmetry. apply lookup_ge_None. unfold one_hot. rewrite length_map. exact Er.
      - destruct Hreg as (w1 & Hrun & Hheap & Htfb); [exact Hint|].
        exists w1, d. rewrite Hheap. split; [exact Hrun|]. split; [exact Hd|].
        split; [exact Htfb|]. split; [reflexivity|]. intros cls Hc. discriminate. }
    destruct Hstep as (w1 & d1 & Hrun1 & Hd1 & Htfb1 & Hoth1 & Hcls1).
    assert (Hl1 : df (self w1) = Some l).
    { destruct (keeps_balance_task t _ _ _ Hrun1) as [E _]. congruence. }
    assert (Hsame : forall task, In task ts ->
              lookup_col (columns d1) task = lookup_col (columns d) task).
    { intros task Htask. apply Hoth1. intros Hin.
      apply (Hdisj task); [apply list_elem_of_In; exact Htask|].
      apply elem_of_app. left. apply list_elem_of_In. exact Hin. }
    assert (Hflat : flat_map (derived_columns py_str d1) ts
                    = flat_map (derived_columns py_str d) ts).
    { apply flat_map_ext_In. intros task Htask.
      apply derived_columns_ext, Hsame, Htask. }
    assert (Hflat' : flat_map (balancing_columns py_str d1) ts
                     = flat_map (balancing_columns py_str d) ts).
    { apply flat_map_ext_In. intros task Htask.
      apply derived_columns_ext, Hsame, Htask. }
    destruct (IH w1 l d1 Hl1 Hd1) as (w' & d' & Hrun & Hl' & Hd' & Htfb & Hoth & Hcls).
    { intros task Htask. rewrite (Hsame task Htask). apply Hcols. right. exact Htask. }
    { rewrite Hflat. apply NoDup_ListNoDup, NoDup_app. split; [exact Hts|].
      split; [|exact HD'].
      intros x Hx Hx'. apply (Hdisj x Hx). apply elem_of_app. right. exact Hx'. }
    exists w', d'. split.
    { cbn [for_]. unfold mbind, Py_bind. rewrite Hrun1. exact Hrun. }
    split; [exact Hl'|]. split; [exact Hd'|]. split.
    { rewrite Htfb, Htfb1, Hflat'. cbn [flat_map]. rewrite app_assoc. reflexivity. }
    split.
    + intros name Hname. cbn [flat_map] in Hname.
      rewrite Hoth by (rewrite Hflat; intros H; apply Hname, in_or_app; right; exact H).
      apply Hoth1. intros H. apply Hname, in_or_app. left. exact H.
    + intros task col' cls [<-|Htask] Hcol' Hint' Hc.
      * assert (col' = col) as -> by congruence.
        rewrite Hoth; [apply Hcls1; assumption|].
        rewrite Hflat. intros Hin.
        apply (HDdisj (class_column py_str t cls)); [|apply list_elem_of_In; exact Hin].
        apply list_elem_of_In. unfold derived_columns. rewrite Hcol, Hint'.
        apply in_map. exact Hc.
      * apply (Hcls task col' cls Htask); [|exact Hint'|exact Hc].
        rewrite (Hsame task Htask). exact Hcol'.
Qed.

(** C5.  Preprocessing, for original tasks that are columns of numbers
    and whose class columns are new names.  A task whose values are all
    integral gets, for each distinct value, a balancing column named
    after the task and the value, holding [1] on the rows where the task
    has that value and no value on every other row, whether the task is
    missing there or has another value.  Any other task is itself a
    balancing task, its column unchanged. *)
Theorem integral_task_expands_to_sparse_class_columns
    (w : World) (l : loc) (d : DataFrame) :
  df (self w) = Some l -> heap w !! l = Some d ->
  (forall task, In task (original_tasks (self w)) ->
     exists col b, lookup_col (columns d) task = Some col /\
                   all_integral (dropna col) = inr b) ->
  List.NoDup (original_tasks (self w)
              ++ flat_map (derived_columns py_str d) (original_tasks (self w))) ->
  exists w' d',
    set_tasks_for_balancing py_str w = (w', inr tt) /\
    heap w' !! l = Some d' /\
    tasks_for_balancing (self w') =
      flat_map (balancing_columns py_str d) (original_tasks (self w)) /\
    forall task col,
      In task (original_tasks (self w)) ->
      lookup_col (columns d) task = Some col ->
      (all_integral (dropna col) = inr true ->
       forall cls, In cls (unique (dropna col)) ->
         In (class_column py_str task cls) (tasks_for_balancing (self w')) /\
         exists derived,
           lookup_col (columns d') (class_column py_str task cls) = Some derived /\
           length derived = length col /\
           forall r c, col !! r = Some c ->
             derived !! r = Some (if cell_eqb c cls then Num 1 else NaN)) /\
      (all_integral (dropna col) = inr false ->
       In task (tasks_for_balancing (self w')) /\
       lookup_col (columns d') task = Some col).
Proof.
  intros Hl Hd Hcols Hnd.
  set (ts := original_tasks (self w)) in *.
  set (w0 := mkWorld (heap w) (with_tasks_for_balancing [] (self w)) (trace w)).
  destruct (tasks_loop_spec ts w0 l d Hl Hd Hcols Hnd)
    as (w' & d' & Hrun & _ & Hd' & Htfb & Hoth & Hcls).
  exists w', d'. split.
  { unfold set_tasks_for_balancing, mbind, Py_bind, set_self, get_self.
    cbn [self original_tasks with_tasks_for_balancing]. exact Hrun. }
  split; [exact Hd'|]. cbn [w0 self tasks_for_balancing with_tasks_for_balancing app] in Htfb.
  split; [exact Htfb|].
  intros task col Htask Hcol. split.
  - intros Hint cls Hc. split.
    + rewrite Htfb. apply in_flat_map. exists task. split; [exact Htask|].
      unfold balancing_columns. rewrite Hcol, Hint. apply in_map. exact Hc.
    + exists (one_hot col cls). split; [exact (Hcls task col cls Htask Hcol Hint Hc)|].
      split; [apply length_map|].
      intros r c Hr. apply one_hot_lookup. exact Hr.
  - intros Hint. split.
    + rewrite Htfb. apply in_flat_map. exists task. split; [exact Htask|].
      unfold balancing_columns. rewrite Hcol, Hint. left. reflexivity.
    + rewrite Hoth; [exact Hcol|].
      intros Hin. apply NoDup_ListNoDup, NoDup_app in Hnd as (_ & Hdisj & _).
      apply (Hdisj task); apply list_elem_of_In; assumption.
Qed.

End PreprocessingLoop.

(** ** The statements at the small run *)

Ltac compute_list l :=
  let x := fresh "x" in set (x := l); vm_compute in x; subst x.

Ltac feasible_by_computation :=
  split;
  [ match goal with |- Forall _ ?l => compute_list l end;
    repeat constructor; cbn; try discriminate;
    first [exists 0%Z; reflexivity | exists 1%Z; reflexivity]
  | match goal with |- Forall _ ?l => compute_list l end;
    repeat constructor; cbn; discriminate ].

Lemma objective_witness :
  eval Example.v (objective (prob [[2; 2]; [1; 1]; [1; 0]] [1; 3] false)) ==
    Spec.objective (fractional_sizes [1; 3]) false 3 2
      (fun t s => Example.v (X_ (s * 3 + t)))
  /\ np_sum (obj_weights [[2; 2]; [1; 1]; [1; 0]] false) == 1.
Proof.
  apply (objective_is_weighted_deviation_sum [[2; 2]; [1; 1]; [1; 0]] [1; 3] false
           Example.v).
  - vm_compute. lia.
  - intros _. vm_compute. lia.
Defined.


Lemma too_many_subsets_witness :
  let w := mkWorld [Example.data]
             (mkSplitter [1; 1; 1] None
                (Some (mkMethod RandomClustering 2022 None)) 1 true (1 # 10) 60 1 true
                (Some 0%nat) "SMILES" None ["z"] ["z"]) [] in
  let out := iteration Example.run_clustering Example.PULP_CBC_CMD
               Example.GetFingerprint Example.TanimotoSimilarity [] 0%nat w in
  merge_clusters_with_balancing_mapping Example.PULP_CBC_CMD
    [[2; 2]; [1; 1]] [1; 1; 1] true (1 # 10) 60 1 Example.w0
  = (Example.w0, inl (ValueError (errormessage 3 2))) /\
  heap (fst out) = heap w /\
  trace (fst out) = [EvCluster (mkMethod RandomClustering 2022 None); EvTabulate] /\
  exists e, snd out = inl e.
Proof.
  intros w out.
  pose proof (too_many_subsets_rejected_before_solving Example.run_clustering
                Example.PULP_CBC_CMD Example.GetFingerprint
                Example.TanimotoSimilarity) as [Hmerge Hiter].
  split.
  - apply Hmerge. vm_compute. lia.
  - destruct (Hiter [] 0%nat w
                (mkWorld (heap w) (self w)
                   [EvCluster (mkMethod RandomClustering 2022 None)])
                (Example.run_clustering (mkMethod RandomClustering 2022 None) [])
                (fst out) (snd out))
      as (Hheap & _ & Htrace & e & He & _).
    + reflexivity.
    + vm_compute. lia.
    + unfold out. apply surjective_pairing.
    + split; [exact Hheap|]. split; [exact Htrace|]. exists e. exact He.
Defined.

Lemma class_columns_witness :
  let w := mkWorld [Example.data]
             (with_original_tasks ["y"; "z"] (with_df 0%nat Example.splitter)) [] in
  exists w' d',
    set_tasks_for_balancing Example.py_str w = (w', inr tt) /\
    heap w' !! 0%nat = Some d' /\
    tasks_for_balancing (self w') = ["y_1.0"; "y_0.0"; "z"] /\
    lookup_col (columns d') "y_1.0" = Some [Num 1; NaN; NaN; Num 1] /\
    lookup_col (columns d') "y_0.0" = Some [NaN; Num 1; NaN; NaN].
Proof.
  intros w.
  destruct (integral_task_expands_to_sparse_class_columns Example.py_str w 0%nat
              Example.data eq_refl eq_refl)
    as (w' & d' & Hrun & Hd' & Htfb & _).
  - intros task [<-|[<-|[]]]; eexists; eexists; split; vm_compute; reflexivity.
  - apply NoDup_ListNoDup. apply (bool_decide_unpack _). vm_compute. exact I.
  - exists w', d'. split; [exact Hrun|].
    vm_compute in Hrun. inversion Hrun; subst w'.
    vm_compute in Hd'. inversion Hd'; subst d'.
    vm_compute. auto.
Defined.

Lemma multi_split_witness :
  let w := mkWorld [Example.data]
             (mkSplitter [1; 1] (Some [(0%nat, [0%nat; 1%nat]); (1%nat, [2%nat; 3%nat])])
                None 2 true (1 # 10) 60 1 true None "" None [] []) [] in
  exists msg,
    call Example.py_str Example.run_clustering Example.PULP_CBC_CMD
         Example.GetFingerprint Example.TanimotoSimilarity
         0%nat "SMILES" None None w
    = (w, inl (ValueError msg)).
Proof.
  intros w.
  apply (multi_split_needs_reseedable_strategy Example.py_str Example.run_clustering
           Example.PULP_CBC_CMD Example.GetFingerprint Example.TanimotoSimilarity w).
  - vm_compute. lia.
  - left. discriminate.
Defined.


Lemma input_kept_witness :
  heap (fst Example.run) !! 0%nat = heap Example.w0 !! 0%nat /\
  forall l, snd Example.run = inr l ->
    l <> 0%nat /\
    exists d',
      heap (fst Example.run) !! l = Some d' /\
      forall col, In col (tasks_for_balancing (self (fst Example.run))) ->
                  ~ In col (original_tasks (self (fst Example.run))) ->
                  ~ In col (columns_tolist d').
Proof.
  apply (input_kept_and_balancing_columns_dropped Example.py_str
           Example.run_clustering Example.PULP_CBC_CMD Example.GetFingerprint
           Example.TanimotoSimilarity Example.w0 (fst Example.run) 0%nat "SMILES"
           None None (snd Example.run)).
  unfold Example.run. apply surjective_pairing.
Defined.

Lemma default_tasks_witness :
  exists tasks,
    default_tasks ["SMILES"; "y"; "Split"; "minInterSetTd"] "SMILES" None = inr tasks /\
    In "minInterSetTd" tasks.
Proof.
  destruct (default_tasks_keep_written_distance_columns
              ["SMILES"; "y"; "Split"; "minInterSetTd"] "SMILES" None)
    as (tasks & Hrun & _ & Hkeep & _).
  - apply NoDup_ListNoDup. apply (bool_decide_unpack _). vm_compute. exact I.
  - left. reflexivity.
  - exists tasks. split; [exact Hrun|].
    destruct (Hkeep 1%nat 0%nat) as (_ & _ & Hin).
    apply Hin.
    + vm_compute. auto.
    + discriminate.
    + discriminate.
Defined.

(** The small run returns: the split column and the distance column are
    there, the class columns are gone, and the input is what it was. *)
Example run_returns :
  snd Example.run = inr 1%nat /\
  (columns_tolist <$> heap (fst Example.run) !! 1%nat)
  = Some ["SMILES"; "y"; "z"; "Split"; "minInterSetTd"] /\
  heap (fst Example.run) !! 0%nat = Some Example.data.
Proof. vm_compute. auto. Qed.

(** * Further properties of the code *)

(** ** Normalisation of the sizes and of the table *)

Lemma np_sum_np_div (l : list Q) (k : Q) : np_sum (np_div l k) == np_sum l / k.
Proof.
  induction l as [|a l IH]; simpl.
  - unfold Qdiv. lra.
  - unfold np_div in IH. rewrite IH. unfold Qdiv. lra.
Qed.

Lemma np_sum_pos (l : list Q) :
  l <> [] -> (forall q, In q l -> 0 < q) -> 0 < np_sum l.
Proof.
  induction l as [|a l IH]; intros Hne Hpos; [congruence|].
  cbn [np_sum foldr]. fold (np_sum l).
  assert (Ha : 0 < a) by (apply Hpos; left; reflexivity).
  destruct l as [|b l].
  - cbn. lra.
  - assert (0 < np_sum (b :: l)); [|lra].
    apply IH; [discriminate|]. intros q Hq. apply Hpos. right. exact Hq.
Qed.

Lemma at1_In (l : list Q) (i : nat) : (i < length l)%nat -> In (at1 l i) l.
Proof. intros H. unfold at1. apply nth_In. exact H. Qed.

(** X1.  The rows of the normalised table: a row whose entries do not sum to
    [0] is turned into a row that sums to [1], of the same length. *)
Theorem normalised_row_sums_to_one (A : list (list Q)) (t : nat) (row : list Q) :
  nth_error A t = Some row -> ~ np_sum row == 0 ->
  exists row',
    nth_error (A_ A) t = Some row' /\
    length row' = length row /\
    np_sum row' == 1 /\
    forall c, at2 (A_ A) t c == at2 A t c / np_sum row.
Proof.
  intros Hrow Hne. exists (np_div row (np_sum row)).
  assert (E : nth_error (A_ A) t = Some (np_div row (np_sum row))).
  { unfold A_, normalise_rows. rewrite nth_error_map, Hrow. reflexivity. }
  split; [exact E|]. split; [apply length_map|]. split.
  - rewrite np_sum_np_div. field. exact Hne.
  - intros c. unfold at2.
    rewrite (nth_error_nth _ _ _ E), (nth_error_nth _ _ _ Hrow).
    apply at1_np_div.
Qed.

Section PositiveSizes.

Variable sizes : list Q.
Hypothesis sizes_nonempty : sizes <> [].
Hypothesis sizes_positive : forall s, In s sizes -> 0 < s.

Lemma total_positive : 0 < np_sum sizes.
Proof. apply np_sum_pos; assumption. Qed.

Lemma fractional_sizes_positive (i : nat) :
  (i < S_ sizes)%nat -> 0 < at1 (fractional_sizes sizes) i.
Proof.
  intros Hi. unfold fractional_sizes. rewrite at1_np_div.
  apply Qlt_shift_div_l; [apply total_positive|].
  rewrite Qmult_0_l. apply sizes_positive, at1_In. exact Hi.
Qed.

Lemma inverse_fractions_positive :
  0 < np_sum (np_rdiv 1 (fractional_sizes sizes)).
Proof.
  apply np_sum_pos.
  - unfold np_rdiv, fractional_sizes, np_div. destruct sizes; [congruence|discriminate].
  - intros q Hq. unfold np_rdiv in Hq. apply in_map_iff in Hq as (f & <- & Hf).
    unfold fractional_sizes, np_div in Hf. apply in_map_iff in Hf as (s & <- & Hs).
    apply Qlt_shift_div_l.
    + apply Qlt_shift_div_l; [apply total_positive|].
      rewrite Qmult_0_l. apply sizes_positive. exact Hs.
    + lra.
Qed.

Lemma sk_harmonic_positive (i : nat) :
  (i < S_ sizes)%nat -> 0 < at1 (sk_harmonic sizes) i.
Proof.
  intros Hi. pose proof inverse_fractions_positive as HI.
  unfold sk_harmonic. rewrite at1_np_div, at1_np_rdiv.
  apply Qlt_shift_div_l; [exact HI|]. rewrite Qmult_0_l.
  apply Qlt_shift_div_l; [apply fractional_sizes_positive; exact Hi|lra].
Qed.

(** X2.  For positive sizes, the target fractions and the subset weights are
    positive and each of the two lists sums to [1]. *)
Theorem fractions_and_subset_weights_normalised :
  np_sum (fractional_sizes sizes) == 1 /\
  np_sum (sk_harmonic sizes) == 1 /\
  forall i, (i < S_ sizes)%nat ->
    0 < at1 (fractional_sizes sizes) i /\ 0 < at1 (sk_harmonic sizes) i.
Proof.
  pose proof total_positive as HT. pose proof inverse_fractions_positive as HI.
  split; [|split].
  - unfold fractional_sizes. rewrite np_sum_np_div. field. lra.
  - unfold sk_harmonic. rewrite np_sum_np_div. field. lra.
  - intros i Hi. split; [apply fractional_sizes_positive|apply sk_harmonic_positive];
      exact Hi.
Qed.

(** X3.  The smaller the target size of a subset, the larger its weight in the
    objective. *)
Theorem smaller_subset_weighs_more (i j : nat) :
  (i < S_ sizes)%nat -> (j < S_ sizes)%nat ->
  at1 sizes i <= at1 sizes j ->
  at1 (sk_harmonic sizes) j <= at1 (sk_harmonic sizes) i.
Proof.
  intros Hi Hj Hle.
  pose proof total_positive as HT. pose proof inverse_fractions_positive as HI.
  pose proof (fractional_sizes_positive i Hi) as Hfi.
  pose proof (fractional_sizes_positive j Hj) as Hfj.
  assert (Hf : at1 (fractional_sizes sizes) i <= at1 (fractional_sizes sizes) j).
  { unfold fractional_sizes. rewrite !at1_np_div.
    unfold Qdiv. apply Qmult_le_compat_r; [exact Hle|].
    apply Qinv_le_0_compat. lra. }
  unfold sk_harmonic. rewrite !at1_np_div, !at1_np_rdiv.
  unfold Qdiv. apply Qmult_le_compat_r; [|apply Qinv_le_0_compat; lra].
  rewrite !Qmult_1_l.
  apply Qle_shift_inv_l; [exact Hfi|].
  apply Qle_trans with (/ at1 (fractional_sizes sizes) j * at1 (fractional_sizes sizes) j).
  - apply Qmult_le_l; [apply Qinv_lt_0_compat; exact Hfj|exact Hf].
  - rewrite Qmult_comm, Qmult_inv_r; lra.
Qed.

End PositiveSizes.

Lemma normalised_row_witness :
  exists row',
    nth_error (A_ [[2; 2]; [1; 3]]) 1 = Some row' /\
    length row' = 2%nat /\ np_sum row' == 1.
Proof.
  destruct (normalised_row_sums_to_one [[2; 2]; [1; 3]] 1 [1; 3] eq_refl)
    as (row' & H1 & H2 & H3 & _).
  - vm_compute. discriminate.
  - exists row'. auto.
Defined.

Lemma positive_sizes_example (s : Q) : In s [8; 1; 1] -> 0 < s.
Proof. intros [<-|[<-|[<-|[]]]]; reflexivity. Qed.

Lemma fractions_witness :
  np_sum (fractional_sizes [8; 1; 1]) == 1 /\
  np_sum (sk_harmonic [8; 1; 1]) == 1.
Proof.
  destruct (fractions_and_subset_weights_normalised [8; 1; 1]) as (H1 & H2 & _).
  - discriminate.
  - exact positive_sizes_example.
  - split; assumption.
Defined.

Lemma smaller_subset_witness :
  at1 (sk_harmonic [8; 1; 1]) 0 <= at1 (sk_harmonic [8; 1; 1]) 1.
Proof.
  apply (smaller_subset_weighs_more [8; 1; 1]).
  - discriminate.
  - exact positive_sizes_example.
  - vm_compute. lia.
  - vm_compute. lia.
  - vm_compute. discriminate.
Defined.

(** ** The shape of the model *)

Lemma length_flat_map_const {A B : Type} (f : A -> list B) (l : list A) (k : nat) :
  (forall a, In a l -> length (f a) = k) ->
  length (flat_map f l) = (length l * k)%nat.
Proof.
  induction l as [|a l IH]; intros H; cbn [flat_map length]; [reflexivity|].
  rewrite length_app, (H a) by (left; reflexivity).
  rewrite IH by (intros b Hb; apply H; right; exact Hb). lia.
Qed.

Lemma map_add_seq (b s n : nat) :
  map (fun t => (b + t)%nat) (seq s n) = seq (b + s) n.
Proof.
  revert s. induction n as [|n IH]; intros s; cbn [seq map]; [reflexivity|].
  f_equal. rewrite IH. f_equal. lia.
Qed.

(** The variables of the objective are the slacks, each once, in order. *)
Lemma objective_variables (A : list (list Q)) (sizes : list Q) (equal : bool) :
  map fst (objective (prob A sizes equal)) = map X_ (seq 0 (M_ A * S_ sizes)).
Proof.
  cbn [prob objective].
  - unfold objective_expr.
    generalize (sk_harmonic sizes) as sk. generalize (obj_weights A equal) as ow.
    generalize (M_ A) as M. generalize (S_ sizes) as S. intros S M ow sk.
    rewrite Nat.mul_comm.
    assert (H : forall k, map fst
                (flat_map (fun m => map (fun t => (X_ (m * M + t), at1 sk m * at1 ow t))
                                        (seq 0 M)) (seq k S))
              = map X_ (seq (k * M) (S * M))).
    { induction S as [|S IH]; intros k; [reflexivity|].
      cbn [seq flat_map]. rewrite map_app, IH, map_map. cbn [fst].
      replace (Datatypes.S S * M)%nat with (M + S * M)%nat by lia.
      rewrite seq_app, map_app. f_equal.
      - rewrite <- (map_map (fun t => (k * M + t)%nat) X_). f_equal.
        rewrite map_add_seq. f_equal. lia.
      - f_equal. f_equal. lia. }
    apply (H 0%nat).
Qed.

(** X4.  The model has [N*S] indicators and [M*S] slacks, one objective term per
    slack, and [N + 2*M*S] constraints. *)
Theorem model_size (A : list (list Q)) (sizes : list Q) (equal : bool) :
  let p := prob A sizes equal in
  length (variables p) = (N_ A * S_ sizes + M_ A * S_ sizes)%nat /\
  map fst (objective p) = map X_ (seq 0 (M_ A * S_ sizes)) /\
  length (constraints p) = (N_ A + 2 * (M_ A * S_ sizes))%nat.
Proof.
  cbv zeta. split; [|split; [apply objective_variables|]];
    cbn [prob variables constraints].
  - unfold x_vars, X_vars. rewrite length_app, !length_map, !length_seq. reflexivity.
  - unfold assignment_constraints, abs_constraints.
    rewrite length_app, length_map, length_seq. f_equal.
    rewrite (length_flat_map_const _ _ (2 * M_ A)%nat).
    + rewrite length_seq. lia.
    + intros m _. rewrite (length_flat_map_const _ _ 2%nat).
      * rewrite length_seq. lia.
      * intros t _. reflexivity.
Qed.

(** ** The slacks that no constraint names *)

Lemma eval_ext (v v' : var -> Q) (e : LpAffineExpression) :
  (forall x k, In (x, k) e -> v x == v' x) -> eval v e == eval v' e.
Proof.
  intros H. unfold eval. apply np_sum_map_ext.
  intros [x k] Hin. cbn [fst snd]. rewrite (H x k Hin). reflexivity.
Qed.

Lemma holds_ext (v v' : var -> Q) (c : LpConstraint) :
  (forall x k, In (x, k) (lhs c) -> v x == v' x) -> holds v c -> holds v' c.
Proof.
  intros H. unfold holds. pose proof (eval_ext v v' (lhs c) H) as E.
  destruct (rel c); rewrite E; auto.
Qed.

(** The variables a constraint can name: indicators, and slacks of index
    below [M]. *)
Lemma constraint_variables (A : list (list Q)) (sizes : list Q) (equal : bool)
    (c : LpConstraint) (x : var) (k : Q) :
  In c (constraints (prob A sizes equal)) -> In (x, k) (lhs c) ->
  match x with
  | x_ i => (i < N_ A * S_ sizes)%nat
  | X_ i => (i < M_ A)%nat
  end.
Proof.
  cbn [prob constraints]. intros Hc Hx.
  apply in_app_or in Hc as [Hc|Hc].
  - unfold assignment_constraints in Hc. apply in_map_iff in Hc as (c0 & <- & Hc0).
    cbn [lhs] in Hx. apply in_map_iff in Hx as (m & [= <- <-] & Hm).
    apply in_seq in Hc0, Hm. nia.
  - unfold abs_constraints in Hc.
    apply in_flat_map in Hc as (m & Hm & Hc).
    apply in_flat_map in Hc as (t & Ht & Hc).
    apply in_seq in Hm, Ht.
    assert (Hterm : In (x, k) (map (fun c => (x_ (c + m * N_ A), at2 (A_ A) t c))
                                   (cs_ A t)) \/ x = X_ t).
    { destruct Hc as [<-|[<-|[]]]; cbn [lhs] in Hx;
        apply in_app_or in Hx as [Hx|[[= <- <-]|[]]]; auto. }
    destruct Hterm as [Hin| ->]; [|lia].
    apply in_map_iff in Hin as (c0 & [= <- <-] & Hc0).
    unfold cs_ in Hc0. apply filter_In in Hc0 as [Hc0 _]. apply in_seq in Hc0. nia.
Qed.

(** A feasible valuation stays feasible when the slacks of index [M] and
    above are given any other non-negative values: the constraints bound
    the first [M] slacks only. *)
Lemma slacks_beyond_first_subset_are_free
    (A : list (list Q)) (sizes : list Q) (equal : bool) (v v' : var -> Q) :
  feasible (prob A sizes equal) v ->
  (forall i, v' (x_ i) == v (x_ i)) ->
  (forall i, (i < M_ A)%nat -> v' (X_ i) == v (X_ i)) ->
  (forall i, (i < M_ A * S_ sizes)%nat -> 0 <= v' (X_ i)) ->
  feasible (prob A sizes equal) v'.
Proof.
  intros [Hb Hc] Hx HX Hpos. split.
  - cbn [prob variables] in *. apply Forall_app in Hb as [Hbx HbX].
    apply Forall_app. split.
    + rewrite Forall_forall in Hbx. apply Forall_forall. intros d Hd.
      specialize (Hbx d Hd). apply list_elem_of_In in Hd.
      unfold x_vars in Hd. apply in_map_iff in Hd as (i & <- & _).
      unfold in_bounds in *. cbn [lowBound upBound cat name] in *.
      unfold integral in *. destruct Hbx as (L & U & z & Hz).
      pose proof (Hx i) as E. rewrite E.
      split; [exact L|]. split; [exact U|]. exists z. rewrite E. exact Hz.
    + apply Forall_forall. intros d Hd. apply list_elem_of_In in Hd.
      unfold X_vars in Hd. apply in_map_iff in Hd as (i & <- & Hi).
      apply in_seq in Hi.
      unfold in_bounds. cbn [lowBound upBound cat name].
      split; [apply Hpos; lia|auto].
  - rewrite Forall_forall in Hc. apply Forall_forall. intros c Hin.
    apply (holds_ext v v'); [|apply Hc; exact Hin].
    intros x k Hxk. apply list_elem_of_In in Hin.
    pose proof (constraint_variables A sizes equal c x k Hin Hxk) as Hvar.
    destruct x as [i|i]; symmetry; auto.
Qed.

Lemma eval_without (v : var -> Q) (x : var) (e : LpAffineExpression) (k : Q) :
  List.NoDup (map fst e) -> In (x, k) e ->
  eval v e == eval (fun y => if decide (y = x) then 0 else v y) e + k * v x.
Proof.
  induction e as [|[y j] e IH]; intros Hnd Hin; [destruct Hin|].
  cbn [map fst] in Hnd. inversion Hnd as [|? ? Hfresh Hnd']; subst.
  unfold eval in *. cbn [map np_sum foldr fst snd].
  fold (np_sum (map (fun p => snd p * v (fst p)) e)).
  fold (np_sum (map (fun p => snd p * (fun y => if decide (y = x) then 0 else v y) (fst p)) e)).
  destruct Hin as [[= -> ->]|Hin].
  - destruct (decide (x = x)) as [_|Hne]; [|congruence].
    assert (E : np_sum (map (fun p => snd p * v (fst p)) e) ==
                np_sum (map (fun p => snd p *
                               (fun y => if decide (y = x) then 0 else v y) (fst p)) e)).
    { apply np_sum_map_ext. intros [z i] Hz. cbn [fst snd].
      destruct (decide (z = x)) as [->|_]; [|reflexivity].
      exfalso. apply Hfresh. apply in_map_iff. exists (x, i). auto. }
    rewrite E. lra.
  - destruct (decide (y = x)) as [->|_].
    + exfalso. apply Hfresh. apply in_map_iff. exists (x, k). auto.
    + rewrite (IH Hnd' Hin). lra.
Qed.

Lemma obj_weights_positive (A : list (list Q)) (equal : bool) (t : nat) :
  (t < M_ A)%nat -> 0 < at1 (obj_weights A equal) t.
Proof.
  intros Ht. unfold obj_weights. rewrite at1_np_div.
  assert (Hraw : forall q, In q (obj_weights_raw A equal) -> 0 < q).
  { unfold obj_weights_raw. intros q Hq.
    destruct ((1 <? M_ A)%nat && negb equal) eqn:E.
    - apply andb_true_iff in E as [E _]. apply Nat.ltb_lt in E.
      destruct Hq as [<-|Hq]; [|apply repeat_spec in Hq; subst; reflexivity].
      unfold of_nat. change 0 with (inject_Z 0). rewrite <- Zlt_Qlt. lia.
    - apply repeat_spec in Hq. subst. reflexivity. }
  assert (Hlen : length (obj_weights_raw A equal) = M_ A).
  { unfold obj_weights_raw. destruct ((1 <? M_ A)%nat && negb equal) eqn:E.
    - apply andb_true_iff in E as [E _]. apply Nat.ltb_lt in E.
      cbn [length]. rewrite repeat_length. lia.
    - apply repeat_length. }
  apply Qlt_shift_div_l.
  - apply np_sum_pos; [|exact Hraw].
    intros E. rewrite E in Hlen. cbn [length] in Hlen. lia.
  - rewrite Qmult_0_l. apply Hraw, at1_In. lia.
Qed.

(** X5.  For positive sizes, whatever the table and the flag: at every optimum
    of the model every slack of index [M] and above, that is the slack
    [X[t,s]] of every subset [s >= 1], is [0]. *)
Theorem slacks_beyond_first_subset_vanish_at_optimum
    (A : list (list Q)) (sizes : list Q) (equal : bool) (v : var -> Q) :
  sizes <> [] -> (forall s, In s sizes -> 0 < s) ->
  feasible (prob A sizes equal) v ->
  (forall v', feasible (prob A sizes equal) v' ->
     eval v (objective (prob A sizes equal))
     <= eval v' (objective (prob A sizes equal))) ->
  forall i, (M_ A <= i < M_ A * S_ sizes)%nat -> v (X_ i) == 0.
Proof.
  intros Hne Hpos Hfeas Hopt i [HiM Hi].
  set (p := prob A sizes equal) in *.
  set (v' := fun y => if decide (y = X_ i) then 0 else v y).
  assert (HM : (0 < M_ A)%nat) by (destruct (M_ A); lia).
  assert (Hbound : forall j, (j < M_ A * S_ sizes)%nat -> 0 <= v (X_ j)).
  { intros j Hj. destruct Hfeas as [Hb _]. cbn [p prob variables] in Hb.
    apply Forall_app in Hb as [_ HbX]. rewrite Forall_forall in HbX.
    specialize (HbX (mkVar (X_ j) (Some 0) None Continuous)).
    destruct HbX as (L & _); [|exact L].
    apply list_elem_of_In. unfold X_vars. apply in_map_iff. exists j.
    split; [reflexivity|]. apply in_seq. lia. }
  assert (Hfeas' : feasible p v').
  { apply (slacks_beyond_first_subset_are_free A sizes equal v v' Hfeas).
    - intros j. unfold v'. destruct (decide (x_ j = X_ i)); [discriminate|reflexivity].
    - intros j Hj. unfold v'.
      destruct (decide (X_ j = X_ i)) as [[= ->]|_]; [lia|reflexivity].
    - intros j Hj. unfold v'. destruct (decide (X_ j = X_ i)); [lra|auto]. }
  set (k := at1 (sk_harmonic sizes) (i / M_ A) * at1 (obj_weights A equal) (i mod M_ A)).
  assert (Hk : 0 < k).
  { unfold k.
    assert (Hsk : 0 < at1 (sk_harmonic sizes) (i / M_ A)).
    { apply (sk_harmonic_positive sizes Hne Hpos).
      apply Nat.Div0.div_lt_upper_bound. lia. }
    assert (Hmod : (i mod M_ A < M_ A)%nat) by (apply Nat.mod_upper_bound; lia).
    pose proof (obj_weights_positive A equal (i mod M_ A) Hmod) as How.
    apply Qmult_lt_0_compat; assumption. }
  assert (Hin : In (X_ i, k) (objective p)).
  { cbn [p prob objective]. unfold objective_expr. apply in_flat_map.
    exists (i / M_ A)%nat. split.
    - apply in_seq. split; [lia|]. apply Nat.Div0.div_lt_upper_bound. lia.
    - apply in_map_iff. exists (i mod M_ A)%nat. split.
      + unfold k. f_equal. f_equal. pose proof (Nat.div_mod_eq i (M_ A)). lia.
      + apply in_seq. split; [lia|]. apply Nat.mod_upper_bound. lia. }
  assert (Hnd : List.NoDup (map fst (objective p))).
  { unfold p. rewrite objective_variables.
    apply Finite.Injective_map_NoDup; [|apply seq_NoDup].
    intros a b [= ->]. reflexivity. }
  pose proof (eval_without v (X_ i) (objective p) k Hnd Hin) as E.
  fold v' in E.
  specialize (Hopt v' Hfeas'). rewrite E in Hopt.
  pose proof (Hbound i Hi) as H0.
  assert (Hle : k * v (X_ i) <= 0) by lra.
  assert (v (X_ i) <= 0).
  { apply Qnot_lt_le. intros Hlt.
    pose proof (Qmult_lt_0_compat _ _ Hk Hlt). lra. }
  lra.
Qed.

Lemma free_slacks_witness :
  feasible (prob [[2; 2]; [1; 1]; [1; 0]; [2; 1]] [1; 1] true)
           (fun x => match x with X_ 5 => 7 | _ => Example.v x end).
Proof.
  apply (slacks_beyond_first_subset_are_free
           [[2; 2]; [1; 1]; [1; 0]; [2; 1]] [1; 1] true Example.v).
  - feasible_by_computation.
  - intros i. reflexivity.
  - intros [|[|[|[|i]]]] Hi; try reflexivity. vm_compute in Hi. lia.
  - intros [|[|[|[|[|[|i]]]]]] _; cbn; lra.
Defined.

Lemma vanishing_slack_witness :
  let v0 := fun x => match x with x_ 0 | x_ 3 => 1 | _ => 0 end in
  v0 (X_ 1) == 0.
Proof.
  intros v0.
  apply (slacks_beyond_first_subset_vanish_at_optimum [[1; 1]] [1; 1] true v0).
  - discriminate.
  - intros s [<-|[<-|[]]]; reflexivity.
  - feasible_by_computation.
  - intros v' [Hb _].
    set (o := objective (prob [[1; 1]] [1; 1] true)). vm_compute in o. subst o.
    set (vs := variables (prob [[1; 1]] [1; 1] true)) in Hb. vm_compute in vs. subst vs.
    forall_inv Hb. unfold in_bounds in *. cbn [lowBound upBound cat name] in *.
    unfold eval. cbn [map np_sum foldr fst snd v0].
    destruct C3 as (L0 & _), C4 as (L1 & _). lra.
  - vm_compute. lia.
Defined.

(** ** Feasibility of the model *)

Lemma eval_app (v : var -> Q) (e1 e2 : LpAffineExpression) :
  eval v (e1 ++ e2) == eval v e1 + eval v e2.
Proof. unfold eval. rewrite map_app. apply np_sum_app. Qed.

Lemma np_sum_bounds_terms (l : list Q) :
  (forall q, In q l -> 0 <= q) ->
  0 <= np_sum l /\ forall q, In q l -> q <= np_sum l.
Proof.
  induction l as [|a l IH]; intros Hpos.
  - cbn. split; [lra|]. intros q [].
  - destruct IH as [H0 Hle]; [intros q Hq; apply Hpos; right; exact Hq|].
    pose proof (Hpos a (or_introl eq_refl)) as Ha.
    cbn [np_sum foldr]. fold (np_sum l). split; [lra|].
    intros q [<-|Hq]; [lra|]. specialize (Hle q Hq). lra.
Qed.

Lemma indicator_sum (k s n : nat) :
  np_sum (map (fun m => 1 * (if (m =? k)%nat then 1 else 0)) (seq s n)) ==
  if ((s <=? k) && (k <? s + n))%nat then 1 else 0.
Proof.
  revert s. induction n as [|n IH]; intros s.
  - cbn [seq map np_sum foldr].
    destruct ((s <=? k)%nat && (k <? s + 0)%nat) eqn:E; [|reflexivity].
    apply andb_true_iff in E as [E1 E2].
    apply Nat.leb_le in E1. apply Nat.ltb_lt in E2. lia.
  - cbn [seq map np_sum foldr].
    fold (np_sum (map (fun m => 1 * (if (m =? k)%nat then 1 else 0)) (seq (S s) n))).
    rewrite IH.
    destruct (Nat.eqb_spec s k) as [->|Hne].
    + replace ((S k <=? k)%nat && (k <? S k + n)%nat) with false
        by (symmetry; apply andb_false_iff; left; apply Nat.leb_gt; lia).
      replace ((k <=? k)%nat && (k <? k + S n)%nat) with true
        by (symmetry; apply andb_true_iff; split;
            [apply Nat.leb_le|apply Nat.ltb_lt]; lia).
      lra.
    + assert (E : ((S s <=? k)%nat && (k <? S s + n)%nat)
                  = ((s <=? k)%nat && (k <? s + S n)%nat)).
      { destruct (S s <=? k)%nat eqn:E1, (s <=? k)%nat eqn:E2,
                 (k <? S s + n)%nat eqn:E3, (k <? s + S n)%nat eqn:E4;
          try reflexivity;
          repeat match goal with
                 | H : (_ <=? _)%nat = true |- _ => apply Nat.leb_le in H
                 | H : (_ <=? _)%nat = false |- _ => apply Nat.leb_gt in H
                 | H : (_ <? _)%nat = true |- _ => apply Nat.ltb_lt in H
                 | H : (_ <? _)%nat = false |- _ => apply Nat.ltb_ge in H
                 end; lia. }
      rewrite E. destruct ((s <=? k)%nat && (k <? s + S n)%nat); lra.
Qed.

Section Feasibility.

Variable A : list (list Q).
Variable sizes : list Q.
Variable equal : bool.
Variable a : nat -> nat.

Lemma slack_covers_deviation (m t : nat) :
  (m < S_ sizes)%nat ->
  Qabs (achieved A (assignment_indicator (N_ A) a) m t
        - at1 (fractional_sizes sizes) m)
  <= assignment_valuation A sizes a (X_ t) /\
  0 <= assignment_valuation A sizes a (X_ t).
Proof.
  intros Hm. cbn [assignment_valuation].
  destruct (np_sum_bounds_terms
              (map (fun m => Qabs (achieved A (assignment_indicator (N_ A) a) m t
                                   - at1 (fractional_sizes sizes) m))
                   (seq 0 (S_ sizes)))) as [H0 Hle].
  - intros q Hq. apply in_map_iff in Hq as (m' & <- & _). apply Qabs_nonneg.
  - split; [|exact H0]. apply Hle. apply in_map_iff. exists m.
    split; [reflexivity|]. apply in_seq. lia.
Qed.

(** X6.  For positive sizes and a table none of whose rows sums to [0], so
    that no quotient of the model has a zero divisor: every assignment of
    the clusters to the subsets extends to a feasible valuation of the
    model; without any size but with a cluster, the model has no feasible
    valuation. *)
Theorem assignments_are_feasible :
  (forall s, In s sizes -> 0 < s) ->
  (forall row, In row A -> ~ np_sum row == 0) ->
  ((forall c, (c < N_ A)%nat -> (a c < S_ sizes)%nat) ->
   feasible (prob A sizes equal) (assignment_valuation A sizes a) /\
   forall c m, (c < N_ A)%nat -> (m < S_ sizes)%nat ->
     assignment_valuation A sizes a (x_ (c + m * N_ A))
     = if (m =? a c)%nat then 1 else 0) /\
  (S_ sizes = 0%nat -> (0 < N_ A)%nat ->
   forall v, ~ feasible (prob A sizes equal) v).
Proof.
  intros _ _. split.
  - intros Ha.
    assert (Hvx : forall c m, (c < N_ A)%nat ->
              assignment_indicator (N_ A) a (c + m * N_ A)
              = if (m =? a c)%nat then 1 else 0).
    { intros c m Hc. unfold assignment_indicator.
      rewrite Nat.div_add, Nat.div_small, Nat.Div0.mod_add, Nat.mod_small by lia.
      reflexivity. }
    split; [|intros c m Hc _; exact (Hvx c m Hc)].
    split; cbn [prob variables constraints].
    + apply Forall_app. split; apply Forall_forall; intros d Hd;
        apply list_elem_of_In in Hd.
      * unfold x_vars in Hd. apply in_map_iff in Hd as (i & <- & _).
        unfold in_bounds. cbn [lowBound upBound cat name assignment_valuation].
        unfold assignment_indicator.
        destruct (i / N_ A =? a (i mod N_ A))%nat.
        -- repeat split; try lra. exists 1%Z. reflexivity.
        -- repeat split; try lra. exists 0%Z. reflexivity.
      * unfold X_vars in Hd. apply in_map_iff in Hd as (t & <- & Ht).
        unfold in_bounds. cbn [lowBound upBound cat name].
        split; [|auto].
        cbn [assignment_valuation].
        refine (proj1 (np_sum_bounds_terms _ _)).
        intros q Hq. apply in_map_iff in Hq as (m' & <- & _). apply Qabs_nonneg.
    + apply Forall_app. split; apply Forall_forall; intros c Hc;
        apply list_elem_of_In in Hc.
      * unfold assignment_constraints in Hc. apply in_map_iff in Hc as (c0 & <- & Hc0).
        apply in_seq in Hc0. unfold holds. cbn [rel lhs rhs]. unfold eval.
        rewrite map_map. cbn [fst snd assignment_valuation].
        rewrite (np_sum_map_ext _ (fun m => 1 * (if (m =? a c0)%nat then 1 else 0))).
        2:{ intros m _. rewrite Hvx by lia. reflexivity. }
        rewrite indicator_sum.
        replace ((0 <=? a c0)%nat && (a c0 <? 0 + S_ sizes)%nat) with true;
          [reflexivity|].
        symmetry. apply andb_true_iff. split; [apply Nat.leb_le; lia|].
        apply Nat.ltb_lt. assert (a c0 < S_ sizes)%nat by (apply Ha; lia). lia.
      * unfold abs_constraints in Hc.
        apply in_flat_map in Hc as (m & Hm & Hc).
        apply in_flat_map in Hc as (t & Ht & Hc).
        apply in_seq in Hm, Ht.
        assert (Hm' : (m < S_ sizes)%nat) by lia.
        destruct (slack_covers_deviation m t Hm') as [Hdev Hpos].
        assert (Hx : eval (assignment_valuation A sizes a)
                       (map (fun c => (x_ (c + m * N_ A), at2 (A_ A) t c)) (cs_ A t))
                     == achieved A (assignment_indicator (N_ A) a) m t).
        { unfold eval, achieved. rewrite map_map.
          cbn [fst snd assignment_valuation]. reflexivity. }
        destruct Hc as [<-|[<-|[]]]; unfold holds; cbn [rel lhs rhs];
          rewrite eval_app, Hx; unfold eval; cbn [map np_sum foldr fst snd];
          revert Hdev; apply Qabs_case; intros; lra.
  - intros HS HN v [_ Hc]. cbn [prob constraints] in Hc.
    apply Forall_app in Hc as [Hc _]. rewrite Forall_forall in Hc.
    specialize (Hc (mkCon (map (fun m => (x_ (0 + m * N_ A), 1)) (seq 0 (S_ sizes))) EQ 1)).
    unfold holds in Hc. cbn [rel lhs rhs] in Hc. rewrite HS in Hc.
    cbn in Hc.
    assert (0 == 1); [|discriminate].
    apply Hc. apply list_elem_of_In. unfold assignment_constraints.
    apply in_map_iff. exists 0%nat. rewrite HS.
    split; [reflexivity|]. apply in_seq. change (0 <= 0 < 0 + N_ A)%nat. lia.
Qed.

End Feasibility.

Lemma assignments_feasible_witness :
  feasible (prob [[2; 2]; [1; 1]; [1; 0]; [2; 1]] [1; 1] true)
           (assignment_valuation [[2; 2]; [1; 1]; [1; 0]; [2; 1]] [1; 1] (fun c => c)) /\
  ~ feasible (prob [[2; 2]; [1; 1]] [] true) Example.v.
Proof.
  split.
  - apply (proj1 (assignments_are_feasible [[2; 2]; [1; 1]; [1; 0]; [2; 1]] [1; 1]
                    true (fun c => c)
                    ltac:(intros s [<-|[<-|[]]]; reflexivity)
                    ltac:(intros row [<-|[<-|[<-|[<-|[]]]]] H; vm_compute in H;
                          discriminate H))).
    intros c Hc. vm_compute in Hc. vm_compute. exact Hc.
  - apply (proj2 (assignments_are_feasible [[2; 2]; [1; 1]] [] true (fun c => c)
                    ltac:(intros s [])
                    ltac:(intros row [<-|[<-|[]]] H; vm_compute in H;
                          discriminate H))).
    + reflexivity.
    + vm_compute. lia.
Defined.

(** ** The mapping read back from any solver output *)

Lemma extract_mapping_pairs (N S : nat) (value : var -> option Q) :
  extract_mapping N S value =
  map snd (merge_sort tuple_le
             (map (fun i => (i mod N, 1 + i / N)%nat)
                  (List.filter (fun i => is_one (value (x_ i))) (seq 0 (N * S))))).
Proof.
  unfold extract_mapping. f_equal. f_equal.
  set (hits := List.filter _ (enumerate _)).
  rewrite <- (enumerate_map_filter (fun i => value (x_ i))
                (fun i => (i mod N, 1 + i / N)%nat) is_one).
  fold hits.
  assert (Hin : forall p, In p hits -> (fst p < N * S)%nat).
  { intros [i l] Hp. unfold hits in Hp. apply filter_In in Hp as [Hp _].
    unfold enumerate in Hp. apply in_combine_l in Hp.
    rewrite length_map, length_seq in Hp. apply in_seq in Hp. cbn. lia. }
  clearbody hits. induction hits as [|p hits IH]; cbn [map combine]; [reflexivity|].
  rewrite IH by (intros q Hq; apply Hin; right; exact Hq).
  f_equal. pose proof (Hin p (or_introl eq_refl)) as Hp.
  rewrite nth_tiled_range by exact Hp.
  rewrite (nth_indep _ O ((fun r => (1 + r)%nat) O))
    by (rewrite length_map, length_repeated_range; exact Hp).
  rewrite (map_nth (fun r => (1 + r)%nat)), nth_repeated_range by exact Hp.
  reflexivity.
Qed.

(** X7.  Whatever values the solver returns, the mapping has one entry per
    indicator that is [1] and every entry is a subset id between [1] and
    [S].  When the solver has set no value at all, the mapping is empty,
    and the loop that writes the split column raises [IndexError] at the
    first cluster, leaving the store as it was. *)
Theorem mapping_of_any_solver_output (N S : nat) (value : var -> option Q) :
  length (extract_mapping N S value)
  = length (List.filter (fun i => is_one (value (x_ i))) (seq 0 (N * S))) /\
  (forall m, In m (extract_mapping N S value) -> (1 <= m <= S)%nat) /\
  ((forall i, (i < N * S)%nat -> value (x_ i) = None) ->
   extract_mapping N S value = [] /\
   forall name item rest w,
     for_ (item :: rest) (write_subset name (extract_mapping N S value)) w
     = (w, inl IndexError)).
Proof.
  rewrite extract_mapping_pairs. split; [|split].
  - rewrite length_map, merge_sort_Permutation, length_map. reflexivity.
  - intros m Hm. apply in_map_iff in Hm as ([c m'] & <- & Hin).
    apply list_elem_of_In in Hin. rewrite merge_sort_Permutation in Hin.
    apply list_elem_of_In, in_map_iff in Hin as (i & [= <- <-] & Hi).
    apply filter_In in Hi as [Hi _]. apply in_seq in Hi. cbn [snd].
    split; [lia|].
    assert (i / N < S)%nat; [|lia].
    apply Nat.Div0.div_lt_upper_bound. lia.
  - intros Hnone.
    assert (E : List.filter (fun i => is_one (value (x_ i))) (seq 0 (N * S)) = []).
    { generalize (fun i (H : In i (seq 0 (N * S))) =>
                    Hnone i (proj2 (proj1 (in_seq _ _ _) H))).
      generalize (seq 0 (N * S)) as l. clear.
      induction l as [|i l IH]; intros H; [reflexivity|].
      cbn [List.filter]. rewrite (H i) by (left; reflexivity). cbn [is_one].
      apply IH. intros j Hj. apply H. right. exact Hj. }
    rewrite E. split; reflexivity.
Qed.

Lemma mapping_of_silent_solver_witness :
  extract_mapping 2 2 (fun _ => None) = [] /\
  for_ [(0%nat, [0%nat; 1%nat])]
       (write_subset "Split" (extract_mapping 2 2 (fun _ => None))) Example.w0
  = (Example.w0, inl IndexError).
Proof.
  destruct (proj2 (proj2 (mapping_of_any_solver_output 2 2 (fun _ => None))))
    as [H1 H2].
  - intros i _. reflexivity.
  - split; [exact H1|]. apply H2.
Defined.

(** ** What one iteration does *)

Lemma quiet_ret {A : Type} (a : A) : quiet (mret a).
Proof. intros w w' r H. inversion H; subst. auto. Qed.

Lemma quiet_raise {A : Type} (e : exn) : quiet (@raise A e).
Proof. intros w w' r H. inversion H; subst. auto. Qed.

Lemma quiet_lift {A : Type} (x : exn + A) : quiet (lift x).
Proof. intros w w' r H. inversion H; subst. auto. Qed.

Lemma quiet_get_self : quiet get_self.
Proof. intros w w' r H. inversion H; subst. auto. Qed.

Lemma quiet_read_df : quiet read_df.
Proof.
  intros w w' r H. unfold read_df in H.
  destruct (df (self w)) as [l|]; [destruct (heap w !! l)|];
    inversion H; subst; auto.
Qed.

Lemma quiet_write_df (d : DataFrame) : quiet (write_df d).
Proof.
  intros w w' r H. unfold write_df in H.
  destruct (df (self w)) as [l|]; inversion H; subst; auto.
Qed.

Lemma quiet_bind {A B : Type} (m : Py A) (f : A -> Py B) :
  quiet m -> (forall a, quiet (f a)) -> quiet (m ≫= f).
Proof.
  intros Hm Hf w w' r H.
  apply bind_inv in H as [(e & H & ->)|(a & w1 & H1 & H2)].
  - exact (Hm _ _ _ H).
  - destruct (Hm _ _ _ H1) as [E1 F1], (Hf a _ _ _ H2) as [E2 F2].
    split; congruence.
Qed.

Lemma quiet_for {A : Type} (l : list A) (body : A -> Py unit) :
  (forall a, quiet (body a)) -> quiet (for_ l body).
Proof.
  intros Hb. induction l as [|a l IH]; cbn [for_].
  - apply quiet_ret.
  - apply quiet_bind; auto.
Qed.

Create HintDb quiet.

#[local] Hint Resolve quiet_ret quiet_raise quiet_lift quiet_get_self
  quiet_read_df quiet_write_df : quiet.

Ltac quiet_step :=
  match goal with
  | |- quiet (_ ≫= _) => apply quiet_bind; [|intros ?]
  | |- quiet (for_ _ _) => apply quiet_for; intros ?
  | |- quiet (match ?x with _ => _ end) => destruct x
  | |- quiet _ => solve [auto with quiet]
  end.

Ltac quiet_tac := repeat quiet_step.

Lemma quiet_write_subset (name : string) (mapping : list nat) (item : nat * list nat) :
  quiet (write_subset name mapping item).
Proof. unfold write_subset. quiet_tac. Qed.

Lemma quiet_compute_task_balace (split_col : string) :
  quiet (compute_task_balace split_col).
Proof. unfold compute_task_balace. quiet_tac. Qed.

Section Iteration.

Variable run_clustering : ClusteringMethod -> list cell -> Clusters.
Variable PULP_CBC_CMD : Q -> Q -> nat -> LpProblem -> var -> option Q.
Variable GetFingerprint : FpCalculator -> cell -> list bool.
Variable TanimotoSimilarity : list bool -> list bool -> Q.

Lemma get_clusters_inr (smiles : Series) (w w' : World) (cl : Clusters) :
  get_clusters run_clustering smiles w = (w', inr cl) ->
  self w' = self w /\
  trace w' = trace w ++
             match clusters (self w) with
             | Some (_ :: _) => []
             | _ => match clustering_method (self w) with
                    | Some m => [EvCluster m]
                    | None => []
                    end
             end.
Proof.
  unfold get_clusters. intros H.
  apply bind_inr in H as (s & w0 & Hs & H). inversion Hs; subst w0 s; clear Hs.
  destruct (clusters (self w)) as [[|c cs]|].
  2:{ inversion H; subst. rewrite app_nil_r. auto. }
  all: destruct (clustering_method (self w)) as [m|]; [|discriminate].
  all: apply bind_inr in H as ([] & w0 & He & H).
  all: inversion He; subst w0; inversion H; subst; auto.
Qed.

Lemma compute_tasks_per_cluster_inr (tasks : list string) (cl : Clusters)
    (w w' : World) (table : list (list Q)) :
  compute_tasks_per_cluster tasks cl w = (w', inr table) ->
  self w' = self w /\ trace w' = trace w ++ [EvTabulate] /\ N_ table = length cl.
Proof.
  unfold compute_tasks_per_cluster. intros H.
  apply bind_inr in H as ([] & w1 & He & H). inversion He; subst w1; clear He.
  apply bind_inr in H as (d & w1 & Hr & H). apply read_df_inr in Hr as (-> & _).
  apply bind_inr in H as (rows & w1 & Hrows & H). apply lift_inr in Hrows as (-> & _).
  inversion H; subst. cbn [self trace].
  rewrite N_of_table, length_map. auto.
Qed.

Lemma merge_inr (arr : list (list Q)) (sizes : list Q) (equal : bool) (gap tl : Q)
    (thr : nat) (w w' : World) (mapping : list nat) :
  merge_clusters_with_balancing_mapping PULP_CBC_CMD arr sizes equal gap tl thr w
  = (w', inr mapping) ->
  (S_ sizes <= N_ arr)%nat /\ self w' = self w /\
  trace w' = trace w ++ [EvSolve (prob arr sizes equal)].
Proof.
  unfold merge_clusters_with_balancing_mapping. intros H.
  destruct (N_ arr <? S_ sizes)%nat eqn:E; [discriminate|].
  apply Nat.ltb_ge in E.
  apply bind_inr in H as ([] & w1 & He & H). inversion He; subst w1; clear He.
  inversion H; subst. auto.
Qed.

Lemma compute_min_interset_inr (split_col mTd_col : string) (calc : FpCalculator)
    (w w' : World) :
  compute_min_interset_Tanimoto_distances GetFingerprint TanimotoSimilarity
    split_col mTd_col calc w = (w', inr tt) ->
  self w' = self w /\ trace w' = trace w ++ [EvFingerprints].
Proof.
  unfold compute_min_interset_Tanimoto_distances. intros H.
  apply bind_inr in H as (d0 & w1 & Hr & H). apply read_df_inr in Hr as (-> & _).
  apply bind_inr in H as (s & w1 & Hs & H). inversion Hs; subst w1 s; clear Hs.
  apply bind_inr in H as (smiles & w1 & Hsm & H). apply lift_inr in Hsm as (-> & _).
  apply bind_inr in H as ([] & w1 & He & H). inversion He; subst w1; clear He.
  apply bind_inr in H as (split & w1 & Hsp & H). apply lift_inr in Hsp as (-> & _).
  apply bind_inr in H as (ds & w1 & Hds & H). apply lift_inr in Hds as (-> & _).
  apply bind_inr in H as ([] & w1 & Hw & H).
  apply write_df_inr in Hw as (l1 & _ & ->).
  destruct (has_nan split); inversion H; subst. auto.
Qed.

(** An iteration of [__call__] that returns has had at least one balancing
    task and at least as many clusters as sizes; it has logged, in this
    order, the clustering (unless the clusters are precomputed), the
    tabulation, one solve and, when the distances are asked for, the
    fingerprints; and it has changed nothing of the splitter but, when
    [n_splits > 1], the seed of the strategy, which is one more. *)
Lemma iteration_inr (smiles : Series) (split : nat) (w w' : World) :
  iteration run_clustering PULP_CBC_CMD GetFingerprint TanimotoSimilarity
            smiles split w = (w', inr tt) ->
  tasks_for_balancing (self w) <> [] /\
  (exists (cl : Clusters) table,
     (length (sizes (self w)) <= length cl)%nat /\ N_ table = length cl /\
     trace w' = trace w ++ iteration_events (self w) table) /\
  self w' = advance_seed (self w).
Proof.
  unfold iteration, advance_seed. intros H.
  apply bind_inr in H as (s & w0 & Hs & H). inversion Hs; subst w0 s; clear Hs.
  apply bind_inr in H as (cl & w1 & Hcl & H).
  apply get_clusters_inr in Hcl as [S1 T1].
  apply bind_inr in H as (table & w2 & Htab & H).
  apply compute_tasks_per_cluster_inr in Htab as (S2 & T2 & HN).
  apply bind_inr in H as (mapping & w3 & Hm & H).
  apply merge_inr in Hm as (HSN & S3 & T3).
  apply bind_inr in H as ([] & w4 & Hw & H).
  assert (Q4 : quiet (for_ cl (write_subset (split_name (n_splits (self w)) split)
                                            mapping)))
    by (apply quiet_for; intros; apply quiet_write_subset).
  apply Q4 in Hw as [S4 T4].
  apply bind_inr in H as ([] & w5 & Hb & H).
  assert (Htasks : tasks_for_balancing (self w) <> []).
  { intros E. unfold compute_task_balace in Hb.
    apply bind_inr in Hb as (d & w6 & Hr & Hb). apply read_df_inr in Hr as (-> & _).
    apply bind_inr in Hb as (s & w6 & Hs & Hb). inversion Hs; subst w6 s; clear Hs.
    rewrite S4, S3, S2, S1, E in Hb. discriminate. }
  apply quiet_compute_task_balace in Hb as [S5 T5].
  apply bind_inr in H as ([] & w6 & Hd & H).
  assert (S6 : self w6 = self w5 /\
               trace w6 = trace w5 ++ (if min_distance (self w) then [EvFingerprints]
                                       else [])).
  { destruct (min_distance (self w)).
    - apply compute_min_interset_inr in Hd. exact Hd.
    - inversion Hd; subst. rewrite app_nil_r. auto. }
  destruct S6 as [S6 T6].
  split; [exact Htasks|]. split.
  - exists cl, table. split; [unfold S_ in HSN; rewrite HN in HSN; exact HSN|].
    split; [exact HN|].
    assert (Ht : trace w6 = trace w ++ iteration_events (self w) table).
    { unfold iteration_events. rewrite T6, T5, T4, T3, T2, T1.
      rewrite <- !app_assoc. reflexivity. }
    destruct (1 <? n_splits (self w))%nat; inversion H; subst; exact Ht.
  - assert (Hs : self w6 = self w) by congruence.
    destruct (1 <? n_splits (self w))%nat; inversion H; subst; cbn [self];
      rewrite ?Hs; reflexivity.
Qed.

End Iteration.

(** ** Rows outside every cluster *)

Section Coverage.

Variable run_clustering : ClusteringMethod -> list cell -> Clusters.
Variable PULP_CBC_CMD : Q -> Q -> nat -> LpProblem -> var -> option Q.
Variable GetFingerprint : FpCalculator -> cell -> list bool.
Variable TanimotoSimilarity : list bool -> list bool -> Q.

Lemma get_clusters_used (smiles : Series) (w w' : World) (cl : Clusters) :
  get_clusters run_clustering smiles w = (w', inr cl) ->
  heap w' = heap w /\ self w' = self w /\
  cl = clusters_used run_clustering (self w) smiles.
Proof.
  unfold get_clusters, clusters_used. intros H.
  apply bind_inr in H as (s & w0 & Hs & H). inversion Hs; subst w0 s; clear Hs.
  destruct (clusters (self w)) as [[|c cs]|].
  - destruct (clustering_method (self w)) as [m|]; [|discriminate].
    apply bind_inr in H as ([] & w1 & He & H). inversion He; subst w1; clear He.
    inversion H; subst. auto.
  - inversion H; subst. auto.
  - destruct (clustering_method (self w)) as [m|]; [|discriminate].
    apply bind_inr in H as ([] & w1 & He & H). inversion He; subst w1; clear He.
    inversion H; subst. auto.
Qed.

Lemma compute_tasks_per_cluster_heap (tasks : list string) (cl : Clusters)
    (w w' : World) (table : list (list Q)) :
  compute_tasks_per_cluster tasks cl w = (w', inr table) -> heap w' = heap w.
Proof.
  unfold compute_tasks_per_cluster. intros H.
  apply bind_inr in H as ([] & w1 & He & H). inversion He; subst w1; clear He.
  apply bind_inr in H as (d & w1 & Hr & H). apply read_df_inr in Hr as (-> & _).
  apply bind_inr in H as (rows & w1 & Hrows & H). apply lift_inr in Hrows as (-> & _).
  inversion H; subst. reflexivity.
Qed.

Lemma merge_heap (arr : list (list Q)) (sizes : list Q) (equal : bool) (gap tl : Q)
    (thr : nat) (w w' : World) (mapping : list nat) :
  merge_clusters_with_balancing_mapping PULP_CBC_CMD arr sizes equal gap tl thr w
  = (w', inr mapping) ->
  heap w' = heap w.
Proof.
  unfold merge_clusters_with_balancing_mapping. intros H.
  destruct (N_ arr <? S_ sizes)%nat; [discriminate|].
  apply bind_inr in H as ([] & w1 & He & H). inversion He; subst w1; clear He.
  inversion H; subst. reflexivity.
Qed.

Lemma has_nan_lookup (s : Series) (r : nat) : s !! r = Some NaN -> has_nan s = true.
Proof.
  intros H. unfold has_nan. apply existsb_exists. exists NaN. split; [|reflexivity].
  apply list_elem_of_In. eapply list_elem_of_lookup_2. exact H.
Qed.

Lemma compute_task_balace_inr (split_col : string) (w w' : World) (l : loc)
    (d : DataFrame) :
  compute_task_balace split_col w = (w', inr tt) ->
  df (self w) = Some l -> heap w !! l = Some d ->
  exists split, lookup_col (columns d) split_col = Some split /\ has_nan split = false.
Proof.
  unfold compute_task_balace. intros H Hl Hd.
  apply bind_inr in H as (d0 & w1 & Hr & H).
  apply read_df_inr in Hr as (-> & l0 & Hl0 & Hd0).
  assert (l0 = l) as -> by congruence. assert (d0 = d) as -> by congruence.
  apply bind_inr in H as (s & w1 & Hs & H). inversion Hs; subst w1 s; clear Hs.
  destruct (tasks_for_balancing (self w)) as [|t ts]; [discriminate|].
  apply bind_inr in H as ([] & w1 & _ & H).
  apply bind_inr in H as (split & w2 & Hsp & H). apply lift_inr in Hsp as (-> & Hsp).
  unfold getitem in Hsp.
  destruct (lookup_col (columns d) split_col) as [sp|]; [|discriminate].
  inversion Hsp; subst sp. exists split. split; [reflexivity|].
  destruct (has_nan split); [discriminate|reflexivity].
Qed.

Lemma tabulate_row_members (d : DataFrame) (task : string) (N : nat)
    (items : Clusters) :
  forall row row' : list Q,
  tabulate_row d task N items row = inr row' ->
  forall item i, In item items -> In i (snd item) -> (i < nrows d)%nat.
Proof.
  induction items as [|[j ind] items IH]; intros row row' H item i Hitem Hi;
    [destruct Hitem|].
  cbn [tabulate_row] in H.
  destruct (count_in_cluster d task ind) as [e|n] eqn:E; [discriminate|].
  destruct (j <? N)%nat; [|discriminate].
  destruct Hitem as [<-|Hitem]; [|exact (IH _ _ H item i Hitem Hi)].
  unfold count_in_cluster in E.
  destruct (List.find _ ind) eqn:Efind; [discriminate|].
  apply (find_none _ _ Efind) in Hi. apply negb_false_iff, Nat.ltb_lt in Hi. exact Hi.
Qed.

(** A tabulation that returns, for at least one task, has found every
    member of every cluster among the positions of the frame. *)
Lemma compute_tasks_per_cluster_members (tasks : list string) (cl : Clusters)
    (w w' : World) (table : list (list Q)) (l : loc) (d : DataFrame) :
  compute_tasks_per_cluster tasks cl w = (w', inr table) ->
  tasks <> [] -> df (self w) = Some l -> heap w !! l = Some d ->
  forall item i, In item cl -> In i (snd item) -> (i < nrows d)%nat.
Proof.
  unfold compute_tasks_per_cluster. intros H Htasks Hl Hd.
  apply bind_inr in H as ([] & w1 & He & H). inversion He; subst w1; clear He.
  apply bind_inr in H as (d0 & w1 & Hr & H).
  apply read_df_inr in Hr as (-> & l0 & Hl0 & Hd0). cbn [self heap] in Hl0, Hd0.
  assert (l0 = l) as -> by congruence. assert (d0 = d) as -> by congruence.
  apply bind_inr in H as (rows & w1 & Hrows & _). apply lift_inr in Hrows as (_ & Hrows).
  destruct tasks as [|task tasks]; [congruence|]. cbn [tabulate_rows] in Hrows.
  destruct (tabulate_row d task (length cl) cl (replicate (length cl) 0))
    as [e|row] eqn:E; [discriminate|].
  exact (tabulate_row_members _ _ _ _ _ _ E).
Qed.

(** X8.  An iteration that returns, on a frame that had no column of the
    name of the split before, has found the label of every row in some
    cluster: a row whose label is in no cluster is left without a subset,
    and the report on the balance raises on it.  When no two rows have the
    same label it has found every row in some cluster: the members of the
    clusters are positions of the frame, or the tabulation raises, so the
    labels are the positions. *)
Theorem iteration_needs_every_row_in_a_cluster (smiles : Series) (split : nat)
    (w w' : World) (l : loc) (d : DataFrame) :
  iteration run_clustering PULP_CBC_CMD GetFingerprint TanimotoSimilarity
            smiles split w = (w', inr tt) ->
  df (self w) = Some l -> heap w !! l = Some d ->
  lookup_col (columns d) (split_name (n_splits (self w)) split) = None ->
  (forall r label, index d !! r = Some label ->
     exists item,
       In item (clusters_used run_clustering (self w) smiles) /\ In label (snd item)) /\
  (List.NoDup (index d) ->
   forall r, (r < nrows d)%nat ->
     exists item,
       In item (clusters_used run_clustering (self w) smiles) /\ In r (snd item)).
Proof.
  intros H Hl Hd Hnew.
  pose proof (iteration_inr _ _ _ _ _ _ _ _ H) as (Htasks & _).
  unfold iteration in H.
  apply bind_inr in H as (s & w0 & Hs & H). inversion Hs; subst w0 s; clear Hs.
  apply bind_inr in H as (cl & w1 & Hcl & H).
  apply get_clusters_used in Hcl as (H1 & S1 & ->).
  set (cl := clusters_used run_clustering (self w) smiles) in *.
  apply bind_inr in H as (table & w2 & Htab & H).
  assert (H2 := compute_tasks_per_cluster_heap _ _ _ _ _ Htab).
  assert (Hmembers : forall item i, In item cl -> In i (snd item) -> (i < nrows d)%nat).
  { apply (compute_tasks_per_cluster_members _ _ _ _ _ l d Htab Htasks); congruence. }
  apply compute_tasks_per_cluster_inr in Htab as (S2 & _).
  apply bind_inr in H as (mapping & w3 & Hm & H).
  assert (H3 := merge_heap _ _ _ _ _ _ _ _ _ Hm).
  apply merge_inr in Hm as (_ & S3 & _).
  apply bind_inr in H as ([] & w4 & Hw & H).
  apply bind_inr in H as ([] & w5 & Hb & _).
  assert (Hl3 : df (self w3) = Some l) by congruence.
  assert (Hd3 : heap w3 !! l = Some d) by congruence.
  destruct (write_loop_inr _ _ _ _ _ _ _ Hw Hl3 Hd3)
    as (d' & Hl' & Hd' & Hn' & _ & Hrows).
  destruct (compute_task_balace_inr _ _ _ _ _ Hb Hl' Hd') as (col & Hcol & Hnan).
  (* every label is a member of some cluster *)
  assert (Hlabels : forall r label, index d !! r = Some label ->
            exists item, In item cl /\ In label (snd item)).
  { intros r label Hlabel.
    destruct (existsb (fun item : nat * list nat => mem_nat label (snd item)) cl) eqn:E.
    - apply existsb_exists in E as (item & Hitem & E). apply mem_nat_In in E. eauto.
    - exfalso. destruct (Hrows r label Hlabel) as [Hout _].
      assert (Hkeep : column_or_nan d' (split_name (n_splits (self w)) split) !! r
                      = column_or_nan d (split_name (n_splits (self w)) split) !! r).
      { apply Hout. intros item Hitem Hin.
        assert (existsb (fun item : nat * list nat => mem_nat label (snd item)) cl = true);
          [|congruence].
        apply existsb_exists. exists item. split; [exact Hitem|].
        apply mem_nat_In. exact Hin. }
      unfold column_or_nan in Hkeep. rewrite Hcol, Hnew in Hkeep.
      assert (Hmiss : col !! r = Some NaN).
      { transitivity (replicate (nrows d) NaN !! r); [exact Hkeep|].
        apply lookup_replicate_2. apply lookup_lt_Some in Hlabel. exact Hlabel. }
      apply has_nan_lookup in Hmiss. congruence. }
  split; [exact Hlabels|]. intros Hnd.
  (* the labels are positions, and there are as many: they are all the positions *)
  assert (Hincl : incl (index d) (seq 0 (nrows d))).
  { intros label Hin. apply list_elem_of_In, list_elem_of_lookup_1 in Hin as [r Hr].
    destruct (Hlabels r label Hr) as (item & Hitem & Hmem).
    apply in_seq. split; [lia|]. exact (Hmembers item label Hitem Hmem). }
  assert (Hall : incl (seq 0 (nrows d)) (index d)).
  { apply NoDup_length_incl; [exact Hnd| |exact Hincl].
    rewrite length_seq. reflexivity. }
  intros r Hr.
  assert (Hin : In r (index d)) by (apply Hall, in_seq; lia).
  apply list_elem_of_In, list_elem_of_lookup_1 in Hin as [p Hp].
  exact (Hlabels p r Hp).
Qed.

End Coverage.

Example iterate_returns : snd Example.iterate = inr tt.
Proof. vm_compute. reflexivity. Qed.

Lemma every_row_in_a_cluster_witness :
  snd Example.iterate = inr tt /\
  forall r, (r < 4)%nat ->
    exists item,
      In item (clusters_used Example.run_clustering (self Example.w_ready)
                 [Str "C"; Str "CC"; Str "CCC"; Str "CCCC"]) /\
      In r (snd item).
Proof.
  split; [exact iterate_returns|].
  apply (iteration_needs_every_row_in_a_cluster
           Example.run_clustering Example.PULP_CBC_CMD Example.GetFingerprint
           Example.TanimotoSimilarity [Str "C"; Str "CC"; Str "CCC"; Str "CCCC"]
           0%nat Example.w_ready (fst Example.iterate) 0%nat Example.data).
  - transitivity (fst Example.iterate, snd Example.iterate).
    + unfold Example.iterate. apply surjective_pairing.
    + rewrite iterate_returns. reflexivity.
  - reflexivity.
  - reflexivity.
  - reflexivity.
  - apply NoDup_ListNoDup. apply (bool_decide_unpack _). vm_compute. exact I.
Defined.

(** ** What a call does to the splitter and to the log *)

Lemma same_config_refl (s : Splitter) : same_config s s.
Proof. unfold same_config. repeat split. Qed.

Lemma same_config_trans (s1 s2 s3 : Splitter) :
  same_config s1 s2 -> same_config s2 s3 -> same_config s1 s3.
Proof. unfold same_config. intuition congruence. Qed.

Lemma settles_quiet {A : Type} (m : Py A) : quiet m -> settles m.
Proof.
  intros Hq w w' r H. destruct (Hq _ _ _ H) as [E T]. split; [exact T|].
  rewrite E. apply same_config_refl.
Qed.

Lemma settles_set_self (f : Splitter -> Splitter) :
  (forall s, same_config s (f s)) -> settles (set_self f).
Proof. intros Hf w w' r H. inversion H; subst. cbn. auto. Qed.

Lemma settles_bind {A B : Type} (m : Py A) (f : A -> Py B) :
  settles m -> (forall a, settles (f a)) -> settles (m ≫= f).
Proof.
  intros Hm Hf w w' r H.
  apply bind_inv in H as [(e & H & ->)|(a & w1 & H1 & H2)].
  - exact (Hm _ _ _ H).
  - destruct (Hm _ _ _ H1) as [T1 C1], (Hf a _ _ _ H2) as [T2 C2].
    split; [congruence|]. exact (same_config_trans _ _ _ C1 C2).
Qed.

Lemma settles_for {A : Type} (l : list A) (body : A -> Py unit) :
  (forall a, settles (body a)) -> settles (for_ l body).
Proof.
  intros Hb. induction l as [|a l IH]; cbn [for_].
  - apply settles_quiet, quiet_ret.
  - apply settles_bind; auto.
Qed.

Ltac settles_step :=
  match goal with
  | |- settles (_ ≫= _) => apply settles_bind; [|intros ?]
  | |- settles (for_ _ _) => apply settles_for; intros ?
  | |- settles (set_self _) =>
      apply settles_set_self; intros ?; unfold same_config; cbn; repeat split
  | |- settles (match ?x with _ => _ end) => destruct x
  | |- settles _ => solve [apply settles_quiet; auto with quiet]
  end.

Ltac settles_tac := repeat settles_step.

Lemma settles_preprocessing (py_str : Q -> string) (smiles_column : string)
    (tasks ignore_columns : option (list string)) (l : loc) :
  settles (set_self (with_df l);;
           set_self (with_call_args smiles_column ignore_columns);;
           set_original_tasks tasks;;
           set_tasks_for_balancing py_str).
Proof.
  unfold set_original_tasks, set_tasks_for_balancing, balance_task, add_class_column.
  settles_tac.
Qed.


Lemma preserves_quiet {X A : Type} (f : Splitter -> X) (m : Py A) :
  quiet m -> preserves f m.
Proof. intros Hq w w' r H. destruct (Hq _ _ _ H) as [E _]. rewrite E. reflexivity. Qed.

Lemma preserves_set_self {X : Type} (f : Splitter -> X) (g : Splitter -> Splitter) :
  (forall s, f (g s) = f s) -> preserves f (set_self g).
Proof. intros Hg w w' r H. inversion H; subst. cbn. auto. Qed.

Lemma preserves_bind {X A B : Type} (f : Splitter -> X) (m : Py A) (k : A -> Py B) :
  preserves f m -> (forall a, preserves f (k a)) -> preserves f (m ≫= k).
Proof.
  intros Hm Hk w w' r H.
  apply bind_inv in H as [(e & H & ->)|(a & w1 & H1 & H2)].
  - exact (Hm _ _ _ H).
  - rewrite (Hk a _ _ _ H2). exact (Hm _ _ _ H1).
Qed.

Lemma preserves_for {X A : Type} (f : Splitter -> X) (l : list A) (body : A -> Py unit) :
  (forall a, preserves f (body a)) -> preserves f (for_ l body).
Proof.
  intros Hb. induction l as [|a l IH]; cbn [for_].
  - apply preserves_quiet, quiet_ret.
  - apply preserves_bind; auto.
Qed.

Ltac preserves_step :=
  match goal with
  | |- preserves _ (_ ≫= _) => apply preserves_bind; [|intros ?]
  | |- preserves _ (for_ _ _) => apply preserves_for; intros ?
  | |- preserves _ (set_self _) => apply preserves_set_self; intros ?; reflexivity
  | |- preserves _ (match ?x with _ => _ end) => destruct x
  | |- preserves _ _ => solve [apply preserves_quiet; auto with quiet]
  end.

Ltac preserves_tac := repeat preserves_step.

Lemma preserves_original_tasks (py_str : Q -> string) :
  preserves original_tasks (set_tasks_for_balancing py_str).
Proof.
  unfold set_tasks_for_balancing, balance_task, add_class_column. preserves_tac.
Qed.

Lemma iter_bump_seed (n : nat) (m : ClusteringMethod) :
  Nat.iter n bump_seed (Some m)
  = Some (mkMethod (kind m) (seed m + Z.of_nat n) (fp_calculator m)).
Proof.
  induction n as [|n IH].
  - destruct m. cbn. rewrite Z.add_0_r. reflexivity.
  - rewrite Nat.iter_succ, IH. cbn [bump_seed kind seed fp_calculator].
    f_equal. f_equal. lia.
Qed.


Lemma iter_advance_seed (n : nat) (s : Splitter) :
  n_splits (Nat.iter n advance_seed s) = n_splits s /\
  sizes (Nat.iter n advance_seed s) = sizes s /\
  clusters (Nat.iter n advance_seed s) = clusters s /\
  min_distance (Nat.iter n advance_seed s) = min_distance s /\
  tasks_for_balancing (Nat.iter n advance_seed s) = tasks_for_balancing s /\
  original_tasks (Nat.iter n advance_seed s) = original_tasks s /\
  df (Nat.iter n advance_seed s) = df s /\
  clustering_method (Nat.iter n advance_seed s)
  = if (1 <? n_splits s)%nat
    then Nat.iter n bump_seed (clustering_method s)
    else clustering_method s.
Proof.
  induction n as [|n IH].
  - cbn [Nat.iter]. destruct (1 <? n_splits s)%nat; repeat split.
  - rewrite !Nat.iter_succ.
    set (s' := Nat.iter n advance_seed s) in *.
    destruct IH as (Hn & H1 & H2 & H3 & H4 & H5 & H6 & Hcm).
    assert (E : (1 <? n_splits s')%nat = (1 <? n_splits s)%nat) by (rewrite Hn; reflexivity).
    unfold advance_seed. rewrite E.
    destruct (1 <? n_splits s)%nat; cbn; rewrite ?Hcm; repeat split; assumption.
Qed.

(** ** The columns of the frame *)

Lemma columns_tolist_setitem (d : DataFrame) (name : string) (s : Series) :
  columns_tolist (setitem d name s) = add_name (columns_tolist d) name.
Proof.
  unfold columns_tolist, setitem, add_name, mem_str. cbn [columns].
  induction (columns d) as [|[n old] cols IH]; cbn; [reflexivity|].
  rewrite (String.eqb_sym name n). destruct (String.eqb n name); cbn; [reflexivity|].
  rewrite IH. destruct (existsb _ _); reflexivity.
Qed.

Lemma lookup_col_mem (cols : list (string * Series)) (name : string) (col : Series) :
  lookup_col cols name = Some col -> mem_str name (map fst cols) = true.
Proof.
  unfold mem_str. induction cols as [|[n old] cols IH]; cbn; [discriminate|].
  rewrite (String.eqb_sym name n). destruct (String.eqb n name); cbn; auto.
Qed.

Lemma add_name_mem (names : list string) (name : string) :
  mem_str name names = true -> add_name names name = names.
Proof. unfold add_name. intros ->. reflexivity. Qed.

Lemma add_name_twice (names : list string) (name : string) :
  add_name (add_name names name) name = add_name names name.
Proof.
  apply add_name_mem. unfold add_name.
  destruct (mem_str name names) eqn:E; [exact E|].
  unfold mem_str. rewrite existsb_app. cbn. rewrite String.eqb_refl.
  apply orb_true_iff. right. reflexivity.
Qed.

Lemma columns_tolist_drop (d d' : DataFrame) (labels : list string) :
  drop d labels = inr d' ->
  columns_tolist d' = List.filter (fun c => negb (mem_str c labels)) (columns_tolist d).
Proof.
  unfold drop. destruct (List.find _ labels); [discriminate|].
  intros H. inversion H; subst d'; clear H. unfold columns_tolist. cbn [columns].
  induction (columns d) as [|[n col] cols IH]; cbn [List.filter map fst]; [reflexivity|].
  destruct (negb (mem_str n labels)); cbn [map fst]; rewrite IH; reflexivity.
Qed.

Section Columns.

Variable py_str : Q -> string.
Variable run_clustering : ClusteringMethod -> list cell -> Clusters.
Variable PULP_CBC_CMD : Q -> Q -> nat -> LpProblem -> var -> option Q.
Variable GetFingerprint : FpCalculator -> cell -> list bool.
Variable TanimotoSimilarity : list bool -> list bool -> Q.

Lemma add_class_column_names (task : string) (cls : cell) (w w' : World) (l : loc)
    (d : DataFrame) :
  add_class_column py_str task cls w = (w', inr tt) ->
  df (self w) = Some l -> heap w !! l = Some d ->
  exists d',
    df (self w') = Some l /\ heap w' !! l = Some d' /\
    columns_tolist d' = add_name (columns_tolist d) (class_column py_str task cls) /\
    tasks_for_balancing (self w')
    = tasks_for_balancing (self w) ++ [class_column py_str task cls].
Proof.
  unfold add_class_column. intros H Hl Hd.
  apply bind_inr in H as (d0 & w1 & Hr & H).
  apply read_df_inr in Hr as (-> & l0 & Hl0 & Hd0).
  assert (l0 = l) as -> by congruence. assert (d0 = d) as -> by congruence.
  apply bind_inr in H as (col & w1 & Hc & H). apply lift_inr in Hc as (-> & _).
  apply bind_inr in H as ([] & w1 & Hw & H).
  apply write_df_inr in Hw as (l1 & Hl1 & ->).
  assert (l1 = l) as -> by congruence.
  inversion H; subst w'; clear H. cbn [self heap df with_tasks_for_balancing
                                       tasks_for_balancing].
  eexists. split; [exact Hl|]. split.
  { apply list_lookup_insert_eq. apply lookup_lt_Some in Hd. exact Hd. }
  split; [apply columns_tolist_setitem|reflexivity].
Qed.

Lemma class_loop_names (task : string) (classes : list cell) :
  forall (w w' : World) (l : loc) (d : DataFrame),
  for_ classes (add_class_column py_str task) w = (w', inr tt) ->
  df (self w) = Some l -> heap w !! l = Some d ->
  exists d',
    df (self w') = Some l /\ heap w' !! l = Some d' /\
    columns_tolist d'
    = foldl add_name (columns_tolist d) (map (class_column py_str task) classes) /\
    tasks_for_balancing (self w')
    = tasks_for_balancing (self w) ++ map (class_column py_str task) classes.
Proof.
  induction classes as [|cls rest IH]; intros w w' l d H Hl Hd.
  - inversion H; subst. exists d. rewrite app_nil_r. auto.
  - cbn [for_] in H. apply bind_inr in H as ([] & w1 & H1 & H).
    destruct (add_class_column_names _ _ _ _ _ _ H1 Hl Hd) as (d1 & Hl1 & Hd1 & N1 & T1).
    destruct (IH _ _ _ _ H Hl1 Hd1) as (d' & Hl' & Hd' & N' & T').
    exists d'. split; [exact Hl'|]. split; [exact Hd'|].
    cbn [map foldl]. rewrite N', N1, T', T1, <- app_assoc. auto.
Qed.

Lemma balance_task_names (task : string) (w w' : World) (l : loc) (d : DataFrame) :
  balance_task py_str task w = (w', inr tt) ->
  df (self w) = Some l -> heap w !! l = Some d ->
  exists d' new,
    df (self w') = Some l /\ heap w' !! l = Some d' /\
    columns_tolist d' = foldl add_name (columns_tolist d) new /\
    tasks_for_balancing (self w') = tasks_for_balancing (self w) ++ new.
Proof.
  unfold balance_task. intros H Hl Hd.
  apply bind_inr in H as (d0 & w1 & Hr & H).
  apply read_df_inr in Hr as (-> & l0 & Hl0 & Hd0).
  assert (l0 = l) as -> by congruence. assert (d0 = d) as -> by congruence.
  apply bind_inr in H as (col & w1 & Hc & H). apply lift_inr in Hc as (-> & Hc).
  apply bind_inr in H as (b & w1 & Hb & H). apply lift_inr in Hb as (-> & _).
  destruct b.
  - destruct (class_loop_names _ _ _ _ _ _ H Hl Hd) as (d' & Hl' & Hd' & N' & T').
    eauto 10.
  - inversion H; subst w'; clear H. exists d, [task].
    cbn [self heap df with_tasks_for_balancing tasks_for_balancing foldl].
    split; [exact Hl|]. split; [exact Hd|]. split; [|reflexivity].
    symmetry. apply add_name_mem. unfold getitem in Hc.
    destruct (lookup_col (columns d) task) as [c|] eqn:E; [|discriminate].
    exact (lookup_col_mem _ _ _ E).
Qed.

Lemma tasks_loop_names (ts : list string) :
  forall (w w' : World) (l : loc) (d : DataFrame),
  for_ ts (balance_task py_str) w = (w', inr tt) ->
  df (self w) = Some l -> heap w !! l = Some d ->
  exists d' new,
    df (self w') = Some l /\ heap w' !! l = Some d' /\
    columns_tolist d' = foldl add_name (columns_tolist d) new /\
    tasks_for_balancing (self w') = tasks_for_balancing (self w) ++ new.
Proof.
  induction ts as [|t ts IH]; intros w w' l d H Hl Hd.
  - inversion H; subst. exists d, []. rewrite app_nil_r. auto.
  - cbn [for_] in H. apply bind_inr in H as ([] & w1 & H1 & H).
    destruct (balance_task_names _ _ _ _ _ H1 Hl Hd) as (d1 & new1 & Hl1 & Hd1 & N1 & T1).
    destruct (IH _ _ _ _ H Hl1 Hd1) as (d' & new & Hl' & Hd' & N' & T').
    exists d', (new1 ++ new). split; [exact Hl'|]. split; [exact Hd'|].
    rewrite foldl_app, N', N1, T', T1, <- app_assoc. auto.
Qed.

(** After the preprocessing the frame has the columns it had and, after
    them, the balancing tasks that were no column yet. *)
Lemma set_tasks_for_balancing_names (w w' : World) (l : loc) (d : DataFrame) :
  set_tasks_for_balancing py_str w = (w', inr tt) ->
  df (self w) = Some l -> heap w !! l = Some d ->
  exists d',
    df (self w') = Some l /\ heap w' !! l = Some d' /\
    columns_tolist d' = foldl add_name (columns_tolist d) (tasks_for_balancing (self w')).
Proof.
  unfold set_tasks_for_balancing. intros H Hl Hd.
  apply bind_inr in H as ([] & w1 & Hs & H). inversion Hs; subst w1; clear Hs.
  apply bind_inr in H as (s & w1 & Hs & H). inversion Hs; subst w1 s; clear Hs.
  apply (tasks_loop_names _ _ _ l d) in H as (d' & new & Hl' & Hd' & N' & T');
    [|exact Hl|exact Hd].
  cbn [self tasks_for_balancing with_tasks_for_balancing app] in T'.
  exists d'. rewrite T'. auto.
Qed.

Lemma write_subset_names (name : string) (mapping : list nat) (item : nat * list nat)
    (w w' : World) (l : loc) (d : DataFrame) :
  write_subset name mapping item w = (w', inr tt) ->
  df (self w) = Some l -> heap w !! l = Some d ->
  exists d',
    df (self w') = Some l /\ heap w' !! l = Some d' /\
    columns_tolist d' = add_name (columns_tolist d) name.
Proof.
  unfold write_subset. intros H Hl Hd.
  destruct (mapping !! fst item) as [m|]; [|discriminate].
  apply bind_inr in H as (d0 & w1 & Hr & H).
  apply read_df_inr in Hr as (-> & l0 & Hl0 & Hd0).
  assert (l0 = l) as -> by congruence. assert (d0 = d) as -> by congruence.
  apply bind_inr in H as (d1 & w2 & Hs & H). apply lift_inr in Hs as (-> & Hs).
  apply write_df_inr in H as (l1 & Hl1 & ->).
  assert (l1 = l) as -> by congruence.
  unfold loc_setitem in Hs. destruct (List.find _ (snd item)); [discriminate|].
  inversion Hs; subst d1; clear Hs. cbn [self heap].
  eexists. split; [exact Hl|]. split.
  { apply list_lookup_insert_eq. apply lookup_lt_Some in Hd. exact Hd. }
  apply columns_tolist_setitem.
Qed.

Lemma write_loop_names (name : string) (mapping : list nat) (clusters : Clusters) :
  forall (w w' : World) (l : loc) (d : DataFrame),
  for_ clusters (write_subset name mapping) w = (w', inr tt) ->
  df (self w) = Some l -> heap w !! l = Some d ->
  exists d',
    df (self w') = Some l /\ heap w' !! l = Some d' /\
    (columns_tolist d' = columns_tolist d \/
     columns_tolist d' = add_name (columns_tolist d) name).
Proof.
  induction clusters as [|item rest IH]; intros w w' l d H Hl Hd.
  - inversion H; subst. exists d. auto.
  - cbn [for_] in H. apply bind_inr in H as ([] & w1 & H1 & H).
    destruct (write_subset_names _ _ _ _ _ _ _ H1 Hl Hd) as (d1 & Hl1 & Hd1 & N1).
    destruct (IH _ _ _ _ H Hl1 Hd1) as (d' & Hl' & Hd' & N').
    exists d'. split; [exact Hl'|]. split; [exact Hd'|]. right.
    destruct N' as [N'|N']; rewrite N', N1; [reflexivity|apply add_name_twice].
Qed.

Lemma for_lift_same {A : Type} (ts : list A) (f : A -> exn + Series) :
  forall w w' : World,
  for_ ts (fun task => lift (f task);; mret tt) w = (w', inr tt) -> w' = w.
Proof.
  induction ts as [|t ts IH]; intros w w' H.
  - inversion H; reflexivity.
  - cbn [for_] in H. apply bind_inr in H as ([] & w1 & H1 & H).
    apply bind_inr in H1 as (c & w2 & H1 & H2). apply lift_inr in H1 as (-> & _).
    inversion H2; subst w1. exact (IH _ _ H).
Qed.

Lemma compute_task_balace_same (split_col : string) (w w' : World) :
  compute_task_balace split_col w = (w', inr tt) -> w' = w.
Proof.
  unfold compute_task_balace. intros H.
  apply bind_inr in H as (d0 & w1 & Hr & H). apply read_df_inr in Hr as (-> & _).
  apply bind_inr in H as (s & w1 & Hs & H). inversion Hs; subst w1 s; clear Hs.
  destruct (tasks_for_balancing (self w)) as [|t ts]; [discriminate|].
  apply bind_inr in H as ([] & w1 & Hf & H). apply for_lift_same in Hf as ->.
  apply bind_inr in H as (split & w2 & Hsp & H). apply lift_inr in Hsp as (-> & _).
  destruct (has_nan split); inversion H; reflexivity.
Qed.

(** An iteration that returns leaves the frame with the columns it had
    and, after them, the split column and the distance column when they
    were no column yet. *)
Lemma iteration_names (smiles : Series) (split : nat) (w w' : World) (l : loc)
    (d : DataFrame) :
  iteration run_clustering PULP_CBC_CMD GetFingerprint TanimotoSimilarity
            smiles split w = (w', inr tt) ->
  df (self w) = Some l -> heap w !! l = Some d ->
  exists d',
    df (self w') = Some l /\ heap w' !! l = Some d' /\
    columns_tolist d'
    = foldl add_name (columns_tolist d)
        (split_name (n_splits (self w)) split ::
         (if min_distance (self w) then [mintd_name (n_splits (self w)) split] else [])).
Proof.
  unfold iteration. intros H Hl Hd.
  apply bind_inr in H as (s & w0 & Hs & H). inversion Hs; subst w0 s; clear Hs.
  apply bind_inr in H as (cl & w1 & Hcl & H).
  apply get_clusters_used in Hcl as (H1 & S1 & _).
  apply bind_inr in H as (table & w2 & Htab & H).
  assert (H2 := compute_tasks_per_cluster_heap _ _ _ _ _ Htab).
  apply compute_tasks_per_cluster_inr in Htab as (S2 & _).
  apply bind_inr in H as (mapping & w3 & Hm & H).
  assert (H3 := merge_heap _ _ _ _ _ _ _ _ _ _ Hm).
  apply merge_inr in Hm as (_ & S3 & _).
  apply bind_inr in H as ([] & w4 & Hw & H).
  apply bind_inr in H as ([] & w5 & Hb & H).
  assert (Hl3 : df (self w3) = Some l) by congruence.
  assert (Hd3 : heap w3 !! l = Some d) by congruence.
  destruct (write_loop_names _ _ _ _ _ _ _ Hw Hl3 Hd3) as (d4 & Hl4 & Hd4 & N4).
  destruct (compute_task_balace_inr _ _ _ _ _ Hb Hl4 Hd4) as (col & Hcol & _).
  apply compute_task_balace_same in Hb as ->.
  assert (N4' : columns_tolist d4
                = add_name (columns_tolist d) (split_name (n_splits (self w)) split)).
  { destruct N4 as [N4|N4]; [|exact N4].
    rewrite N4. symmetry. apply add_name_mem. rewrite <- N4.
    exact (lookup_col_mem _ _ _ Hcol). }
  apply bind_inr in H as ([] & w6 & Hdist & H).
  assert (H6 : exists d6, df (self w6) = Some l /\ heap w6 !! l = Some d6 /\
             columns_tolist d6
             = foldl add_name (columns_tolist d4)
                 (if min_distance (self w) then [mintd_name (n_splits (self w)) split]
                  else [])).
  { destruct (min_distance (self w)).
    - assert (Hs6 := compute_min_interset_inr _ _ _ _ _ _ _ Hdist).
      destruct (distances_written_to_column _ _ _ _ _ _ _ _ _ Hdist Hl4 Hd4)
        as (sm & sp & ds & _ & _ & _ & Hd6).
      eexists. split; [destruct Hs6 as [-> _]; exact Hl4|]. split; [exact Hd6|].
      apply columns_tolist_setitem.
    - inversion Hdist; subst w6. exists d4. auto. }
  destruct H6 as (d6 & Hl6 & Hd6 & N6).
  exists d6. cbn [foldl]. rewrite <- N4'. split; [|split; [|exact N6]].
  - destruct (1 <? n_splits (self w))%nat; inversion H; subst w'; exact Hl6.
  - destruct (1 <? n_splits (self w))%nat; inversion H; subst w'; exact Hd6.
Qed.

Lemma iterations_names (smiles : Series) (n : nat) :
  forall (k : nat) (w w' : World) (l : loc) (d : DataFrame),
  for_ (seq k n)
       (iteration run_clustering PULP_CBC_CMD GetFingerprint TanimotoSimilarity smiles)
       w = (w', inr tt) ->
  df (self w) = Some l -> heap w !! l = Some d ->
  exists d',
    df (self w') = Some l /\ heap w' !! l = Some d' /\
    columns_tolist d'
    = foldl add_name (columns_tolist d)
        (flat_map (fun split =>
                     split_name (n_splits (self w)) split ::
                     (if min_distance (self w)
                      then [mintd_name (n_splits (self w)) split] else []))
                  (seq k n)).
Proof.
  induction n as [|n IH]; intros k w w' l d H Hl Hd.
  - inversion H; subst. exists d. auto.
  - cbn [seq for_] in H. apply bind_inr in H as ([] & w1 & H1 & H).
    destruct (iteration_names _ _ _ _ _ _ H1 Hl Hd) as (d1 & Hl1 & Hd1 & N1).
    apply iteration_inr in H1 as (_ & _ & Hs).
    destruct (IH _ _ _ _ _ H Hl1 Hd1) as (d' & Hl' & Hd' & N').
    exists d'. split; [exact Hl'|]. split; [exact Hd'|].
    destruct (iter_advance_seed 1 (self w)) as (En & _ & _ & Em & _).
    cbn [Nat.iter] in En, Em. change (Nat.iter 1 advance_seed (self w))
      with (advance_seed (self w)) in En, Em.
    rewrite Hs, En, Em in N'.
    cbn [seq flat_map]. rewrite foldl_app, <- N1. exact N'.
Qed.

End Columns.

Section Call.

Variable py_str : Q -> string.
Variable run_clustering : ClusteringMethod -> list cell -> Clusters.
Variable PULP_CBC_CMD : Q -> Q -> nat -> LpProblem -> var -> option Q.
Variable GetFingerprint : FpCalculator -> cell -> list bool.
Variable TanimotoSimilarity : list bool -> list bool -> Q.

(** Tasks without a value add nothing to the frame or to the balancing
    tasks. *)
Lemma balance_nothing (ts : list string) :
  forall (w w' : World) (l : loc) (d : DataFrame),
  df (self w) = Some l -> heap w !! l = Some d ->
  (forall t col, In t ts -> lookup_col (columns d) t = Some col -> dropna col = []) ->
  for_ ts (balance_task py_str) w = (w', inr tt) -> w' = w.
Proof.
  induction ts as [|t ts IH]; intros w w' l d Hl Hd Hnan H.
  - inversion H; reflexivity.
  - cbn [for_] in H. apply bind_inr in H as ([] & w1 & H1 & H).
    assert (w1 = w) as ->.
    { unfold balance_task in H1.
      apply bind_inr in H1 as (d0 & w2 & Hr & H1).
      apply read_df_inr in Hr as (-> & l0 & Hl0 & Hd0).
      assert (l0 = l) as -> by congruence. assert (d0 = d) as -> by congruence.
      apply bind_inr in H1 as (col & w2 & Hc & H1). apply lift_inr in Hc as (-> & Hc).
      unfold getitem in Hc.
      destruct (lookup_col (columns d) t) as [c|] eqn:Ec; [|discriminate].
      inversion Hc; subst c.
      rewrite (Hnan t col (or_introl eq_refl) Ec) in H1.
      inversion H1; reflexivity. }
    apply (IH w w' l d Hl Hd); [|exact H].
    intros t' col Ht'. apply Hnan. right. exact Ht'.
Qed.

(** An iteration that returns had clusters to work with. *)
Lemma iteration_has_clusters (smiles : Series) (split : nat) (w w' : World) :
  iteration run_clustering PULP_CBC_CMD GetFingerprint TanimotoSimilarity
            smiles split w = (w', inr tt) ->
  (exists c cs, clusters (self w) = Some (c :: cs)) \/
  (exists m, clustering_method (self w) = Some m).
Proof.
  unfold iteration. intros H.
  apply bind_inr in H as (s & w0 & Hs & H). inversion Hs; subst w0 s; clear Hs.
  apply bind_inr in H as (cl & w1 & Hcl & _).
  unfold get_clusters in Hcl.
  apply bind_inr in Hcl as (s & w0 & Hs & Hcl). inversion Hs; subst w0 s; clear Hs.
  destruct (clusters (self w)) as [[|c cs]|]; [|eauto|];
    (destruct (clustering_method (self w)) as [m|]; [eauto|discriminate]).
Qed.

(** The iterations of a call that returns. *)
Lemma iterations_inr (smiles : Series) (n : nat) :
  forall (k : nat) (w w' : World),
  for_ (seq k n)
       (iteration run_clustering PULP_CBC_CMD GetFingerprint TanimotoSimilarity smiles)
       w = (w', inr tt) ->
  self w' = Nat.iter n advance_seed (self w) /\
  ((1 <= n)%nat ->
   tasks_for_balancing (self w) <> [] /\
   ((exists c cs, clusters (self w) = Some (c :: cs)) \/
    (exists m, clustering_method (self w) = Some m))) /\
  exists tables,
    length tables = n /\ trace w' = trace w ++ call_events (self w) tables.
Proof.
  induction n as [|n IH]; intros k w w' H.
  - inversion H; subst. split; [reflexivity|]. split; [lia|].
    exists []. rewrite app_nil_r. auto.
  - cbn [seq for_] in H. apply bind_inr in H as ([] & w1 & H1 & H).
    pose proof (iteration_has_clusters _ _ _ _ H1) as Hcl.
    apply iteration_inr in H1 as (Ht & (cl & table & _ & _ & Htr) & Hs).
    apply IH in H as (Hs' & _ & tables & Hlen & Htr').
    split; [rewrite Nat.iter_succ_r, <- Hs; exact Hs'|].
    split; [intros _; split; [exact Ht|exact Hcl]|].
    exists (table :: tables). split; [cbn; lia|].
    cbn [call_events]. rewrite Htr', Htr, Hs, <- app_assoc. reflexivity.
Qed.

(** A call that returns: the state [s0] of the splitter after the
    preprocessing, and what the iterations made of it. *)
Lemma call_inr (data : loc) (smiles_column : string)
    (tasks ignore_columns : option (list string)) (w w' : World) (l : loc) :
  call py_str run_clustering PULP_CBC_CMD GetFingerprint TanimotoSimilarity
       data smiles_column tasks ignore_columns w = (w', inr l) ->
  exists (d : DataFrame) (s0 : Splitter) (tables : list (list (list Q))),
    heap w !! data = Some d /\ l = length (heap w) /\
    same_config (self w) s0 /\
    match tasks with
    | Some t => original_tasks s0 = t
    | None => default_tasks (columns_tolist d) smiles_column ignore_columns
              = inr (original_tasks s0)
    end /\
    ((forall t col, In t (original_tasks s0) ->
        lookup_col (columns d) t = Some col -> dropna col = []) ->
     tasks_for_balancing s0 = []) /\
    length tables = n_splits (self w) /\
    ((1 <= n_splits (self w))%nat ->
     tasks_for_balancing s0 <> [] /\
     ((exists c cs, clusters s0 = Some (c :: cs)) \/
      (exists m, clustering_method s0 = Some m))) /\
    trace w' = trace w ++ call_events s0 tables /\
    self w' = Nat.iter (n_splits (self w)) advance_seed s0 /\
    exists d',
      heap w' !! l = Some d' /\
      columns_tolist d'
      = List.filter
          (fun c => negb (mem_str c (List.filter
                                       (fun col => negb (mem_str col (original_tasks s0)))
                                       (tasks_for_balancing s0))))
          (foldl add_name (foldl add_name (columns_tolist d) (tasks_for_balancing s0))
                 (written_columns s0)).
Proof.
  unfold call. intros H.
  apply bind_inr in H as (s & w0 & Hs & H). inversion Hs; subst w0 s; clear Hs.
  apply bind_inr in H as ([] & w0 & Hc & H).
  assert (w0 = w) as ->.
  { destruct (1 <? n_splits (self w))%nat; [|inversion Hc; reflexivity].
    destruct (clusters (self w)); [inversion Hc|].
    destruct (is_MaxMin_or_Random _); inversion Hc; reflexivity. }
  clear Hc.
  apply bind_inr in H as (l0 & w1 & Hcopy & H).
  unfold copy in Hcopy. destruct (heap w !! data) as [d|] eqn:Hdata; [|discriminate].
  inversion Hcopy; subst w1 l0; clear Hcopy.
  apply bind_inr in H as ([] & w2 & H2 & H). inversion H2; subst w2; clear H2.
  apply bind_inr in H as ([] & w3 & H3 & H). inversion H3; subst w3; clear H3.
  cbn [heap self trace] in H.
  set (s3 := with_call_args smiles_column ignore_columns
               (with_df (length (heap w)) (self w))) in H.
  set (w3 := mkWorld (heap w ++ [d]) s3 (trace w)) in H.
  apply bind_inr in H as ([] & w4 & H4 & H).
  apply bind_inr in H as ([] & w5 & H5 & H).
  apply bind_inr in H as (d0 & w6 & H6 & H). apply read_df_inr in H6 as (-> & _).
  apply bind_inr in H as (smiles & w6 & H7 & H). apply lift_inr in H7 as (-> & _).
  apply bind_inr in H as ([] & w7 & H8 & H).
  apply bind_inr in H as (s & w8 & H9 & H). inversion H9; subst w8 s; clear H9.
  apply bind_inr in H as (d1 & w8 & H10 & H).
  apply read_df_inr in H10 as (-> & l10 & Hl10 & Hd10).
  apply bind_inr in H as (d' & w8 & H11 & H). apply lift_inr in H11 as (-> & H11).
  apply bind_inr in H as ([] & w8 & H12 & H).
  apply write_df_inr in H12 as (l2 & Hl2 & ->).
  inversion H; subst w' l; clear H. cbn [self trace heap].
  (* the original tasks *)
  assert (Hconf4 : trace w4 = trace w /\ same_config (self w) (self w4)).
  { assert (K : settles (set_original_tasks tasks))
      by (unfold set_original_tasks; settles_tac).
    destruct (K _ _ _ H4) as [T C]. split; [exact T|].
    apply (same_config_trans _ s3); [|exact C].
    unfold s3, same_config. cbn. repeat split. }
  assert (Horig4 : match tasks with
                   | Some t => original_tasks (self w4) = t
                   | None => default_tasks (columns_tolist d) smiles_column
                                           ignore_columns
                             = inr (original_tasks (self w4))
                   end /\
                   df (self w4) = Some (length (heap w)) /\
                   heap w4 = heap w ++ [d]).
  { unfold set_original_tasks in H4. destruct tasks as [t|].
    - inversion H4; subst. auto.
    - apply bind_inr in H4 as (d2 & w9 & Hr & H4).
      apply read_df_inr in Hr as (-> & l3 & Hl3 & Hd3).
      cbn [w3 self s3 with_call_args with_df df heap] in Hl3, Hd3.
      inversion Hl3; subst l3.
      rewrite lookup_app_r, Nat.sub_diag in Hd3 by lia. cbn in Hd3.
      inversion Hd3; subst d2.
      apply bind_inr in H4 as (s & w9 & Hs & H4). inversion Hs; subst w9 s; clear Hs.
      apply bind_inr in H4 as (cols & w9 & Hdef & H4).
      apply lift_inr in Hdef as (-> & Hdef).
      inversion H4; subst. cbn [self original_tasks with_original_tasks].
      auto. }
  destruct Horig4 as (Horig4 & Hl4 & Hh4).
  (* the balancing tasks *)
  assert (Hconf5 : trace w5 = trace w4 /\ same_config (self w4) (self w5)).
  { assert (K : settles (set_tasks_for_balancing py_str)).
    { unfold set_tasks_for_balancing, balance_task, add_class_column. settles_tac. }
    exact (K _ _ _ H5). }
  pose proof (preserves_original_tasks py_str _ _ _ H5) as Horig5.
  assert (Hempty : (forall t col, In t (original_tasks (self w5)) ->
                      lookup_col (columns d) t = Some col -> dropna col = []) ->
                   tasks_for_balancing (self w5) = []).
  { intros E. rewrite Horig5 in E.
    unfold set_tasks_for_balancing in H5.
    apply bind_inr in H5 as ([] & w9 & Hs & H5). inversion Hs; subst w9; clear Hs.
    apply bind_inr in H5 as (s & w9 & Hs & H5). inversion Hs; subst w9 s; clear Hs.
    cbn [self original_tasks with_tasks_for_balancing] in H5.
    apply (balance_nothing _ _ _ (length (heap w)) d) in H5.
    - subst w5. reflexivity.
    - exact Hl4.
    - cbn [heap]. rewrite Hh4, lookup_app_r, Nat.sub_diag by lia. reflexivity.
    - exact E. }
  (* the columns *)
  assert (Hd4 : heap w4 !! length (heap w) = Some d).
  { rewrite Hh4, lookup_app_r, Nat.sub_diag by lia. reflexivity. }
  edestruct set_tasks_for_balancing_names as (d5 & Hl5 & Hd5 & N5);
    [exact H5|exact Hl4|exact Hd4|].
  edestruct iterations_names as (d7 & Hl7 & Hd7 & N7); [exact H8|exact Hl5|exact Hd5|].
  assert (l10 = length (heap w)) as -> by congruence.
  assert (l2 = length (heap w)) as -> by congruence.
  assert (d1 = d7) as -> by congruence.
  (* the iterations *)
  apply iterations_inr in H8 as (Hs7 & Hne & tables & Hlen & Htr).
  exists d, (self w5), tables.
  destruct Hconf4 as [T4 C4], Hconf5 as [T5 C5].
  pose proof (same_config_trans _ _ _ C4 C5) as C.
  split; [reflexivity|]. split; [reflexivity|].
  split; [exact C|].
  split; [rewrite Horig5; exact Horig4|].
  split; [exact Hempty|]. split; [exact Hlen|]. split; [exact Hne|].
  split; [rewrite Htr, T5, T4; reflexivity|]. split; [exact Hs7|].
  exists d'. split.
  { apply list_lookup_insert_eq. apply lookup_lt_Some in Hd7. exact Hd7. }
  rewrite (columns_tolist_drop _ _ _ H11), N7, N5, Hs7.
  destruct (iter_advance_seed (n_splits (self w)) (self w5))
    as (_ & _ & _ & _ & -> & -> & _).
  unfold written_columns.
  destruct C as (_ & _ & _ & -> & _). reflexivity.
Qed.

Lemma flat_map_singletons {A B : Type} (f : A -> list B) (g : A -> B) (l : list A) :
  (forall a, In a l -> f a = [g a]) -> flat_map f l = map g l.
Proof.
  induction l as [|a l IH]; intros H; cbn; [reflexivity|].
  rewrite (H a) by (left; reflexivity). cbn. f_equal.
  apply IH. intros b Hb. apply H. right. exact Hb.
Qed.

Lemma flat_map_map {A B C : Type} (f : B -> list C) (g : A -> B) (l : list A) :
  flat_map f (map g l) = flat_map (fun a => f (g a)) l.
Proof. induction l as [|a l IH]; cbn; [reflexivity|]. rewrite IH. reflexivity. Qed.

Lemma call_events_log (tables : list (list (list Q))) :
  forall s : Splitter,
  solves (call_events s tables) = length tables /\
  strategies_called (call_events s tables)
  = flat_map (fun i =>
                match clusters (Nat.iter i advance_seed s) with
                | Some (_ :: _) => []
                | _ => match clustering_method (Nat.iter i advance_seed s) with
                       | Some m => [m]
                       | None => []
                       end
                end)
             (seq 0 (length tables)).
Proof.
  induction tables as [|table rest IH]; intros s; [split; reflexivity|].
  destruct (IH (advance_seed s)) as [IH1 IH2].
  cbn [call_events length seq flat_map Nat.iter].
  unfold solves, strategies_called in *.
  rewrite List.filter_app, length_app, flat_map_app, IH1, IH2.
  rewrite <- seq_shift, flat_map_map.
  change (Nat.iter 0 advance_seed s) with s.
  split.
  - unfold iteration_events. rewrite !List.filter_app, !length_app.
    destruct (clusters s) as [[|c cs]|], (clustering_method s) as [m|],
             (min_distance s); reflexivity.
  - f_equal.
    + unfold iteration_events. rewrite !flat_map_app.
      destruct (clusters s) as [[|c cs]|], (clustering_method s) as [m|],
               (min_distance s); reflexivity.
    + apply flat_map_ext_In. intros i _. rewrite <- Nat.iter_succ_r. reflexivity.
Qed.

(** X9.  A call that clusters with a strategy and returns has solved one model
    per split and has called the strategy once per split, the seed of the
    call for split [i] being the seed it was given plus [i].  It leaves
    the strategy with its seed increased by [n_splits] when
    [n_splits > 1], and with the seed it was given otherwise. *)
Theorem call_solves_and_reseeds_once_per_split (data : loc) (smiles_column : string)
    (tasks ignore_columns : option (list string)) (w w' : World) (l : loc)
    (m : ClusteringMethod) :
  call py_str run_clustering PULP_CBC_CMD GetFingerprint TanimotoSimilarity
       data smiles_column tasks ignore_columns w = (w', inr l) ->
  clustering_method (self w) = Some m ->
  clusters (self w) = None ->
  (exists new,
     trace w' = trace w ++ new /\
     solves new = n_splits (self w) /\
     strategies_called new
     = map (fun i => mkMethod (kind m) (seed m + Z.of_nat i) (fp_calculator m))
           (seq 0 (n_splits (self w)))) /\
  clustering_method (self w')
  = Some (mkMethod (kind m)
            (seed m + (if (1 <? n_splits (self w))%nat
                       then Z.of_nat (n_splits (self w)) else 0))
            (fp_calculator m)).
Proof.
  intros H Hm Hc.
  apply call_inr in H
    as (d & s0 & tables & _ & _ & Hconf & _ & _ & Hlen & _ & Htr & Hs & _).
  destruct Hconf as (_ & Hc0 & Hm0 & Hn0 & _).
  rewrite Hc in Hc0. rewrite Hm in Hm0.
  destruct (call_events_log tables s0) as [Hsolves Hcalled].
  split.
  - exists (call_events s0 tables). split; [exact Htr|].
    split; [congruence|]. rewrite Hcalled, Hlen.
    apply flat_map_singletons. intros i Hi. apply in_seq in Hi.
    destruct (iter_advance_seed i s0) as (_ & _ & -> & _ & _ & _ & _ & ->).
    rewrite Hc0, Hm0, Hn0.
    destruct (1 <? n_splits (self w))%nat eqn:E.
    + rewrite iter_bump_seed. reflexivity.
    + apply Nat.ltb_ge in E. assert (i = 0)%nat as -> by lia.
      destruct m. cbn. rewrite Z.add_0_r. reflexivity.
  - rewrite Hs.
    destruct (iter_advance_seed (n_splits (self w)) s0) as (_ & _ & _ & _ & _ & _ & _ & ->).
    rewrite Hm0, Hn0.
    destruct (1 <? n_splits (self w))%nat.
    + apply iter_bump_seed.
    + destruct m. cbn. rewrite Z.add_0_r. reflexivity.
Qed.

(** X10.  A call whose tasks hold no value raises: when every task, given or
    taken from the columns of the frame, is a column of missing values
    only (or when there is no task at all), a call asked for at least
    one split never returns a frame. *)
Theorem call_without_task_values_raises (data : loc) (smiles_column : string)
    (tasks ignore_columns : option (list string)) (w w' : World)
    (r : exn + loc) (d : DataFrame) (ts : list string) :
  (1 <= n_splits (self w))%nat ->
  heap w !! data = Some d ->
  match tasks with
  | Some t => t = ts
  | None => default_tasks (columns_tolist d) smiles_column ignore_columns = inr ts
  end ->
  (forall t col, In t ts -> lookup_col (columns d) t = Some col -> dropna col = []) ->
  call py_str run_clustering PULP_CBC_CMD GetFingerprint TanimotoSimilarity
       data smiles_column tasks ignore_columns w = (w', r) ->
  exists e, r = inl e.
Proof.
  intros Hn Hd Ht Hnan H. destruct r as [e|l]; [exists e; reflexivity|exfalso].
  apply call_inr in H
    as (d0 & s0 & tables & Hd0 & _ & _ & Ho & Hnone & _ & Hsome & _).
  assert (d0 = d) as -> by congruence.
  assert (original_tasks s0 = ts) as Hts by (destruct tasks; congruence).
  apply (proj1 (Hsome Hn)), Hnone. rewrite Hts. exact Hnan.
Qed.

(** X11.  An empty dictionary of precomputed clusters passes the constructor,
    which only tests for [None]; but the call tests it for truth, turns
    to the strategy, which is [None], and raises: no call asked for at
    least one split returns a frame. *)
Theorem empty_clusters_pass_the_constructor_and_fail_the_call
    (sizes : list Q) (n : nat) (equal : bool) (gap tl : Q) (jobs : nat) (md : bool) :
  (exists s, init sizes (Some []) None n equal gap tl jobs md = inr s) /\
  forall (s : Splitter) (data : loc) (smiles_column : string)
         (tasks ignore_columns : option (list string)) (w w' : World) (r : exn + loc),
    init sizes (Some []) None n equal gap tl jobs md = inr s ->
    self w = s -> (1 <= n)%nat ->
    call py_str run_clustering PULP_CBC_CMD GetFingerprint TanimotoSimilarity
         data smiles_column tasks ignore_columns w = (w', r) ->
    exists e, r = inl e.
Proof.
  split; [eexists; reflexivity|].
  intros s data smiles_column tasks ignore_columns w w' r Hinit Hs Hn H.
  destruct r as [e|l]; [exists e; reflexivity|exfalso].
  cbn in Hinit. inversion Hinit as [E]; clear Hinit. rewrite <- E in Hs. clear E.
  apply call_inr in H
    as (d & s0 & tables & _ & _ & Hconf & _ & _ & _ & Hsome & _).
  destruct Hconf as (_ & Hc & Hm & Hn0 & _).
  rewrite Hs in Hc, Hm, Hsome. cbn in Hc, Hm, Hsome.
  destruct (Hsome Hn) as [_ [(c & cs & E)|(m & E)]]; congruence.
Qed.

End Call.

Example run3_returns : snd Example.run3 = inr 1%nat.
Proof. vm_compute. reflexivity. Qed.

Lemma call_reseeds_witness :
  (exists new,
     trace (fst Example.run3) = [] ++ new /\
     solves new = 3%nat /\
     strategies_called new
     = map (fun i => mkMethod RandomClustering (2022 + Z.of_nat i) None) (seq 0 3)) /\
  clustering_method (self (fst Example.run3))
  = Some (mkMethod RandomClustering (2022 + 3) None).
Proof.
  apply (call_solves_and_reseeds_once_per_split
           Example.py_str Example.run_clustering Example.PULP_CBC_CMD
           Example.GetFingerprint Example.TanimotoSimilarity
           0%nat "SMILES" None None
           (mkWorld [Example.data] Example.splitter3 []) (fst Example.run3) 1%nat
           (mkMethod RandomClustering 2022 None)).
  - transitivity (fst Example.run3, snd Example.run3).
    + unfold Example.run3. apply surjective_pairing.
    + rewrite run3_returns. reflexivity.
  - reflexivity.
  - reflexivity.
Defined.

Lemma call_without_task_values_witness :
  exists e, snd Example.run_without_values = inl e.
Proof.
  apply (call_without_task_values_raises
           Example.py_str Example.run_clustering Example.PULP_CBC_CMD
           Example.GetFingerprint Example.TanimotoSimilarity
           0%nat "SMILES" None None
           (mkWorld [Example.data_without_values] Example.splitter [])
           (fst Example.run_without_values) (snd Example.run_without_values)
           Example.data_without_values ["y"]).
  - cbn. lia.
  - reflexivity.
  - reflexivity.
  - intros t col [<-|[]] E. inversion E. reflexivity.
  - unfold Example.run_without_values. apply surjective_pairing.
Defined.

(** ** The table of counts *)

Lemma values_in_cluster_le (col : Series) (indices : list nat) :
  (values_in_cluster col indices <= of_nat (length indices))%Q.
Proof.
  unfold values_in_cluster, of_nat, dropna.
  rewrite <- Zle_Qle. apply inj_le.
  etransitivity; [apply List.filter_length_le|].
  induction indices as [|i indices IH]; cbn; [lia|].
  destruct (col !! i); cbn; lia.
Qed.

Lemma count_in_cluster_inr (d : DataFrame) (task : string) (col : Series)
    (indices : list nat) :
  lookup_col (columns d) task = Some col ->
  (forall i, In i indices -> (i < nrows d)%nat) ->
  count_in_cluster d task indices = inr (values_in_cluster col indices).
Proof.
  intros Hcol Hidx. unfold count_in_cluster, getitem. rewrite Hcol.
  destruct (List.find _ indices) as [i|] eqn:E; [|reflexivity].
  apply find_some in E as [Hi Hb]. specialize (Hidx i Hi).
  apply Nat.ltb_lt in Hidx. rewrite Hidx in Hb. discriminate.
Qed.

Lemma tabulate_row_spec (d : DataFrame) (task : string) (col : Series) (N : nat)
    (items : Clusters) :
  lookup_col (columns d) task = Some col ->
  forall row : list Q,
  (forall j ind, In (j, ind) items ->
     (j < N)%nat /\ forall i, In i ind -> (i < nrows d)%nat) ->
  exists row',
    tabulate_row d task N items row = inr row' /\
    length row' = length row /\
    (forall j, ~ In j (map fst items) -> row' !! j = row !! j) /\
    (List.NoDup (map fst items) ->
     forall j ind, In (j, ind) items -> (j < length row)%nat ->
       row' !! j = Some (values_in_cluster col ind)).
Proof.
  intros Hcol. induction items as [|[j0 ind0] items IH]; intros row Hok.
  - exists row. cbn. repeat split; auto. intros _ j ind [].
  - destruct (Hok j0 ind0 (or_introl eq_refl)) as [Hj0 Hind0].
    cbn [tabulate_row]. rewrite (count_in_cluster_inr d task col ind0 Hcol Hind0).
    apply Nat.ltb_lt in Hj0. rewrite Hj0.
    destruct (IH (<[j0 := values_in_cluster col ind0]> row))
      as (row' & Hrun & Hlen & Hout & Hin).
    { intros j ind H. apply Hok. right. exact H. }
    exists row'. split; [exact Hrun|].
    rewrite length_insert in Hlen. split; [exact Hlen|]. split.
    + intros j Hj. cbn [map fst In] in Hj.
      rewrite Hout by tauto. apply list_lookup_insert_ne. tauto.
    + intros Hnd j ind [E|H] Hlt.
      * inversion E; subst j ind. inversion Hnd as [|? ? Hnotin _]; subst.
        rewrite (Hout j0 Hnotin). apply list_lookup_insert_eq. exact Hlt.
      * inversion Hnd; subst. apply Hin; [assumption|exact H|].
        rewrite length_insert. exact Hlt.
Qed.

Lemma tabulate_rows_spec (d : DataFrame) (clusters : Clusters) :
  (forall j ind, In (j, ind) clusters ->
     (j < length clusters)%nat /\ forall i, In i ind -> (i < nrows d)%nat) ->
  List.NoDup (map fst clusters) ->
  forall tasks : list string,
  (forall task, In task tasks -> exists col, lookup_col (columns d) task = Some col) ->
  exists rows,
    tabulate_rows d tasks clusters = inr rows /\
    length rows = length tasks /\
    forall i task col,
      tasks !! i = Some task -> lookup_col (columns d) task = Some col ->
      exists row,
        rows !! i = Some row /\ length row = length clusters /\
        forall j ind, In (j, ind) clusters -> row !! j = Some (values_in_cluster col ind).
Proof.
  intros Hok Hnd. induction tasks as [|task tasks IH]; intros Hcols.
  - exists []. repeat split. intros i task col H. discriminate.
  - destruct (Hcols task (or_introl eq_refl)) as [col Hcol].
    destruct (tabulate_row_spec d task col (length clusters) clusters Hcol
                (replicate (length clusters) 0) Hok)
      as (row & Hrun & Hlen & _ & Hin).
    destruct IH as (rows & Hrows & Hlens & Hspec).
    { intros t Ht. apply Hcols. right. exact Ht. }
    exists (row :: rows). cbn [tabulate_rows]. rewrite Hrun, Hrows.
    split; [reflexivity|]. split; [cbn; lia|].
    rewrite length_replicate in Hlen.
    intros [|i] t c Ht Hc.
    + cbn in Ht. inversion Ht; subst t.
      assert (c = col) as -> by congruence.
      exists row. split; [reflexivity|]. split; [exact Hlen|].
      intros j ind Hj. apply Hin; [exact Hnd|exact Hj|].
      rewrite length_replicate. apply (Hok j ind Hj).
    + exact (Hspec i t c Ht Hc).
Qed.

Lemma at1_lookup (l : list Q) (i : nat) (q : Q) : l !! i = Some q -> at1 l i = q.
Proof. intros H. unfold at1. apply nth_lookup_Some with (d := 0%Q) in H. exact H. Qed.

(** X12.  The table of counts, for tasks that are columns of the frame and
    clusters with distinct keys below their number whose rows are rows of
    the frame.  It has one row more than there are tasks and one column
    per cluster; its first row holds the size of each cluster at the
    position of the cluster, and the row of a task holds, at the key of
    each cluster, the number of rows of the cluster with a value for the
    task, which is at most the size of the cluster.  No frame is
    changed. *)
Theorem table_counts_values_per_cluster (tasks : list string) (clusters : Clusters)
    (w : World) (l : loc) (d : DataFrame) :
  df (self w) = Some l -> heap w !! l = Some d ->
  (forall task, In task tasks -> exists col, lookup_col (columns d) task = Some col) ->
  (forall j ind, In (j, ind) clusters ->
     (j < length clusters)%nat /\ forall i, In i ind -> (i < nrows d)%nat) ->
  List.NoDup (map fst clusters) ->
  exists w' table,
    compute_tasks_per_cluster tasks clusters w = (w', inr table) /\
    heap w' = heap w /\
    length table = S (length tasks) /\
    Forall (fun row => length row = length clusters) table /\
    forall p j ind, clusters !! p = Some (j, ind) ->
      at2 table 0 p = of_nat (length ind) /\
      forall i task col,
        tasks !! i = Some task -> lookup_col (columns d) task = Some col ->
        at2 table (S i) j = values_in_cluster col ind /\
        (at2 table (S i) j <= of_nat (length ind))%Q.
Proof.
  intros Hl Hd Hcols Hok Hnd.
  destruct (tabulate_rows_spec d clusters Hok Hnd tasks Hcols)
    as (rows & Hrows & Hlen & Hspec).
  eexists. exists (map (fun cluster => of_nat (length (snd cluster))) clusters :: rows).
  split.
  { unfold compute_tasks_per_cluster, mbind, Py_bind, emit, read_df, lift, mret, Py_ret.
    cbn [heap self trace]. rewrite Hl, Hd, Hrows. reflexivity. }
  split; [reflexivity|].
  split; [cbn; lia|]. split.
  { constructor; [apply length_map|].
    apply Forall_forall. intros row Hrow.
    apply list_elem_of_lookup_1 in Hrow as [i Hi].
    destruct (lookup_lt_is_Some_2 tasks i) as [task Ht].
    { rewrite <- Hlen. apply lookup_lt_is_Some_1. eauto. }
    destruct (Hcols task) as [col Hcol].
    { apply list_elem_of_In. eapply list_elem_of_lookup_2. exact Ht. }
    destruct (Hspec i task col Ht Hcol) as (row' & Hr' & Hlen' & _).
    congruence. }
  intros p j ind Hp. split.
  - unfold at2. cbn [nth]. apply at1_lookup.
    rewrite list_lookup_fmap. 
    change (fmap (fun cluster => of_nat (length (snd cluster))) (clusters !! p)
            = Some (of_nat (length ind))).
    rewrite Hp. reflexivity.
  - intros i task col Ht Hcol.
    destruct (Hspec i task col Ht Hcol) as (row & Hr & _ & Hrow).
    assert (E : at2 (map (fun cluster => of_nat (length (snd cluster))) clusters :: rows)
                    (S i) j = values_in_cluster col ind).
    { unfold at2. cbn [nth].
      rewrite (nth_lookup_Some rows i [] row Hr).
      apply at1_lookup, Hrow.
      apply list_elem_of_In. eapply list_elem_of_lookup_2. exact Hp. }
    split; [exact E|]. rewrite E. apply values_in_cluster_le.
Qed.

Lemma tabulate_row_key_out_of_range (d : DataFrame) (task : string) (N j : nat)
    (ind : list nat) (items : Clusters) :
  In (j, ind) items -> (N <= j)%nat ->
  forall row, exists e, tabulate_row d task N items row = inl e.
Proof.
  intros Hin Hj. induction items as [|[j0 ind0] items IH]; intros row; [destruct Hin|].
  cbn [tabulate_row].
  destruct (count_in_cluster d task ind0) as [e|n]; [eauto|].
  destruct (j0 <? N)%nat eqn:E; [|eauto].
  destruct Hin as [Heq|Hin].
  - inversion Heq; subst. apply Nat.ltb_lt in E. lia.
  - apply (IH Hin).
Qed.

(** X13.  A cluster whose key is not below the number of clusters makes the
    tabulation raise, whenever there is a task to tabulate. *)
Theorem table_rejects_key_out_of_range (task : string) (tasks : list string)
    (clusters : Clusters) (j : nat) (ind : list nat) (w w' : World)
    (r : exn + list (list Q)) :
  In (j, ind) clusters -> (length clusters <= j)%nat ->
  compute_tasks_per_cluster (task :: tasks) clusters w = (w', r) ->
  exists e, r = inl e.
Proof.
  intros Hin Hj H. destruct r as [e|table]; [eauto|exfalso].
  unfold compute_tasks_per_cluster in H.
  apply bind_inr in H as (_ & w1 & _ & H).
  apply bind_inr in H as (d & w2 & _ & H).
  apply bind_inr in H as (rows & w3 & H & _).
  apply lift_inr in H as [_ H]. cbn [tabulate_rows] in H.
  destruct (tabulate_row_key_out_of_range d task (length clusters) j ind clusters
              Hin Hj (replicate (length clusters) 0)) as [e He].
  rewrite He in H. discriminate.
Qed.

Lemma table_counts_witness :
  exists w' table,
    compute_tasks_per_cluster ["y"; "z"] Example.reversed_clusters Example.w_df
    = (w', inr table) /\
    heap w' = heap Example.w_df /\
    length table = 3%nat /\
    Forall (fun row => length row = 2%nat) table /\
    forall p j ind, Example.reversed_clusters !! p = Some (j, ind) ->
      at2 table 0 p = of_nat (length ind) /\
      forall i task col,
        ["y"; "z"] !! i = Some task ->
        lookup_col (columns Example.data) task = Some col ->
        at2 table (S i) j = values_in_cluster col ind /\
        (at2 table (S i) j <= of_nat (length ind))%Q.
Proof.
  apply (table_counts_values_per_cluster ["y"; "z"] Example.reversed_clusters
           Example.w_df 0%nat Example.data).
  - reflexivity.
  - reflexivity.
  - intros task [<-|[<-|[]]]; eexists; reflexivity.
  - intros j ind [E|[E|[]]]; inversion E; subst; (split; [cbn; lia|]).
    + intros i [<-|[<-|[<-|[]]]]; cbn; lia.
    + intros i [<-|[]]; cbn; lia.
  - apply NoDup_ListNoDup. apply (bool_decide_unpack _). vm_compute. exact I.
Defined.

Lemma table_rejects_witness :
  exists e,
    snd (compute_tasks_per_cluster ["y"] [(0%nat, [0%nat; 1%nat]); (2%nat, [2%nat; 3%nat])]
           Example.w_df) = inl e.
Proof.
  apply (table_rejects_key_out_of_range "y" []
           [(0%nat, [0%nat; 1%nat]); (2%nat, [2%nat; 3%nat])] 2%nat [2%nat; 3%nat]
           Example.w_df
           (fst (compute_tasks_per_cluster ["y"]
                   [(0%nat, [0%nat; 1%nat]); (2%nat, [2%nat; 3%nat])] Example.w_df))).
  - right. left. reflexivity.
  - cbn. lia.
  - apply surjective_pairing.
Defined.

(** ** The columns of the frame a call returns *)

Lemma foldl_add_name_spec (T : list string) :
  forall N : list string,
  exists E, foldl add_name N T = N ++ E /\
            forall c, In c E -> In c T /\ ~ In c N.
Proof.
  induction T as [|t T IH]; intros N; cbn [foldl].
  - exists []. rewrite app_nil_r. split; [reflexivity|]. intros c [].
  - unfold add_name at 2. destruct (mem_str t N) eqn:E.
    + destruct (IH N) as (E' & -> & HE'). exists E'. split; [reflexivity|].
      intros c Hc. destruct (HE' c Hc). split; [right|]; assumption.
    + destruct (IH (N ++ [t])) as (E' & -> & HE'). exists (t :: E').
      split; [rewrite <- app_assoc; reflexivity|].
      intros c [<-|Hc].
      * split; [left; reflexivity|]. intros Hin. apply mem_str_In in Hin. congruence.
      * destruct (HE' c Hc) as [H1 H2]. split; [right; exact H1|].
        intros Hin. apply H2, in_or_app. left. exact Hin.
Qed.

Lemma foldl_add_name_fresh (W : list string) :
  forall N : list string,
  List.NoDup W -> (forall c, In c W -> ~ In c N) -> foldl add_name N W = N ++ W.
Proof.
  induction W as [|c W IH]; intros N Hnd Hfresh; cbn [foldl].
  - rewrite app_nil_r. reflexivity.
  - inversion Hnd as [|? ? Hc Hnd']; subst. unfold add_name at 2.
    destruct (mem_str c N) eqn:E.
    { apply mem_str_In in E. destruct (Hfresh c (or_introl eq_refl) E). }
    rewrite IH; [rewrite <- app_assoc; reflexivity|exact Hnd'|].
    intros c' Hc' Hin. apply in_app_or in Hin as [Hin|[<-|[]]].
    + exact (Hfresh c' (or_intror Hc') Hin).
    + exact (Hc Hc').
Qed.

Lemma filter_keeps_all {A : Type} (p : A -> bool) (l : list A) :
  (forall x, In x l -> p x = true) -> List.filter p l = l.
Proof.
  induction l as [|a l IH]; intros H; cbn [List.filter]; [reflexivity|].
  rewrite (H a) by (left; reflexivity). f_equal. apply IH.
  intros x Hx. apply H. right. exact Hx.
Qed.

Lemma filter_keeps_none {A : Type} (p : A -> bool) (l : list A) :
  (forall x, In x l -> p x = false) -> List.filter p l = [].
Proof.
  induction l as [|a l IH]; intros H; cbn [List.filter]; [reflexivity|].
  rewrite (H a) by (left; reflexivity). apply IH.
  intros x Hx. apply H. right. exact Hx.
Qed.

Lemma written_columns_In (s : Splitter) (c : string) :
  In c (written_columns s) ->
  exists split, (split < n_splits s)%nat /\
    (c = split_name (n_splits s) split \/ c = mintd_name (n_splits s) split).
Proof.
  unfold written_columns. intros H. apply in_flat_map in H as (i & Hi & H).
  apply in_seq in Hi. exists i. split; [lia|].
  destruct H as [<-|H]; [left; reflexivity|].
  destruct (min_distance s); [|destruct H].
  destruct H as [<-|[]]. right. reflexivity.
Qed.

Lemma written_columns_NoDup (s : Splitter) : List.NoDup (written_columns s).
Proof.
  unfold written_columns, split_name, mintd_name.
  destruct (n_splits s =? 1)%nat eqn:E1.
  - apply Nat.eqb_eq in E1. rewrite E1. cbn. rewrite app_nil_r.
    destruct (min_distance s); repeat constructor; cbn; intuition discriminate.
  - clear E1. generalize (List.seq_NoDup (n_splits s) 0).
    induction (seq 0 (n_splits s)) as [|i l IH]; intros Hnd; cbn [flat_map].
    + constructor.
    + inversion Hnd as [|? ? Hi Hnd']; subst.
      assert (Hsplit : forall j, In j l ->
                ~ In ("Split_" +:+ pretty i)
                     (("Split_" +:+ pretty j) ::
                      (if min_distance s then ["minInterSetTd_" +:+ pretty j] else []))).
      { intros j Hj [E|H].
        - cbn in E. inversion E as [E']. apply pretty_nat_inj in E'. congruence.
        - destruct (min_distance s); [|destruct H]. destruct H as [E|[]].
          cbn in E. discriminate. }
      assert (Hmin : forall j, In j l ->
                ~ In ("minInterSetTd_" +:+ pretty i)
                     (("Split_" +:+ pretty j) ::
                      (if min_distance s then ["minInterSetTd_" +:+ pretty j] else []))).
      { intros j Hj [E|H].
        - cbn in E. discriminate.
        - destruct (min_distance s); [|destruct H]. destruct H as [E|[]].
          cbn in E. inversion E as [E']. apply pretty_nat_inj in E'. congruence. }
      cbn [app]. constructor.
      * intros H. apply in_app_or in H as [H|H].
        -- destruct (min_distance s); [|destruct H]. destruct H as [E|[]].
           cbn in E. discriminate.
        -- apply in_flat_map in H as (j & Hj & H). exact (Hsplit j Hj H).
      * apply NoDup_ListNoDup, NoDup_app. split; [|split].
        -- apply NoDup_ListNoDup. destruct (min_distance s); repeat constructor.
           intros [].
        -- intros x Hx Hx'. apply list_elem_of_In in Hx, Hx'.
           apply in_flat_map in Hx' as (j & Hj & Hx').
           destruct (min_distance s); [|destruct Hx]. destruct Hx as [<-|[]].
           exact (Hmin j Hj Hx').
        -- apply NoDup_ListNoDup, IH. exact Hnd'.
Qed.

Section ReturnedColumns.

Variable py_str : Q -> string.
Variable run_clustering : ClusteringMethod -> list cell -> Clusters.
Variable PULP_CBC_CMD : Q -> Q -> nat -> LpProblem -> var -> option Q.
Variable GetFingerprint : FpCalculator -> cell -> list bool.
Variable TanimotoSimilarity : list bool -> list bool -> Q.

(** X14.  The frame a call returns has the columns of the input, in their
    order, followed by the columns the iterations wrote: one split column
    per split, each followed by its distance column when the distances
    are asked for.  This holds when the tasks are columns of the input,
    the class columns made for balancing are new names, and the written
    names are neither columns of the input nor balancing tasks. *)
Theorem call_appends_the_written_columns (data : loc) (smiles_column : string)
    (tasks ignore_columns : option (list string)) (w w' : World) (l : loc)
    (d : DataFrame) :
  call py_str run_clustering PULP_CBC_CMD GetFingerprint TanimotoSimilarity
       data smiles_column tasks ignore_columns w = (w', inr l) ->
  heap w !! data = Some d ->
  (forall t, In t (original_tasks (self w')) -> In t (columns_tolist d)) ->
  (forall c, In c (tasks_for_balancing (self w')) ->
     In c (original_tasks (self w')) \/ ~ In c (columns_tolist d)) ->
  (forall c, In c (written_columns (self w)) ->
     ~ In c (columns_tolist d) /\ ~ In c (tasks_for_balancing (self w'))) ->
  exists d',
    heap w' !! l = Some d' /\
    columns_tolist d' = columns_tolist d ++ written_columns (self w) /\
    length (columns d')
    = (length (columns d)
       + n_splits (self w) * (if min_distance (self w) then 2 else 1))%nat.
Proof.
  intros H Hd Htasks Hclass Hwritten.
  apply call_inr in H
    as (d0 & s0 & tables & Hd0 & _ & Hconf & _ & _ & _ & _ & _ & Hs & d' & Hd' & Hcols).
  assert (d0 = d) as -> by congruence.
  destruct (iter_advance_seed (n_splits (self w)) s0)
    as (_ & _ & _ & _ & HT & HO & _).
  rewrite <- Hs in HT, HO. rewrite HT, HO in *.
  assert (HW : written_columns s0 = written_columns (self w)).
  { unfold written_columns. destruct Hconf as (_ & _ & _ & -> & _ & _ & _ & _ & ->).
    reflexivity. }
  rewrite HW in Hcols.
  assert (Hres : columns_tolist d' = columns_tolist d ++ written_columns (self w)).
  { rewrite Hcols.
    destruct (foldl_add_name_spec (tasks_for_balancing s0) (columns_tolist d))
      as (E & -> & HE).
    rewrite foldl_add_name_fresh.
    2:{ apply written_columns_NoDup. }
    2:{ intros c Hc Hin. destruct (Hwritten c Hc) as [H1 H2].
        apply in_app_or in Hin as [Hin|Hin]; [exact (H1 Hin)|].
        apply H2, (HE c Hin). }
    rewrite !List.filter_app.
    rewrite (filter_keeps_none _ E), app_nil_r.
    2:{ intros c Hc. destruct (HE c Hc) as [H1 H2].
        apply negb_false_iff, mem_str_In, filter_In. split; [exact H1|].
        apply negb_true_iff. destruct (mem_str c (original_tasks s0)) eqn:Em; [|reflexivity].
        apply mem_str_In in Em. destruct (H2 (Htasks c Em)). }
    rewrite !filter_keeps_all; [reflexivity| |].
    - intros c Hc. apply negb_true_iff.
      destruct (mem_str c _) eqn:Em; [|reflexivity].
      apply mem_str_In, filter_In in Em as [Em _].
      destruct (Hwritten c Hc) as [_ H2]. destruct (H2 Em).
    - intros c Hc. apply negb_true_iff.
      destruct (mem_str c _) eqn:Em; [|reflexivity].
      apply mem_str_In, filter_In in Em as [Em Eo].
      apply negb_true_iff in Eo.
      destruct (Hclass c Em) as [Ho|Hn]; [|destruct (Hn Hc)].
      apply mem_str_In in Ho. congruence. }
  exists d'. split; [exact Hd'|]. split; [exact Hres|].
  assert (Hlen : forall x : DataFrame, length (columns x) = length (columns_tolist x))
    by (intros x; unfold columns_tolist; rewrite length_map; reflexivity).
  rewrite !Hlen, Hres, length_app. f_equal.
  unfold written_columns.
  rewrite (length_flat_map_const _ _ (if min_distance (self w) then 2 else 1)%nat).
  - rewrite length_seq. reflexivity.
  - intros i _. destruct (min_distance (self w)); reflexivity.
Qed.

End ReturnedColumns.

Lemma written_columns_witness :
  exists d',
    heap (fst Example.run3) !! 1%nat = Some d' /\
    columns_tolist d'
    = columns_tolist Example.data ++ written_columns Example.splitter3 /\
    length (columns d') = (3 + 3 * 2)%nat.
Proof.
  apply (call_appends_the_written_columns
           Example.py_str Example.run_clustering Example.PULP_CBC_CMD
           Example.GetFingerprint Example.TanimotoSimilarity
           0%nat "SMILES" None None
           (mkWorld [Example.data] Example.splitter3 []) (fst Example.run3) 1%nat
           Example.data).
  - transitivity (fst Example.run3, snd Example.run3).
    + unfold Example.run3. apply surjective_pairing.
    + rewrite run3_returns. reflexivity.
  - reflexivity.
  - intros t Ht. vm_compute in Ht. vm_compute.
    destruct Ht as [<-|[<-|[]]]; auto 10.
  - intros c Hc. vm_compute in Hc.
    destruct Hc as [<-|[<-|[<-|[]]]].
    + right. intros H. vm_compute in H. intuition discriminate.
    + right. intros H. vm_compute in H. intuition discriminate.
    + left. vm_compute. auto 10.
  - intros c Hc. vm_compute in Hc.
    destruct Hc as [<-|[<-|[<-|[<-|[<-|[<-|[]]]]]]];
      (split; intros H; vm_compute in H; intuition discriminate).
Defined.

Lemma empty_clusters_witness : exists e, snd Example.run_empty_clusters = inl e.
Proof.
  apply (proj2 (empty_clusters_pass_the_constructor_and_fail_the_call
                  Example.py_str Example.run_clustering Example.PULP_CBC_CMD
                  Example.GetFingerprint Example.TanimotoSimilarity
                  [1; 1] 1%nat true (1 # 10) 60 1%nat true)
               Example.splitter_empty_clusters 0%nat "SMILES" None None
               (mkWorld [Example.data] Example.splitter_empty_clusters [])
               (fst Example.run_empty_clusters)).
  - reflexivity.
  - reflexivity.
  - lia.
  - unfold Example.run_empty_clusters. apply surjective_pairing.
Defined.

(** ** Frames of earlier calls *)

Section EarlierFrames.

Variable py_str : Q -> string.
Variable run_clustering : ClusteringMethod -> list cell -> Clusters.
Variable PULP_CBC_CMD : Q -> Q -> nat -> LpProblem -> var -> option Q.
Variable GetFingerprint : FpCalculator -> cell -> list bool.
Variable TanimotoSimilarity : list bool -> list bool -> Q.

#[local] Hint Resolve keeps_set_original_tasks keeps_set_tasks_for_balancing
  keeps_iteration : keeps.

(** X15.  A call writes to no frame that existed before it, whether it returns
    or raises: the splitter is first made to refer to a new copy of the
    input, and every later write goes through that reference.  So the
    frame an earlier call returned, to which the splitter still refers
    when the next call starts, stays as it was.  The frame a call returns
    is the new one, and the splitter refers to it afterwards. *)
Theorem call_leaves_earlier_frames_alone (data : loc) (smiles_column : string)
    (tasks ignore_columns : option (list string)) (w w' : World) (r : exn + loc) :
  call py_str run_clustering PULP_CBC_CMD GetFingerprint TanimotoSimilarity
       data smiles_column tasks ignore_columns w = (w', r) ->
  (forall l0, (l0 < length (heap w))%nat -> heap w' !! l0 = heap w !! l0) /\
  forall l, r = inr l -> l = length (heap w) /\ df (self w') = Some l.
Proof.
  unfold call. intros H.
  apply bind_inv in H as [(e & H & ->)|(s & w0 & Hs & H)]; [inversion H|].
  inversion Hs; subst w0 s; clear Hs.
  apply bind_inv in H as [(e & H & ->)|([] & w0 & Hc & H)].
  { assert (w' = w) as ->; [|split; [reflexivity|discriminate]].
    destruct (1 <? n_splits (self w))%nat; [|inversion H].
    destruct (clusters (self w)); [inversion H; reflexivity|].
    destruct (is_MaxMin_or_Random _); inversion H; reflexivity. }
  assert (w0 = w) as ->.
  { destruct (1 <? n_splits (self w))%nat; [|inversion Hc; reflexivity].
    destruct (clusters (self w)); [inversion Hc|].
    destruct (is_MaxMin_or_Random _); inversion Hc; reflexivity. }
  clear Hc.
  apply bind_inv in H as [(e & H & ->)|(l & w1 & Hcopy & H)].
  { unfold copy in H. destruct (heap w !! data) eqn:E; inversion H; subst.
    split; [auto|discriminate]. }
  unfold copy in Hcopy. destruct (heap w !! data) as [d|] eqn:Hdata; [|discriminate].
  inversion Hcopy; subst w1 l; clear Hcopy.
  apply bind_inv in H as [(e & H & ->)|([] & w2 & Hset & H)]; [inversion H|].
  inversion Hset; subst w2; clear Hset. cbn [heap self trace] in H.
  set (l := length (heap w)) in *.
  set (w2 := mkWorld _ _ _) in H.
  assert (K : keeps (A:=loc)
            (set_self (with_call_args smiles_column ignore_columns);;
             set_original_tasks tasks;;
             set_tasks_for_balancing py_str;;
             d0 ← read_df;
             smiles_list ← lift (getitem d0 smiles_column);
             for_ (seq 0 (n_splits (self w)))
                  (iteration run_clustering PULP_CBC_CMD GetFingerprint
                             TanimotoSimilarity smiles_list);;
             s ← get_self;
             d1 ← read_df;
             d' ← lift (drop d1 (List.filter
                                   (fun col => negb (mem_str col (original_tasks s)))
                                   (tasks_for_balancing s)));
             write_df d';;
             mret l)) by keeps_tac.
  destruct (K _ _ _ H) as [E F]. split.
  - intros l0 Hl0. rewrite F.
    + unfold w2. cbn [heap]. apply lookup_app_l. exact Hl0.
    + unfold w2. cbn [self df with_df]. intros E'. inversion E'. lia.
  - intros l' ->.
    assert (l' = l) as ->; [|split; [reflexivity|exact E]].
    apply bind_inr in H as ([] & w3 & _ & H).
    apply bind_inr in H as ([] & w4 & _ & H).
    apply bind_inr in H as ([] & w5 & _ & H).
    apply bind_inr in H as (d0 & w6 & _ & H).
    apply bind_inr in H as (smiles_list & w7 & _ & H).
    apply bind_inr in H as ([] & w8 & _ & H).
    apply bind_inr in H as (s & w9 & _ & H).
    apply bind_inr in H as (d1 & w10 & _ & H).
    apply bind_inr in H as (d' & w11 & _ & H).
    apply bind_inr in H as ([] & w12 & _ & H).
    inversion H; reflexivity.
Qed.

End EarlierFrames.

Lemma earlier_frames_witness :
  (forall l0, (l0 < length (heap (fst Example.run)))%nat ->
     heap (fst Example.run_again) !! l0 = heap (fst Example.run) !! l0) /\
  forall l, snd Example.run_again = inr l ->
    l = length (heap (fst Example.run)) /\
    df (self (fst Example.run_again)) = Some l.
Proof.
  apply (call_leaves_earlier_frames_alone
           Example.py_str Example.run_clustering Example.PULP_CBC_CMD
           Example.GetFingerprint Example.TanimotoSimilarity
           0%nat "SMILES" None None (fst Example.run) (fst Example.run_again)
           (snd Example.run_again)).
  unfold Example.run_again. apply surjective_pairing.
Defined.

(** ** The range of the distances *)

Section DistanceRange.

Variable TanimotoSimilarity : list bool -> list bool -> Q.
Variable fps : list (list bool).

Hypothesis similarity_in_unit_interval :
  forall a b, In a fps -> In b fps ->
    0 <= TanimotoSimilarity a b /\ TanimotoSimilarity a b <= 1.

Lemma distances_of_subset_range (other_fps : list (list bool)) (ref_idx : list nat) :
  (forall f, In f other_fps -> In f fps) ->
  forall md ds : list Q,
  Forall (fun x => 0 <= x /\ x <= 1) md ->
  distances_of_subset TanimotoSimilarity fps other_fps ref_idx md = inr ds ->
  Forall (fun x => 0 <= x /\ x <= 1) ds /\ length ds = length md /\
  forall i, ~ In i ref_idx -> ds !! i = md !! i.
Proof.
  intros Hother. induction ref_idx as [|i0 rest IH]; intros md ds Hmd H;
    cbn [distances_of_subset] in H.
  - inversion H; subst. auto.
  - destruct (fps !! i0) as [fp|] eqn:Ef; [|discriminate].
    destruct (py_max (map (TanimotoSimilarity fp) other_fps)) as [m|] eqn:Em;
      [|discriminate].
    apply IH in H as (Hds & Hlen & Hout).
    + split; [exact Hds|]. rewrite length_insert in Hlen. split; [exact Hlen|].
      intros i Hi. rewrite Hout by (intros Hin; apply Hi; right; exact Hin).
      apply list_lookup_insert_ne. intros ->. apply Hi. left. reflexivity.
    + apply Forall_insert; [exact Hmd|].
      apply py_max_spec in Em as [Hin _].
      apply in_map_iff in Hin as (f & <- & Hf).
      destruct (similarity_in_unit_interval fp f) as [H0 H1].
      * apply list_elem_of_In. eapply list_elem_of_lookup_2. exact Ef.
      * apply Hother. exact Hf.
      * split; lra.
Qed.

Lemma distances_of_subsets_range (labels : list nat) (split : Series)
    (subsets : list cell) :
  forall md ds : list Q,
  Forall (fun x => 0 <= x /\ x <= 1) md ->
  distances_of_subsets TanimotoSimilarity fps labels split subsets md = inr ds ->
  Forall (fun x => 0 <= x /\ x <= 1) ds /\ length ds = length md /\
  forall i, (forall j, In j subsets -> ~ In i (ref_idx_of labels split j)) ->
    ds !! i = md !! i.
Proof.
  induction subsets as [|j rest IH]; intros md ds Hmd H; cbn [distances_of_subsets] in H.
  - inversion H; subst. auto.
  - cbv zeta in H.
    destruct (distances_of_subset TanimotoSimilarity fps
                (other_fps_of fps (ref_idx_of labels split j))
                (ref_idx_of labels split j) md)
      as [e|md1] eqn:E1; [discriminate|].
    apply distances_of_subset_range in E1 as (H1 & L1 & O1); [|
      intros f Hf; apply other_fps_of_In in Hf as (k & Hk & _);
      apply list_elem_of_In; eapply list_elem_of_lookup_2; exact Hk | exact Hmd].
    apply IH in H as (Hds & Hlen & Hout); [|exact H1].
    split; [exact Hds|]. split; [congruence|].
    intros i Hi. rewrite Hout by (intros j' Hj'; apply Hi; right; exact Hj').
    apply O1, Hi. left. reflexivity.
Qed.

(** X16.  When the similarity of any two of the fingerprints lies between [0]
    and [1], a distance computation that returns gives one distance per
    fingerprint, each between [0] and [1]; and the distance at a position
    that is the label of no row with a split value stays the [0] the
    array was filled with.  With the default index, that is the distance
    of every row without a split value. *)
Theorem min_interset_distances_in_unit_interval (labels : list nat) (split : Series)
    (ds : list Q) :
  min_interset_distances TanimotoSimilarity fps labels split = inr ds ->
  length ds = length fps /\
  (forall x, In x ds -> 0 <= x /\ x <= 1) /\
  (forall i, (i < length fps)%nat ->
     (forall r c, labels !! r = Some i -> split !! r = Some c -> c = NaN) ->
     ds !! i = Some 0) /\
  (labels = seq 0 (length split) ->
   forall i, (i < length fps)%nat -> split !! i = Some NaN -> ds !! i = Some 0).
Proof.
  unfold min_interset_distances. intros H.
  apply distances_of_subsets_range in H as (Hds & Hlen & Hout).
  2:{ apply Forall_replicate. split; lra. }
  rewrite length_replicate in Hlen.
  assert (Hzero : forall i, (i < length fps)%nat ->
            (forall r c, labels !! r = Some i -> split !! r = Some c -> c = NaN) ->
            ds !! i = Some 0).
  { intros i Hi Hnan. rewrite Hout.
    - apply lookup_replicate_2. exact Hi.
    - intros j _ Hin. apply ref_idx_of_labels in Hin as (r & c & Hr & Hc & E).
      rewrite (Hnan r c Hr Hc) in E. discriminate. }
  split; [exact Hlen|]. split; [|split; [exact Hzero|]].
  - intros x Hx. rewrite Forall_forall in Hds. apply Hds, list_elem_of_In. exact Hx.
  - intros -> i Hi Hnan. apply (Hzero i Hi).
    intros r c Hr Hc. apply lookup_seq in Hr as [E _]. cbn in E. subst i. congruence.
Qed.

End DistanceRange.

Lemma distances_in_unit_interval_witness :
  exists ds,
    min_interset_distances Example.TanimotoSimilarity Example.fps4
      [1; 0; 2; 3]%nat Example.split_with_gap = inr ds /\
    length ds = length Example.fps4 /\
    (forall x, In x ds -> 0 <= x /\ x <= 1) /\
    (forall i, (i < length Example.fps4)%nat ->
       (forall r c, [1; 0; 2; 3]%nat !! r = Some i ->
                    Example.split_with_gap !! r = Some c -> c = NaN) ->
       ds !! i = Some 0).
Proof.
  eexists. split; [vm_compute; reflexivity|].
  match goal with
  | |- length ?out = _ /\ _ =>
      destruct (min_interset_distances_in_unit_interval Example.TanimotoSimilarity
                  Example.fps4) with (labels := [1; 0; 2; 3]%nat)
                  (split := Example.split_with_gap) (ds := out)
        as (Hlen & Hrange & Hzero & _)
  end.
  - intros a b Ha Hb. vm_compute in Ha, Hb.
    destruct Ha as [<-|[<-|[<-|[<-|[]]]]];
      destruct Hb as [<-|[<-|[<-|[<-|[]]]]];
      vm_compute; (split; intros H; discriminate H).
  - vm_compute. reflexivity.
  - split; [exact Hlen|]. split; [exact Hrange|]. exact Hzero.
Defined.
